(** * business-process-bot: the reminder engine, the deadline check and the
      chat handler of [main.py] over the record store of [db.py].

    Conventions of the embedding.
    - A Python [str] is the list of its code points ([pystr]); literals of the
      source are written [py "..."], the UTF-8 decoding of the Rocq literal.
    - A [date] is Python's proleptic ordinal (1 for 0001-01-01); a naive
      [datetime] is the ordinal of its date times the microseconds of a day,
      plus the microseconds since midnight; a [timedelta] is a signed number
      of microseconds.  The bounds MINYEAR and MAXYEAR of Python's datetime
      are not part of the model.
    - [int] and the classes \d and \s follow Python 3.11 (Unicode 14.0).
    - Effectful code runs in the monad [M]: the state is the record store, the
      trace of observable events and the schedule of store and transport
      failures; a Python exception is the result [Raise]. *)

From Stdlib Require Import ZArith NArith List Bool String Ascii Lia.
From Stdlib Require Import DecimalString.
From Stdlib Require DecimalPos DecimalZ.
From Stdlib Require Import Sorted Permutation.
Import ListNotations.
Local Open Scope Z_scope.

(* ================================================================== *)
(** ** Python strings *)

Module PyStr.

Definition pystr := list N.

Definition bytes_of (s : string) : list N :=
  map N_of_ascii (list_ascii_of_string s).

(** UTF-8 decoding, used to write the literals of the source. *)
Fixpoint utf8_decode (bs : list N) : pystr :=
  match bs with
  | [] => []
  | b :: r =>
    if (b <? 128)%N then b :: utf8_decode r
    else if (b <? 224)%N then
      match r with
      | b1 :: r1 => ((b - 192) * 64 + (b1 - 128))%N :: utf8_decode r1
      | _ => []
      end
    else if (b <? 240)%N then
      match r with
      | b1 :: b2 :: r2 =>
        ((b - 224) * 4096 + (b1 - 128) * 64 + (b2 - 128))%N :: utf8_decode r2
      | _ => []
      end
    else
      match r with
      | b1 :: b2 :: b3 :: r3 =>
        ((b - 240) * 262144 + (b1 - 128) * 4096 + (b2 - 128) * 64 + (b3 - 128))%N
          :: utf8_decode r3
      | _ => []
      end
  end.

Definition py (s : string) : pystr := utf8_decode (bytes_of s).

Definition str_eqb (a b : pystr) : bool :=
  if list_eq_dec N.eq_dec a b then true else false.

(** [str.isspace] of one character: the code points Python treats as
    whitespace in [strip], [split] and the regular expression class \s. *)
Definition isspace (c : N) : bool :=
  ((9 <=? c) && (c <=? 13) || (28 <=? c) && (c <=? 32)
   || (c =? 133) || (c =? 160) || (c =? 5760)
   || (8192 <=? c) && (c <=? 8202)
   || (c =? 8232) || (c =? 8233) || (c =? 8239) || (c =? 8287)
   || (c =? 12288))%N.

Fixpoint lstrip (s : pystr) : pystr :=
  match s with
  | c :: r => if isspace c then lstrip r else s
  | [] => []
  end.

Definition rstrip (s : pystr) : pystr := rev (lstrip (rev s)).

Definition strip (s : pystr) : pystr := rstrip (lstrip s).

Fixpoint startswith (s prefix : pystr) : bool :=
  match prefix, s with
  | [], _ => true
  | p :: ps, c :: cs => (c =? p)%N && startswith cs ps
  | _ :: _, [] => false
  end.

(** [s.replace(old, new)] for a non-empty [old]: the occurrences of [old]
    are replaced from left to right, without overlap.  [skip] counts the
    characters of the occurrence just replaced that are still to be dropped. *)
Fixpoint replace_from (old new s : pystr) (skip : nat) : pystr :=
  match s with
  | [] => []
  | c :: r =>
    match skip with
    | S k => replace_from old new r k
    | O =>
      if startswith s old
      then new ++ replace_from old new r (Nat.pred (List.length old))
      else c :: replace_from old new r O
    end
  end.

Definition replace (s old new : pystr) : pystr := replace_from old new s O.

(** The first whitespace-free word of [s] and what follows it. *)
Fixpoint span_word (s : pystr) : pystr * pystr :=
  match s with
  | [] => ([], [])
  | c :: r =>
    if isspace c then ([], s)
    else let (w, rest) := span_word r in (c :: w, rest)
  end.

(** [s.split()]: the maximal whitespace-free words of [s].  [word] is the
    word being read, in reverse. *)
Fixpoint split_from (s : pystr) (word : pystr) : list pystr :=
  match s with
  | [] => match word with [] => [] | _ => [rev word] end
  | c :: r =>
    if isspace c
    then match word with
         | [] => split_from r []
         | _ => rev word :: split_from r []
         end
    else split_from r (c :: word)
  end.

Definition split_ws (s : pystr) : list pystr := split_from s [].

(** [s.split(maxsplit=1)]: the first word, then the rest of the string after
    the whitespace that follows it (kept as it is, if not empty). *)
Definition split_maxsplit1 (s : pystr) : list pystr :=
  match lstrip s with
  | [] => []
  | s1 =>
    let (w, rest) := span_word s1 in
    match lstrip rest with
    | [] => [w]
    | tail => [w; tail]
    end
  end.

(** [sep.join(parts)]. *)
Fixpoint join (sep : pystr) (parts : list pystr) : pystr :=
  match parts with
  | [] => []
  | [x] => x
  | x :: xs => x ++ sep ++ join sep xs
  end.

(** [str(n)] of an integer. *)
Definition str_of_Z (n : Z) : pystr :=
  bytes_of (NilZero.string_of_int (Z.to_int n)).

(** The zeros of the decimal digits of Unicode 14.0, the version of
    Python 3.11; the nine characters after a zero are the digits 1 to 9 of
    its script. *)
Definition DECIMAL_ZEROS : list N :=
  [48; 1632; 1776; 1984; 2406; 2534; 2662; 2790; 2918; 3046; 3174; 3302;
   3430; 3558; 3664; 3792; 3872; 4160; 4240; 6112; 6160; 6470; 6608; 6784;
   6800; 6992; 7088; 7232; 7248; 42528; 43216; 43264; 43472; 43504; 43600;
   44016; 65296; 66720; 68912; 69734; 69872; 69942; 70096; 70384; 70736;
   70864; 71248; 71360; 71472; 71904; 72016; 72784; 73040; 73120; 92768;
   92864; 93008; 120782; 120792; 120802; 120812; 120822; 123200; 123632;
   125264; 130032]%N.

(** The value of a decimal digit, of any script: what [int] reads and the
    class \d matches. *)
Definition digit_value (c : N) : option Z :=
  option_map (fun zero => Z.of_N (c - zero))
             (find (fun zero => (zero <=? c) && (c <? zero + 10))%N
                   DECIMAL_ZEROS).

Definition isdigit (c : N) : bool :=
  match digit_value c with Some _ => true | None => false end.

(** The digits of [int(s)] once blanks and sign are gone: groups of digits
    separated by single underscores.  [acc] is the value read so far and
    [after_digit] tells whether the last character was a digit. *)
Fixpoint int_digits (s : pystr) (acc : Z) (after_digit : bool) : option Z :=
  match s with
  | [] => if after_digit then Some acc else None
  | c :: r =>
    match digit_value c with
    | Some d => int_digits r (10 * acc + d) true
    | None =>
      if (c =? 95)%N && after_digit
      then match r with
           | [] => None
           | c1 :: _ => if isdigit c1 then int_digits r acc false else None
           end
      else None
    end
  end.

(** The blanks [int] strips: those of [str.isspace] but the separators
    U+001C to U+001F, which it rejects. *)
Definition int_space (c : N) : bool :=
  isspace c && negb ((28 <=? c) && (c <=? 31))%N.

Fixpoint lstrip_int (s : pystr) : pystr :=
  match s with
  | c :: r => if int_space c then lstrip_int r else s
  | [] => []
  end.

Definition strip_int (s : pystr) : pystr :=
  rev (lstrip_int (rev (lstrip_int s))).

(** [int(s)] in base 10; [None] stands for ValueError. *)
Definition int_of_str (s : pystr) : option Z :=
  match strip_int s with
  | [] => None
  | c :: r =>
    if (c =? 45)%N then option_map Z.opp (int_digits r 0 false)
    else if (c =? 43)%N then int_digits r 0 false
    else int_digits (c :: r) 0 false
  end.

(** [s.split(":")]: the fields between the colons (never an empty list). *)
Fixpoint split_colon_from (s : pystr) (field : pystr) : list pystr :=
  match s with
  | [] => [rev field]
  | c :: r =>
    if (c =? 58)%N then rev field :: split_colon_from r []
    else split_colon_from r (c :: field)
  end.

Definition split_colon (s : pystr) : list pystr := split_colon_from s [].

End PyStr.
Export PyStr.

(* ================================================================== *)
(** ** Exceptions *)

Inductive Exn : Type :=
| ValueError       (* malformed text handed to int, time or an unpacking *)
| StoreError       (* sqlite3.Error raised by a call on the connection *)
| TransportError.  (* httpx error raised by the POST *)

Inductive Result (A : Type) : Type :=
| Ok (a : A)
| Raise (e : Exn).
Arguments Ok {A} a.
Arguments Raise {A} e.

(* ================================================================== *)
(** ** Dates, times and durations ([datetime] of the Python library) *)

Module Clock.

Definition US_PER_SECOND : Z := 1000000.
Definition US_PER_MINUTE : Z := 60 * US_PER_SECOND.
Definition US_PER_HOUR : Z := 60 * US_PER_MINUTE.
Definition US_PER_DAY : Z := 24 * US_PER_HOUR.

Definition date := Z.
Definition datetime := Z.
Definition timedelta := Z.

Definition is_leap (y : Z) : bool :=
  (y mod 4 =? 0) && (negb (y mod 100 =? 0) || (y mod 400 =? 0)).

Definition DAYS_IN_MONTH : list Z :=
  [0; 31; 28; 31; 30; 31; 30; 31; 31; 30; 31; 30; 31].

Definition DAYS_BEFORE_MONTH : list Z :=
  [0; 0; 31; 59; 90; 120; 151; 181; 212; 243; 273; 304; 334].

Definition days_in_month (y m : Z) : Z :=
  if (m =? 2) && is_leap y then 29 else nth (Z.to_nat m) DAYS_IN_MONTH 0.

Definition days_before_year (y : Z) : Z :=
  let y1 := y - 1 in y1 * 365 + y1 / 4 - y1 / 100 + y1 / 400.

Definition days_before_month (y m : Z) : Z :=
  nth (Z.to_nat m) DAYS_BEFORE_MONTH 0
  + (if (2 <? m) && is_leap y then 1 else 0).

(** [date(y, m, d).toordinal()]. *)
Definition ymd2ord (y m d : Z) : date :=
  days_before_year y + days_before_month y m + d.

(** [date.fromordinal(n)] as (year, month, day). *)
Definition ord2ymd (n0 : date) : Z * Z * Z :=
  let n := n0 - 1 in
  let n400 := n / 146097 in let n := n mod 146097 in
  let n100 := n / 36524 in let n := n mod 36524 in
  let n4 := n / 1461 in let n := n mod 1461 in
  let n1 := n / 365 in let n := n mod 365 in
  let year := n400 * 400 + 1 + n100 * 100 + n4 * 4 + n1 in
  if (n1 =? 4) || (n100 =? 4) then (year - 1, 12, 31)
  else
    let leapyear := (n1 =? 3) && (negb (n4 =? 24) || (n100 =? 3)) in
    let month := Z.shiftr (n + 50) 5 in
    let preceding :=
      nth (Z.to_nat month) DAYS_BEFORE_MONTH 0
      + (if (2 <? month) && leapyear then 1 else 0) in
    if n <? preceding then
      let month' := month - 1 in
      let preceding' :=
        preceding - (nth (Z.to_nat month') DAYS_IN_MONTH 0
                     + (if (month' =? 2) && leapyear then 1 else 0)) in
      (year, month', n - preceding' + 1)
    else (year, month, n - preceding + 1).

(** [time(h, m)] as microseconds since midnight; ValueError out of range. *)
Definition time_hm (h m : Z) : Result Z :=
  if (0 <=? h) && (h <? 24) && (0 <=? m) && (m <? 60)
  then Ok (h * US_PER_HOUR + m * US_PER_MINUTE)
  else Raise ValueError.

(** [datetime.combine(d, t)]. *)
Definition combine (d : date) (t : Z) : datetime := d * US_PER_DAY + t.

(** [datetime(y, m, d, H, M)]. *)
Definition mk_datetime (y m d H M : Z) : datetime :=
  combine (ymd2ord y m d) (H * US_PER_HOUR + M * US_PER_MINUTE).

(** [dt.date()]. *)
Definition date_of (t : datetime) : date := t / US_PER_DAY.

(** [dt.hour] and [dt.minute]. *)
Definition hour_of (t : datetime) : Z := (t mod US_PER_DAY) / US_PER_HOUR.
Definition minute_of (t : datetime) : Z := (t mod US_PER_HOUR) / US_PER_MINUTE.

(** [timedelta(minutes=k)]. *)
Definition timedelta_minutes (k : Z) : timedelta := k * US_PER_MINUTE.

Definition digit (n : Z) : N := Z.to_N (48 + n mod 10).
Definition pad2 (n : Z) : pystr := [digit (n / 10); digit n].
Definition pad4 (n : Z) : pystr :=
  [digit (n / 1000); digit (n / 100); digit (n / 10); digit n].

(** [d.isoformat()]: YYYY-MM-DD. *)
Definition isoformat (d : date) : pystr :=
  let '(y, m, dd) := ord2ymd d in
  pad4 y ++ py "-" ++ pad2 m ++ py "-" ++ pad2 dd.

(** [dt.strftime('%d-%m-%Y %H:%M')].  The year is written with four digits,
    as the documentation of the library has it; for a year below 1000 the C
    library of the platform decides, and the one of Linux does not pad. *)
Definition strftime_dmY_HM (t : datetime) : pystr :=
  let '(y, m, dd) := ord2ymd (date_of t) in
  pad2 dd ++ py "-" ++ pad2 m ++ py "-" ++ pad4 y ++ py " "
  ++ pad2 (hour_of t) ++ py ":" ++ pad2 (minute_of t).

(** main.py, [_deadline_datetime]. *)
Definition _deadline_datetime (reference : datetime) (hhmm : pystr)
  : Result datetime :=
  match split_colon hhmm with
  | [h; m] =>
    match int_of_str h, int_of_str m with
    | Some hv, Some mv =>
      match time_hm hv mv with
      | Ok deadline_time => Ok (combine (date_of reference) deadline_time)
      | Raise e => Raise e
      end
    | _, _ => Raise ValueError
    end
  | _ => Raise ValueError
  end.

(** The integer nearest to n / d, the even one of two that are as near, for
    a positive [d]. *)
Definition round_half_even (n d : Z) : Z :=
  let q := n / d in
  let r := n mod d in
  if 2 * r <? d then q
  else if d <? 2 * r then q + 1
  else if Z.even q then q else q + 1.

(** [delta.total_seconds()]: the microseconds divided by 10**6.  The true
    division of two ints gives the double nearest to the quotient, ties to
    even.  The double is the pair (m, e) that stands for m * 2^e, where e is
    the exponent of the quotient less 52, so that m has 53 bits. *)
Definition total_seconds (delta : timedelta) : Z * Z :=
  let n := Z.abs delta in
  let e := Z.log2 (n * 2 ^ 20 / US_PER_SECOND) - 20 - 52 in
  let m := if e <? 0 then round_half_even (n * 2 ^ (- e)) US_PER_SECOND
           else round_half_even n (US_PER_SECOND * 2 ^ e) in
  (Z.sgn delta * m, e).

(** [int(x // 60)] of a double: on the doubles a timedelta gives, which are
    below 2^47 in magnitude, the floor division of doubles is exact. *)
Definition floor_minutes (x : Z * Z) : Z :=
  let (m, e) := x in
  if e <? 0 then m / (60 * 2 ^ (- e)) else m * 2 ^ e / 60.

(** main.py, [humanize_delta].  The minutes are the floor of the double
    [delta.total_seconds()] divided by 60, not of the duration itself: from
    2^34 seconds on the double may be a whole minute where the duration is
    a microsecond short of it. *)
Definition humanize_delta (delta : timedelta) : pystr :=
  let minutes := floor_minutes (total_seconds delta) in
  if minutes <? 0 then
    let minutes := Z.abs minutes in
    py "просрочено на " ++ str_of_Z minutes ++ py " мин"
  else if minutes <? 60 then
    py "через " ++ str_of_Z minutes ++ py " мин"
  else
    let (hours, mins) := Z.div_eucl minutes 60 in
    py "через " ++ str_of_Z hours ++ py " ч " ++ str_of_Z mins ++ py " мин".

(** The rendering as the specification words it: the duration is brought to
    whole minutes by truncation toward zero, and the sign of the duration
    chooses the wording. *)
Definition humanize_delta_spec (delta : timedelta) : pystr :=
  let minutes := Z.quot delta US_PER_MINUTE in
  if delta <? 0 then
    py "просрочено на " ++ str_of_Z (Z.abs minutes) ++ py " мин"
  else if minutes <? 60 then
    py "через " ++ str_of_Z minutes ++ py " мин"
  else
    py "через " ++ str_of_Z (minutes / 60) ++ py " ч "
    ++ str_of_Z (minutes mod 60) ++ py " мин".

End Clock.
Export Clock.

(* ================================================================== *)
(** ** The record store ([db.py]) and the world the bot runs in *)

Module Db.

(** A row of [users]. *)
Record User : Type := {
  u_id : Z;
  u_telegram_id : Z;
  u_tg_username : option pystr;
  u_name : pystr
}.

(** A row of [processes]. *)
Record Process : Type := {
  p_id : Z;
  p_name : pystr;
  p_owner_name : pystr;
  p_periodicity : pystr;
  p_deadline_time : pystr;
  p_reminder_minutes_before_1 : option Z;
  p_reminder_minutes_before_2 : option Z
}.

(** A row of [reminder_logs]: the columns of its UNIQUE constraint. *)
Record LogRow : Type := {
  user_id : Z;
  process_id : Z;
  deadline_date : pystr;
  reminder_idx : Z
}.

Definition row_eqb (a b : LogRow) : bool :=
  (user_id a =? user_id b) && (process_id a =? process_id b)
  && str_eqb (deadline_date a) (deadline_date b)
  && (reminder_idx a =? reminder_idx b).

Record Store : Type := {
  users : list User;
  processes : list Process;
  reminder_logs : list LogRow
}.

Inductive LogMsg : Type :=
| FailedToSend        (* "Failed to send Telegram message" *)
| ReminderLoopError.  (* "Reminder loop error" *)

(** What the bot does to the outside, in the order it does it. *)
Inductive Event : Type :=
| EvRecord (row : LogRow) (inserted : bool)
    (* record_reminder_sent returned [inserted] for [row] *)
| EvPost (chat_id : Z) (text : pystr) (delivered : bool)
    (* the POST of sendMessage was issued and went through, or raised *)
| EvLog (msg : LogMsg) (e : Exn).
    (* logger.error *)

(** The store behind CONN, the events so far, and for each coming call on
    the store, and each coming POST, whether it fails ([true]); a schedule
    that has run out means no further failure. *)
Record World : Type := {
  store : Store;
  trace : list Event;
  store_faults : list bool;
  transport_faults : list bool
}.

End Db.
Export Db.

(* ================================================================== *)
(** ** The monad of effectful code *)

Module Monad.

Definition M (A : Type) : Type := World -> Result A * World.

Definition ret {A} (a : A) : M A := fun w => (Ok a, w).

Definition bind {A B} (m : M A) (f : A -> M B) : M B :=
  fun w =>
    match m w with
    | (Ok a, w1) => f a w1
    | (Raise e, w1) => (Raise e, w1)
    end.

Definition raise {A} (e : Exn) : M A := fun w => (Raise e, w).

(** [try: m / except Exception as exc: handler(exc)]. *)
Definition try_catch {A} (m : M A) (handler : Exn -> M A) : M A :=
  fun w =>
    match m w with
    | (Ok a, w1) => (Ok a, w1)
    | (Raise e, w1) => handler e w1
    end.

Definition lift {A} (r : Result A) : M A := fun w => (r, w).

Definition get_store : M Store := fun w => (Ok (store w), w).

Definition put_store (s : Store) : M unit :=
  fun w =>
    (Ok tt, {| store := s; trace := trace w;
               store_faults := store_faults w;
               transport_faults := transport_faults w |}).

Definition emit (e : Event) : M unit :=
  fun w =>
    (Ok tt, {| store := store w; trace := trace w ++ [e];
               store_faults := store_faults w;
               transport_faults := transport_faults w |}).

(** A call on the connection: it raises when the schedule says so. *)
Definition store_call : M unit :=
  fun w =>
    match store_faults w with
    | [] => (Ok tt, w)
    | fault :: rest =>
      let w1 := {| store := store w; trace := trace w;
                   store_faults := rest;
                   transport_faults := transport_faults w |} in
      if fault then (Raise StoreError, w1) else (Ok tt, w1)
    end.

(** The next entry of the transport schedule. *)
Definition transport_call : M bool :=
  fun w =>
    match transport_faults w with
    | [] => (Ok false, w)
    | fault :: rest =>
      (Ok fault, {| store := store w; trace := trace w;
                    store_faults := store_faults w;
                    transport_faults := rest |})
    end.

Notation "x <- m ;; k" := (bind m (fun x => k))
  (at level 61, m at next level, right associativity).
Notation "m ;;; k" := (bind m (fun _ => k))
  (at level 61, right associativity).

(** [for x in xs: body(x)]. *)
Fixpoint for_each {A} (xs : list A) (body : A -> M unit) : M unit :=
  match xs with
  | [] => ret tt
  | x :: rest => body x ;;; for_each rest body
  end.

End Monad.
Export Monad.

(* ================================================================== *)
(** ** db.py *)

Module DbOps.

(** ORDER BY id: insertion into a list sorted by [key], after equal keys. *)
Fixpoint insert_by {A} (key : A -> Z) (x : A) (l : list A) : list A :=
  match l with
  | [] => [x]
  | y :: r => if key x <? key y then x :: y :: r else y :: insert_by key x r
  end.

Fixpoint order_by {A} (key : A -> Z) (l : list A) : list A :=
  match l with
  | [] => []
  | x :: r => insert_by key x (order_by key r)
  end.

Definition get_user (telegram_id : Z) : M (option User) :=
  store_call ;;;
  s <- get_store ;;
  ret (find (fun u => u_telegram_id u =? telegram_id) (users s)).

Definition next_user_id (us : list User) : Z :=
  1 + fold_right (fun u acc => Z.max (u_id u) acc) 0 us.

(** INSERT ... ON CONFLICT(telegram_id) DO UPDATE SET name, tg_username. *)
Fixpoint upsert_user (us : list User) (fresh_id telegram_id : Z)
         (name : pystr) (username : option pystr) : list User :=
  match us with
  | [] => [{| u_id := fresh_id; u_telegram_id := telegram_id;
              u_tg_username := username; u_name := name |}]
  | u :: rest =>
    if u_telegram_id u =? telegram_id
    then {| u_id := u_id u; u_telegram_id := telegram_id;
            u_tg_username := username; u_name := name |} :: rest
    else u :: upsert_user rest fresh_id telegram_id name username
  end.

Definition register_user (telegram_id : Z) (name : pystr)
           (username : option pystr) : M unit :=
  store_call ;;;
  s <- get_store ;;
  put_store {| users := upsert_user (users s) (next_user_id (users s))
                                    telegram_id name username;
               processes := processes s;
               reminder_logs := reminder_logs s |}.

Definition get_processes_for_owner (owner_name : pystr) : M (list Process) :=
  store_call ;;;
  s <- get_store ;;
  ret (order_by p_id
         (filter (fun p => str_eqb (p_owner_name p) owner_name) (processes s))).

Definition get_all_users : M (list User) :=
  store_call ;;;
  s <- get_store ;;
  ret (order_by u_id (users s)).

(** INSERT ... ON CONFLICT(user_id, process_id, deadline_date, reminder_idx)
    DO NOTHING; the result is [cur.rowcount > 0].  The call has one point of
    failure, before anything is written.  A [commit] that raises after the
    INSERT went through is not modelled: it leaves the row in the
    transaction of the connection, where the next call finds it, and
    reports nothing. *)
Definition record_reminder_sent (user_id process_id : Z)
           (deadline_date : pystr) (reminder_idx : Z) : M bool :=
  let row := {| user_id := user_id; process_id := process_id;
                deadline_date := deadline_date;
                reminder_idx := reminder_idx |} in
  store_call ;;;
  s <- get_store ;;
  if existsb (row_eqb row) (reminder_logs s)
  then emit (EvRecord row false) ;;; ret false
  else
    put_store {| users := users s; processes := processes s;
                 reminder_logs := reminder_logs s ++ [row] |} ;;;
    emit (EvRecord row true) ;;;
    ret true.

End DbOps.
Export DbOps.

(* ================================================================== *)
(** ** [datetime.strptime(s, "%d-%m-%Y %H:%M")] *)

Module Strptime.

(** The library turns the format into the regular expression
    (3[0-1]|[1-2]\d|0[1-9]|[1-9]| [1-9])-(1[0-2]|0[1-9]|[1-9])-(\d\d\d\d)\s+
    (2[0-3]|[0-1]\d|\d):([0-5]\d|\d), matches it at the start of the string
    with backtracking, wants the match to reach the end of the string, and
    builds the date, which must exist.  The matchers below take the rest of
    the expression as the continuation [k] and try their alternatives in
    order. *)

Definition in_range (lo hi c : N) : bool := ((lo <=? c) && (c <=? hi))%N.
Definition is_char (x c : N) : bool := (c =? x)%N.

Definition orelse {A} (x y : option A) : option A :=
  match x with Some _ => x | None => y end.

Definition one {A} (p1 : N -> bool) (s : pystr)
           (k : pystr -> pystr -> option A) : option A :=
  match s with
  | c1 :: r => if p1 c1 then k [c1] r else None
  | _ => None
  end.

Definition two {A} (p1 p2 : N -> bool) (s : pystr)
           (k : pystr -> pystr -> option A) : option A :=
  match s with
  | c1 :: c2 :: r => if p1 c1 && p2 c2 then k [c1; c2] r else None
  | _ => None
  end.

Definition lit {A} (x : N) (s : pystr) (k : pystr -> option A) : option A :=
  match s with
  | c :: r => if (c =? x)%N then k r else None
  | [] => None
  end.

Definition re_d {A} (s : pystr) (k : pystr -> pystr -> option A) : option A :=
  orelse (two (is_char 51) (in_range 48 49) s k)
 (orelse (two (in_range 49 50) isdigit s k)
 (orelse (two (is_char 48) (in_range 49 57) s k)
 (orelse (one (in_range 49 57) s k)
         (two (is_char 32) (in_range 49 57) s k)))).

Definition re_m {A} (s : pystr) (k : pystr -> pystr -> option A) : option A :=
  orelse (two (is_char 49) (in_range 48 50) s k)
 (orelse (two (is_char 48) (in_range 49 57) s k)
         (one (in_range 49 57) s k)).

Definition re_Y {A} (s : pystr) (k : pystr -> pystr -> option A) : option A :=
  match s with
  | c1 :: c2 :: c3 :: c4 :: r =>
    if isdigit c1 && isdigit c2 && isdigit c3 && isdigit c4
    then k [c1; c2; c3; c4] r else None
  | _ => None
  end.

(** \s+, the longest run first. *)
Fixpoint re_spaces {A} (s : pystr) (k : pystr -> option A) : option A :=
  match s with
  | c :: r => if isspace c then orelse (re_spaces r k) (k r) else None
  | [] => None
  end.

Definition re_H {A} (s : pystr) (k : pystr -> pystr -> option A) : option A :=
  orelse (two (is_char 50) (in_range 48 51) s k)
 (orelse (two (in_range 48 49) isdigit s k)
         (one isdigit s k)).

Definition re_M {A} (s : pystr) (k : pystr -> pystr -> option A) : option A :=
  orelse (two (in_range 48 53) isdigit s k)
         (one isdigit s k).

(** The groups d, m, Y, H, M of the first match, and what is left. *)
Definition format_regex_match (s : pystr)
  : option (pystr * pystr * pystr * pystr * pystr * pystr) :=
  re_d s (fun d s1 =>
  lit 45 s1 (fun s2 =>
  re_m s2 (fun m s3 =>
  lit 45 s3 (fun s4 =>
  re_Y s4 (fun Y s5 =>
  re_spaces s5 (fun s6 =>
  re_H s6 (fun H s7 =>
  lit 58 s7 (fun s8 =>
  re_M s8 (fun M s9 => Some (d, m, Y, H, M, s9)))))))))).

(** [None] stands for ValueError. *)
Definition strptime_dmY_HM (s : pystr) : option datetime :=
  match format_regex_match s with
  | Some (d, m, Y, H, M, []) =>
    match int_of_str d, int_of_str m, int_of_str Y,
          int_of_str H, int_of_str M with
    | Some day, Some month, Some year, Some hour, Some minute =>
      if (1 <=? year) && (day <=? days_in_month year month)
      then Some (mk_datetime year month day hour minute)
      else None
    | _, _, _, _, _ => None
    end
  | _ => None
  end.

End Strptime.
Export Strptime.

(* ================================================================== *)
(** ** main.py *)

Module Bot.

Definition REMINDER_MINUTES : list Z := [120; 60].

(** The POST of sendMessage: it is issued, and raises when the transport
    fails. *)
Definition http_post (chat_id : Z) (text : pystr) : M unit :=
  fault <- transport_call ;;
  emit (EvPost chat_id text (negb fault)) ;;;
  if fault then raise TransportError else ret tt.

Definition send_message (chat_id : Z) (text : pystr) : M unit :=
  try_catch (http_post chat_id text)
            (fun exc => emit (EvLog FailedToSend exc)).

Definition parse_check_datetime (text : pystr) : option datetime :=
  match split_maxsplit1 (strip text) with
  | _ :: raw :: _ =>
    let normalized :=
      replace (replace (replace (replace raw (py ".") (py "-"))
                                (py "/") (py "-"))
                       (py ",") (py " "))
              (py "T") (py " ") in
    match split_ws normalized with
    | [date_str; time_str] =>
      strptime_dmY_HM (date_str ++ py " " ++ time_str)
    | _ => None
    end
  | _ => None
  end.

Definition format_process_list (owner_name : pystr) : M pystr :=
  processes <- get_processes_for_owner owner_name ;;
  match processes with
  | [] => ret (py "За вами пока не закреплены процессы.")
  | _ =>
    let reminders_text :=
      join (py ", ")
           (map (fun m => py "за " ++ str_of_Z m ++ py " мин")
                REMINDER_MINUTES) in
    let lines :=
      [py "Ваши процессы (" ++ owner_name ++ py "):";
       py "Напоминания: " ++ reminders_text]
      ++ map (fun p =>
                py "• " ++ p_name p ++ py " — " ++ p_periodicity p
                ++ py ", дедлайн " ++ p_deadline_time p ++ py ".")
             processes in
    ret (join (py "
") lines)
  end.

(** The line of [build_check_response] for one process. *)
Definition check_line (now : datetime) (p : Process) : Result pystr :=
  match _deadline_datetime now (p_deadline_time p) with
  | Raise e => Raise e
  | Ok deadline_dt =>
    let delta := deadline_dt - now in
    let status :=
      if 0 <=? delta then
        py "✅ успеваете, осталось "
        ++ replace (humanize_delta delta) (py "через ") (py "")
      else
        py "⚠️ дедлайн прошел, просрочено на " ++ humanize_delta delta in
    Ok (py "• " ++ p_name p ++ py " — дедлайн " ++ p_deadline_time p
        ++ py " — " ++ status)
  end.

Fixpoint check_lines (now : datetime) (ps : list Process)
  : Result (list pystr) :=
  match ps with
  | [] => Ok []
  | p :: rest =>
    match check_line now p with
    | Raise e => Raise e
    | Ok line =>
      match check_lines now rest with
      | Raise e => Raise e
      | Ok lines => Ok (line :: lines)
      end
    end
  end.

Definition build_check_response (now : datetime) (owner_name : pystr)
  : M pystr :=
  processes <- get_processes_for_owner owner_name ;;
  match processes with
  | [] => ret (py "Нет процессов для расчета.")
  | _ =>
    lines <- lift (check_lines now processes) ;;
    ret (join (py "
") ((py "Проверка на " ++ strftime_dmY_HM now ++ py ":") :: lines))
  end.

Definition build_help (is_registered : bool) : pystr :=
  let base :=
    [py "Команды:";
     py "/start — регистрация (введите имя, как в процессах).";
     py "/my — ваши процессы.";
     py "/check DD-MM-YYYY HH:MM — проверка дедлайнов и напоминаний."] in
  join (py "
") (if negb is_registered
      then base ++ [py "Сначала отправьте ваше имя для регистрации."]
      else base).

Definition ONBOARDING : pystr :=
  py "Привет! Напиши своё имя так, как оно указано в бизнес-процессах (например: Кирилл).".

Definition USAGE_HINT : pystr :=
  py "Используйте формат: /check 15-12-2025 09:00".

(** The update the handler reads: message["chat"]["id"], message["from"]
    with its id and optional username, and message.get("text", ""). *)
Record Message : Type := {
  chat_id : Z;
  from_id : Z;
  from_username : option pystr;
  msg_text : option pystr
}.

Definition is_empty (s : pystr) : bool :=
  match s with [] => true | _ => false end.

Definition handle_message (message : Message) : M unit :=
  let chat_id := chat_id message in
  let text := strip (match msg_text message with
                     | Some t => t | None => [] end) in
  let tg_id := from_id message in
  let tg_username := from_username message in
  registered <- get_user tg_id ;;
  if startswith text (py "/start") then
    send_message chat_id ONBOARDING
  else
    match registered with
    | None =>
      if negb (is_empty text) && negb (startswith text (py "/")) then
        register_user tg_id text tg_username ;;;
        send_message chat_id
          (py "Записал: " ++ text
           ++ py ". Теперь доступна команда /my и /check DD-MM-YYYY HH:MM")
      else
        send_message chat_id (build_help false)
    | Some user =>
      let owner_name := u_name user in
      if startswith text (py "/my") then
        reply <- format_process_list owner_name ;;
        send_message chat_id reply
      else if startswith text (py "/check") then
        match parse_check_datetime text with
        | None => send_message chat_id USAGE_HINT
        | Some check_dt =>
          reply <- build_check_response check_dt owner_name ;;
          send_message chat_id reply
        end
      else
        send_message chat_id (build_help true)
    end.

(** [enumerate(xs, start)]. *)
Fixpoint enumerate {A} (xs : list A) (start : Z) : list (Z * A) :=
  match xs with
  | [] => []
  | x :: rest => (start, x) :: enumerate rest (start + 1)
  end.

(** The body of the loop over the reminder slots. *)
Definition remind_slot (now : datetime) (user : User) (p : Process)
           (target_date : date) (deadline_dt : datetime)
           (slot : Z * Z) : M unit :=
  let (idx, minutes_before) := slot in
  let reminder_time := deadline_dt - timedelta_minutes minutes_before in
  if reminder_time <=? now then
    inserted <- record_reminder_sent (u_id user) (p_id p)
                                     (isoformat target_date) idx ;;
    if (inserted : bool) then
      let to_deadline := deadline_dt - now in
      let text :=
        py "Напоминание: " ++ p_name p ++ py " (дедлайн "
        ++ p_deadline_time p ++ py ", " ++ p_periodicity p
        ++ py "). Осталось " ++ humanize_delta to_deadline ++ py "." in
      send_message (u_telegram_id user) text
    else ret tt
  else ret tt.

(** The body of the loop over the processes of a user. *)
Definition remind_process (now : datetime) (user : User) (p : Process)
  : M unit :=
  let target_date := date_of now in
  deadline_dt <- lift (_deadline_datetime (combine target_date 0)
                                          (p_deadline_time p)) ;;
  if deadline_dt <=? now then ret tt
  else
    for_each (enumerate REMINDER_MINUTES 1)
             (remind_slot now user p target_date deadline_dt).

(** The body of the loop over the users. *)
Definition remind_user (now : datetime) (user : User) : M unit :=
  processes <- get_processes_for_owner (u_name user) ;;
  match processes with
  | [] => ret tt
  | _ => for_each processes (remind_process now user)
  end.

(** One turn of the [while True] of [reminders_loop], the clock reading
    [now]: the [try] block and its [except]. *)
Definition tick (now : datetime) : M unit :=
  try_catch
    (users <- get_all_users ;;
     for_each users (remind_user now))
    (fun exc => emit (EvLog ReminderLoopError exc)).

(** [reminders_loop], for the clock readings of its first turns. *)
Fixpoint reminders_loop (clock : list datetime) : M unit :=
  match clock with
  | [] => ret tt
  | now :: later => tick now ;;; reminders_loop later
  end.

End Bot.
Export Bot.

(* ================================================================== *)
(** ** Traces of the reminder engine *)

Module Traces.

Definition logs (w : World) : list LogRow := reminder_logs (store w).

(** The rows whose insertion an event reports. *)
Fixpoint new_records (t : list Event) : list LogRow :=
  match t with
  | [] => []
  | EvRecord row true :: r => row :: new_records r
  | _ :: r => new_records r
  end.

(** Every POST comes right after the report of a new row: [after_new] tells
    whether the event before [t] was such a report. *)
Fixpoint guarded (after_new : bool) (t : list Event) : bool :=
  match t with
  | [] => true
  | EvRecord _ b :: r => guarded b r
  | EvPost _ _ _ :: r => after_new && guarded false r
  | EvLog _ _ :: r => guarded false r
  end.

(** The rows whose reminder was handed to the transport: a POST belongs to
    the row reported as new by the event right before it ([pending]). *)
Fixpoint dispatched_from (pending : option LogRow) (t : list Event)
  : list LogRow :=
  match t with
  | [] => []
  | EvRecord row b :: r => dispatched_from (if b then Some row else None) r
  | EvPost _ _ _ :: r =>
    match pending with
    | Some row => row :: dispatched_from None r
    | None => dispatched_from None r
    end
  | EvLog _ _ :: r => dispatched_from None r
  end.

Definition dispatched (t : list Event) : list LogRow := dispatched_from None t.

Fixpoint posts (t : list Event) : nat :=
  match t with
  | [] => O
  | EvPost _ _ _ :: r => S (posts r)
  | _ :: r => posts r
  end.

(** The events a run added to the trace. *)
Definition new_events (w w' : World) : list Event :=
  skipn (List.length (trace w)) (trace w').

End Traces.
Export Traces.

(* ================================================================== *)
(** ** Words: strings without blanks, and without the delimiters that
       [parse_check_datetime] rewrites *)

Module Words.

Definition word (w : pystr) : bool :=
  forallb (fun c => negb (isspace c)) w.

Definition plain_char (c : N) : bool :=
  (negb (isspace c) && negb (c =? 46) && negb (c =? 47)
   && negb (c =? 44) && negb (c =? 84))%N.

Definition plain (w : pystr) : bool := forallb plain_char w.

(** [s.replace(a, b)] for single characters [a] and [b]. *)
Definition replace_char (a b : N) (s : pystr) : pystr :=
  map (fun c => if (c =? a)%N then b else c) s.

(** What the four replacements of [parse_check_datetime] make of a
    character: '.' and '/' become '-', ',' and 'T' become a blank. *)
Definition normalize_char (s : N) : N :=
  if ((s =? 46) || (s =? 47))%N then 45%N
  else if ((s =? 44) || (s =? 84))%N then 32%N
  else s.

End Words.
Export Words.

(* ================================================================== *)
(** ** Finite ranges of integers, to check a fact on each of them *)

Module Ranges.

(** The [n] integers from [lo] on. *)
Definition zrange (lo : Z) (n : nat) : list Z :=
  map (fun i => lo + Z.of_nat i) (seq 0 n).

End Ranges.
Export Ranges.

(* ================================================================== *)
(** ** What one call of [send_message] adds to the trace *)

Module SendEvents.

(** The next entry of the transport schedule: does the coming POST fail? *)
Definition next_transport_fault (w : World) : bool :=
  match transport_faults w with
  | [] => false
  | fault :: _ => fault
  end.

(** The next entry of the store schedule: does the coming call fail? *)
Definition next_store_fault (w : World) : bool :=
  match store_faults w with
  | [] => false
  | fault :: _ => fault
  end.

Definition send_events (chat_id : Z) (text : pystr) (fault : bool)
  : list Event :=
  EvPost chat_id text (negb fault)
  :: (if fault then [EvLog FailedToSend TransportError] else []).

End SendEvents.
Export SendEvents.

(* ================================================================== *)
(** ** What a run of the reminder engine may add to the trace *)

Module EngineRuns.

Section Run.

Variable us : list User.        (* the rows of users *)
Variable ps : list Process.     (* the rows of processes *)
Variable clock : list datetime. (* the clock readings of the turns *)

(** The reason the engine has to record [row]: at the reading [now] the
    slot [reminder_idx row] of the process [p] of [user] is due. *)
Record due (row : LogRow) (now : datetime) (user : User) (p : Process)
       (deadline_dt : datetime) (minutes_before : Z) : Prop := {
  due_now : In now clock;
  due_user : In user us;
  due_process : In p ps;
  due_owner : p_owner_name p = u_name user;
  due_user_id : user_id row = u_id user;
  due_process_id : process_id row = p_id p;
  due_date : deadline_date row = isoformat (date_of now);
  due_deadline :
    _deadline_datetime (combine (date_of now) 0) (p_deadline_time p)
    = Ok deadline_dt;
  due_pending : now < deadline_dt;
  due_idx : 1 <= reminder_idx row;
  due_slot :
    nth_error REMINDER_MINUTES (Z.to_nat (reminder_idx row - 1))
    = Some minutes_before;
  due_reached : deadline_dt - timedelta_minutes minutes_before <= now
}.

Definition justified (row : LogRow) : Prop :=
  exists now user p deadline_dt minutes_before,
    due row now user p deadline_dt minutes_before.

(** [engine_run l t l']: from the log [l] the engine may add the events
    [t] to the trace, and leaves the log [l']. *)
Inductive engine_run : list LogRow -> list Event -> list LogRow -> Prop :=
| run_nothing l :
    engine_run l [] l
| run_known l row :
    In row l -> justified row ->
    engine_run l [EvRecord row false] l
| run_sent l row chat_id text :
    ~ In row l -> justified row ->
    engine_run l [EvRecord row true; EvPost chat_id text true] (l ++ [row])
| run_send_failed l row chat_id text e :
    ~ In row l -> justified row ->
    engine_run l [EvRecord row true; EvPost chat_id text false;
                  EvLog FailedToSend e] (l ++ [row])
| run_error l e :
    engine_run l [EvLog ReminderLoopError e] l
| run_then l0 t1 l1 t2 l2 :
    engine_run l0 t1 l1 -> engine_run l1 t2 l2 ->
    engine_run l0 (t1 ++ t2) l2.

End Run.

End EngineRuns.
Export EngineRuns.

(* ================================================================== *)
(** ** The worlds of the scenarios *)

Module Scenarios.

Definition world_of (s : Store) : World :=
  {| store := s; trace := []; store_faults := []; transport_faults := [] |}.

Definition kirill : User :=
  {| u_id := 1; u_telegram_id := 1001; u_tg_username := None;
     u_name := py "Кирилл" |}.

Definition ivan : User :=
  {| u_id := 2; u_telegram_id := 1002; u_tg_username := Some (py "ivan");
     u_name := py "Иван" |}.

(** The first and the third entry of DEFAULT_PROCESSES, as seeded. *)
Definition fill_table : Process :=
  {| p_id := 1; p_name := py "Заполнить таблицу показателей";
     p_owner_name := py "Кирилл";
     p_periodicity := py "ежедневно (конец дня)";
     p_deadline_time := py "23:59";
     p_reminder_minutes_before_1 := Some (24 * 60);
     p_reminder_minutes_before_2 := Some (2 * 60) |}.

Definition fill_kops : Process :=
  {| p_id := 3; p_name := py "Заполнить КОПы";
     p_owner_name := py "Иван";
     p_periodicity := py "ежедневно до 10:30";
     p_deadline_time := py "10:30";
     p_reminder_minutes_before_1 := Some (12 * 60);
     p_reminder_minutes_before_2 := Some (2 * 60) |}.

(** A process whose deadline is not a time of day. *)
Definition broken_process : Process :=
  {| p_id := 2; p_name := py "Сверка";
     p_owner_name := py "Кирилл";
     p_periodicity := py "ежедневно";
     p_deadline_time := py "вечером";
     p_reminder_minutes_before_1 := None;
     p_reminder_minutes_before_2 := None |}.

(** Scenario A: deadline 23:59, ticks at 21:59, 22:00 and 22:59. *)
Definition scenario_A_world : World :=
  world_of {| users := [kirill]; processes := [fill_table];
              reminder_logs := [] |}.

Definition scenario_A_clock : list datetime :=
  [mk_datetime 2025 12 15 21 59;
   mk_datetime 2025 12 15 22 0;
   mk_datetime 2025 12 15 22 59].

Definition scenario_A_row (idx : Z) : LogRow :=
  {| user_id := 1; process_id := 1; deadline_date := py "2025-12-15";
     reminder_idx := idx |}.

(** An event without the text of the message. *)
Inductive Summary : Type :=
| Recorded (row : LogRow) (inserted : bool)
| Posted (chat_id : Z)
| Logged (msg : LogMsg) (e : Exn).

Definition summary (e : Event) : Summary :=
  match e with
  | EvRecord row b => Recorded row b
  | EvPost c _ _ => Posted c
  | EvLog m e => Logged m e
  end.

(** Two users; the second process of the first has a broken deadline. *)
Definition healthy_world : World :=
  world_of {| users := [kirill; ivan]; processes := [fill_table; fill_kops];
              reminder_logs := [] |}.

Definition broken_world : World :=
  world_of {| users := [kirill; ivan];
              processes := [fill_table; broken_process; fill_kops];
              reminder_logs := [] |}.



Definition ivan_row (idx : Z) : LogRow :=
  {| user_id := 2; process_id := 3; deadline_date := py "2025-12-15";
     reminder_idx := idx |}.

(** [fill_kops] with other lead times stored. *)
Definition fill_kops_short_notice : Process :=
  {| p_id := 3; p_name := py "Заполнить КОПы";
     p_owner_name := py "Иван";
     p_periodicity := py "ежедневно до 10:30";
     p_deadline_time := py "10:30";
     p_reminder_minutes_before_1 := Some 30;
     p_reminder_minutes_before_2 := Some 10 |}.

Definition ivan_world (p : Process) : World :=
  world_of {| users := [ivan]; processes := [p]; reminder_logs := [] |}.

End Scenarios.
Export Scenarios.

(* ================================================================== *)
(** ** Replies of the chat handler *)

Module Replies.

Definition text_of (message : Message) : pystr :=
  strip (match msg_text message with Some t => t | None => [] end).

Definition registered_as (w : World) (message : Message) : option User :=
  find (fun u => u_telegram_id u =? from_id message) (users (store w)).

(** A reply: the handler sends one message and returns. *)
Definition replies (message : Message) (w : World) (text : pystr) : Prop :=
  exists w',
    handle_message message w = (Ok tt, w')
    /\ store w' = store w
    /\ new_events w w'
       = send_events (chat_id message) text (next_transport_fault w).

Definition registered_world : World :=
  world_of {| users := [kirill]; processes := [fill_table];
              reminder_logs := [] |}.

Definition text_from (telegram_id : Z) (text : string) : Message :=
  {| chat_id := telegram_id; from_id := telegram_id;
     from_username := None; msg_text := Some (py text) |}.

End Replies.
Export Replies.

(* ================================================================== *)
(** ** Two runs side by side *)

Module Related.

(** [m1] and [m2], started in worlds related by [R], end the same way (both
    return, with values related by [Q], or both raise the same exception) in
    worlds related by [R]. *)
Definition related (R : World -> World -> Prop) {A B : Type}
           (Q : A -> B -> Prop) (m1 : M A) (m2 : M B) : Prop :=
  forall w1 w2, R w1 w2 ->
    match m1 w1, m2 w2 with
    | (Ok a, w1'), (Ok b, w2') => Q a b /\ R w1' w2'
    | (Raise e1, w1'), (Raise e2, w2') => e1 = e2 /\ R w1' w2'
    | _, _ => False
    end.



(** Processes that differ in their stored lead times only. *)
Definition same_process (p q : Process) : Prop :=
  p_id p = p_id q /\ p_name p = p_name q
  /\ p_owner_name p = p_owner_name q
  /\ p_periodicity p = p_periodicity q
  /\ p_deadline_time p = p_deadline_time q.

(** Worlds that differ in the stored lead times of their processes only. *)
Definition same_but_lead_times (w1 w2 : World) : Prop :=
  users (store w1) = users (store w2)
  /\ Forall2 same_process (processes (store w1)) (processes (store w2))
  /\ logs w1 = logs w2
  /\ trace w1 = trace w2
  /\ store_faults w1 = store_faults w2
  /\ transport_faults w1 = transport_faults w2.

(** The lead times stored with a process. *)
Definition own_lead_times (p : Process) : list Z :=
  (match p_reminder_minutes_before_1 p with Some m => [m] | None => [] end)
  ++ (match p_reminder_minutes_before_2 p with Some m => [m] | None => [] end).

End Related.
Export Related.

(* ================================================================== *)
(** ** db.py: the rest of the module *)

Module DbMore.

(** SELECT 1 FROM reminder_logs WHERE user_id = ? AND process_id = ? AND
    deadline_date = ? LIMIT 1, and [fetchone() is not None]. *)
Definition any_reminder_sent (user_id process_id : Z)
           (deadline_date : pystr) : M bool :=
  store_call ;;;
  s <- get_store ;;
  ret (existsb (fun row =>
                  (Db.user_id row =? user_id)
                  && (Db.process_id row =? process_id)
                  && str_eqb (Db.deadline_date row) deadline_date)
               (reminder_logs s)).

(** An entry of DEFAULT_PROCESSES; its "reminders" is a pair. *)
Record SeedItem : Type := {
  seed_name : pystr;
  seed_owner_name : pystr;
  seed_periodicity : pystr;
  seed_deadline_time : pystr;
  seed_reminders : Z * Z
}.

Definition DEFAULT_PROCESSES : list SeedItem :=
  [ {| seed_name := py "Заполнить таблицу показателей";
       seed_owner_name := py "Кирилл";
       seed_periodicity := py "ежедневно (конец дня)";
       seed_deadline_time := py "23:59";
       seed_reminders := (24 * 60, 2 * 60) |};
    {| seed_name := py "Посмотреть просмотры конкурентов";
       seed_owner_name := py "Кирилл";
       seed_periodicity := py "ежедневно (конец дня)";
       seed_deadline_time := py "23:59";
       seed_reminders := (24 * 60, 2 * 60) |};
    {| seed_name := py "Заполнить КОПы";
       seed_owner_name := py "Иван";
       seed_periodicity := py "ежедневно до 10:30";
       seed_deadline_time := py "10:30";
       seed_reminders := (12 * 60, 2 * 60) |};
    {| seed_name := py "Проверить рекламные кампании";
       seed_owner_name := py "Иван";
       seed_periodicity := py "ежедневно до 12:00";
       seed_deadline_time := py "12:00";
       seed_reminders := (12 * 60, 2 * 60) |} ].

(** The id AUTOINCREMENT gives the next row of [processes]. *)
Definition next_process_id (ps : list Process) : Z :=
  1 + fold_right (fun p acc => Z.max (p_id p) acc) 0 ps.

(** The row of [processes] the seeding inserts for an item: a pair is never
    empty, so both lead times are stored. *)
Definition seed_row (id : Z) (item : SeedItem) : Process :=
  {| p_id := id; p_name := seed_name item;
     p_owner_name := seed_owner_name item;
     p_periodicity := seed_periodicity item;
     p_deadline_time := seed_deadline_time item;
     p_reminder_minutes_before_1 := Some (fst (seed_reminders item));
     p_reminder_minutes_before_2 := Some (snd (seed_reminders item)) |}.

(** executemany of the INSERT over the items, in order. *)
Fixpoint insert_rows {I} (row : Z -> I -> Process) (ps : list Process)
         (items : list I) : list Process :=
  match items with
  | [] => ps
  | item :: rest =>
    insert_rows row (ps ++ [row (next_process_id ps) item]) rest
  end.

Definition seed_default_processes : M unit :=
  store_call ;;;
  s <- get_store ;;
  let count := Z.of_nat (List.length (processes s)) in
  if negb (count =? 0) then ret tt
  else
    put_store {| users := users s;
                 processes := insert_rows seed_row (processes s)
                                          DEFAULT_PROCESSES;
                 reminder_logs := reminder_logs s |}.

(** An item handed to [upsert_processes]: the key "reminders" may be
    missing; when present it is a pair of optional lead times. *)
Record ImportItem : Type := {
  imp_name : pystr;
  imp_owner_name : pystr;
  imp_periodicity : pystr;
  imp_deadline_time : pystr;
  imp_reminders : option (option Z * option Z)
}.

Definition import_row (id : Z) (item : ImportItem) : Process :=
  let reminders := match imp_reminders item with
                   | Some both => both
                   | None => (None, None)
                   end in
  {| p_id := id; p_name := imp_name item;
     p_owner_name := imp_owner_name item;
     p_periodicity := imp_periodicity item;
     p_deadline_time := imp_deadline_time item;
     p_reminder_minutes_before_1 := fst reminders;
     p_reminder_minutes_before_2 := snd reminders |}.

Definition upsert_processes (items : list ImportItem) : M unit :=
  store_call ;;;
  s <- get_store ;;
  put_store {| users := users s;
               processes := insert_rows import_row (processes s) items;
               reminder_logs := reminder_logs s |}.

End DbMore.
Export DbMore.

(* ================================================================== *)
(** ** main.py: one turn of [polling_loop] *)

Module Polling.

(** An update of getUpdates: its id, and the message or edited message it
    carries, if any. *)
Record Update : Type := {
  update_id : Z;
  upd_message : option Message;
  upd_edited_message : option Message
}.

(** [update.get("message") or update.get("edited_message")]. *)
Definition message_of (u : Update) : option Message :=
  match upd_message u with
  | Some m => Some m
  | None => upd_edited_message u
  end.

(** The loop over the updates of one reply.  The variable [offset] is
    assigned before the update is handled and keeps its value when the
    handler raises, so it is returned beside the result. *)
Fixpoint handle_updates (offset : option Z) (updates : list Update)
         (w : World) : (option Z * Result unit) * World :=
  match updates with
  | [] => ((offset, Ok tt), w)
  | update :: rest =>
    let offset := Some (update_id update + 1) in
    match message_of update with
    | None => handle_updates offset rest w
    | Some message =>
      match handle_message message w with
      | (Ok _, w1) => handle_updates offset rest w1
      | (Raise e, w1) => ((offset, Raise e), w1)
      end
    end
  end.

(** What getUpdates gave: the request or the decoding raised, or a reply
    with its fields "ok" and "result". *)
Inductive Polled : Type :=
| PollRaised (e : Exn)
| PollReplied (ok : bool) (result : list Update).

(** How the turn ended: the updates were handled, or one of the two
    [logger.error] lines was written. *)
Inductive PollOutcome : Type :=
| Handled
| GetUpdatesError
| PollingError (e : Exn).

(** One turn of the [while True] of [polling_loop]. *)
Definition poll_once (offset : option Z) (polled : Polled) (w : World)
  : (option Z * PollOutcome) * World :=
  match polled with
  | PollRaised e => ((offset, PollingError e), w)
  | PollReplied false _ => ((offset, GetUpdatesError), w)
  | PollReplied true result =>
    match handle_updates offset result w with
    | ((offset', Ok _), w') => ((offset', Handled), w')
    | ((offset', Raise e), w') => ((offset', PollingError e), w')
    end
  end.

(** The updates of a batch that were looked at: all of them, or those up to
    the first whose handler raised. *)
Fixpoint looked_at (updates : list Update) (w : World) : list Update :=
  match updates with
  | [] => []
  | update :: rest =>
    match message_of update with
    | None => update :: looked_at rest w
    | Some message =>
      match handle_message message w with
      | (Ok _, w1) => update :: looked_at rest w1
      | (Raise _, _) => [update]
      end
    end
  end.

End Polling.
Export Polling.

(* ================================================================== *)
(** ** export_to_sheets.py: the rows written to the worksheet *)

Module Sheets.

(** The order of two TEXT values under SQLite's BINARY collation, which
    compares the UTF-8 bytes; on well-formed text that is the order of the
    code points, a proper prefix first. *)
Fixpoint str_ltb (a b : pystr) : bool :=
  match a, b with
  | _, [] => false
  | [], _ :: _ => true
  | x :: a', y :: b' => (x <? y)%N || ((x =? y)%N && str_ltb a' b')
  end.

(** ORDER BY owner_name, id. *)
Definition process_ltb (p q : Process) : bool :=
  str_ltb (p_owner_name p) (p_owner_name q)
  || (str_eqb (p_owner_name p) (p_owner_name q) && (p_id p <? p_id q)).

Fixpoint insert_process (p : Process) (l : list Process) : list Process :=
  match l with
  | [] => [p]
  | q :: r => if process_ltb p q then p :: q :: r
              else q :: insert_process p r
  end.

Fixpoint order_by_owner_id (l : list Process) : list Process :=
  match l with
  | [] => []
  | p :: r => insert_process p (order_by_owner_id r)
  end.

Definition get_all_processes : M (list Process) :=
  store_call ;;;
  s <- get_store ;;
  ret (order_by_owner_id (processes s)).

(** [str(x or s)] with [s] the empty string: NULL and 0 are both falsy. *)
Definition cell (x : option Z) : pystr :=
  match x with
  | None => []
  | Some n => if n =? 0 then [] else str_of_Z n
  end.

Definition HEADER : list pystr :=
  [ py "Название"; py "Ответственный"; py "Периодичность"; py "Дедлайн";
    py "Напоминание 1 (мин)"; py "Напоминание 2 (мин)" ].

Definition sheet_row (p : Process) : list pystr :=
  [ p_name p; p_owner_name p; p_periodicity p; p_deadline_time p;
    cell (p_reminder_minutes_before_1 p);
    cell (p_reminder_minutes_before_2 p) ].

(** The rows [export] hands to [ws.update], once the two settings are
    there: the header, then a row for each process read. *)
Definition export_rows : M (list (list pystr)) :=
  processes <- get_all_processes ;;
  ret (HEADER :: map sheet_row processes).

(** The order of ORDER BY owner_name, id, as a relation. *)
Definition owner_then_id (p q : Process) : Prop :=
  str_ltb (p_owner_name p) (p_owner_name q) = true
  \/ (p_owner_name p = p_owner_name q /\ p_id p <= p_id q).

(** [int(s)] of the text of an integer, through the decimal numbers of the
    library. *)
Definition Z_of_str (s : pystr) : option Z :=
  option_map Z.of_int
    (NilZero.int_of_string (string_of_list_ascii (map ascii_of_N s))).

(** A lead time as the sheet can show it: 0 is shown as no lead time. *)
Definition shown (x : option Z) : option Z :=
  match x with
  | Some 0 => None
  | _ => x
  end.

End Sheets.
Export Sheets.

(* ================================================================== *)
(** ** Well-formed tables *)

Module Tables.

(** The keys of [users]: id is the primary key, telegram_id is UNIQUE. *)
Definition users_wf (us : list User) : Prop :=
  NoDup (map u_id us) /\ NoDup (map u_telegram_id us).

(** The row of a sender in a table of users. *)
Definition lookup_user (telegram_id : Z) (us : list User) : option User :=
  find (fun u => u_telegram_id u =? telegram_id) us.

(** The text the handler confirms a registration with. *)
Definition REGISTERED_REPLY (name : pystr) : pystr :=
  py "Записал: " ++ name
  ++ py ". Теперь доступна команда /my и /check DD-MM-YYYY HH:MM".

(** The largest id of a table of processes (0 for an empty table). *)
Definition max_process_id (ps : list Process) : Z :=
  fold_right (fun p acc => Z.max (p_id p) acc) 0 ps.

(** The value of [offset] after the updates [seen] were looked at. *)
Fixpoint offset_after (offset : option Z) (seen : list Update) : option Z :=
  match seen with
  | [] => offset
  | update :: rest => offset_after (Some (update_id update + 1)) rest
  end.

(** The text of a reminder, as [reminders_loop] builds it. *)
Definition reminder_text (p : Process) (to_deadline : timedelta) : pystr :=
  py "Напоминание: " ++ p_name p ++ py " (дедлайн "
  ++ p_deadline_time p ++ py ", " ++ p_periodicity p
  ++ py "). Осталось " ++ humanize_delta to_deadline ++ py ".".



(** The row of the log for a slot of a process of a user on a date. *)
Definition slot_row (user : User) (p : Process) (target_date : date)
           (idx : Z) : LogRow :=
  {| user_id := u_id user; process_id := p_id p;
     deadline_date := isoformat target_date; reminder_idx := idx |}.

End Tables.
Export Tables.

(* ================================================================== *)
(** ** Effects of a computation, as a relation between worlds *)

Module Keeps.

(** From every world that satisfies [P], [m] ends, whatever its result, in
    a world that satisfies [P] and is related to the first by [F]. *)
Definition keeps (P : World -> Prop) (F : World -> World -> Prop)
           {A : Type} (m : M A) : Prop :=
  forall w, P w -> P (snd (m w)) /\ F w (snd (m w)).

(** What the handler may do for the sender [tg]: the processes and the log
    stay as they are, the keys of [users] stay unique, and the rows of the
    other senders stay as they are. *)
Definition sender_frame (tg : Z) (w w' : World) : Prop :=
  processes (store w') = processes (store w)
  /\ reminder_logs (store w') = reminder_logs (store w)
  /\ (users_wf (users (store w)) -> users_wf (users (store w')))
  /\ (forall tg', tg' <> tg ->
        lookup_user tg' (users (store w'))
        = lookup_user tg' (users (store w))).

End Keeps.
Export Keeps.

(* ================================================================== *)
(** ** Rendering of durations *)

Module HumanizeFacts.

Lemma minutes_floor_bounds (delta : timedelta) :
  (delta / US_PER_MINUTE) * US_PER_MINUTE <= delta
  < (delta / US_PER_MINUTE + 1) * US_PER_MINUTE.
Proof.
  unfold US_PER_MINUTE, US_PER_SECOND.
  pose proof (Z.div_mod delta (60 * 1000000) ltac:(lia)) as E.
  pose proof (Z.mod_pos_bound delta (60 * 1000000) ltac:(lia)) as B.
  lia.
Qed.

Lemma floor_is_quot_nonneg (delta : timedelta) :
  0 <= delta -> delta / US_PER_MINUTE = Z.quot delta US_PER_MINUTE.
Proof.
  intros H. symmetry. apply Z.quot_div_nonneg; [assumption|].
  unfold US_PER_MINUTE, US_PER_SECOND. lia.
Qed.

(** [round_half_even n d] is within a half of n / d. *)
Lemma round_half_even_near (n d : Z) :
  0 < d ->
  - d <= 2 * (round_half_even n d * d - n) <= d.
Proof.
  intros Hd. unfold round_half_even.
  pose proof (Z.div_mod n d ltac:(lia)) as E.
  pose proof (Z.mod_pos_bound n d Hd) as B.
  set (q := n / d) in *. set (r := n mod d) in *.
  destruct (Z.ltb_spec (2 * r) d); [nia|].
  destruct (Z.ltb_spec d (2 * r)); [nia|].
  destruct (Z.even q); nia.
Qed.

Lemma round_half_even_nonneg (n d : Z) :
  0 <= n -> 0 < d -> 0 <= round_half_even n d.
Proof.
  intros Hn Hd. unfold round_half_even.
  pose proof (Z.div_pos n d Hn Hd).
  destruct (2 * (n mod d) <? d); [assumption|].
  destruct (d <? 2 * (n mod d)); [lia|].
  destruct (Z.even (n / d)); lia.
Qed.

(** Below 2^34 seconds the double has at least 19 bits after the point. *)
Lemma total_seconds_exponent (delta : timedelta) :
  Z.abs delta < 2 ^ 34 * US_PER_SECOND ->
  snd (total_seconds delta) <= - 19.
Proof.
  intros H. unfold total_seconds. cbn [snd].
  set (x := Z.abs delta * 2 ^ 20 / US_PER_SECOND).
  assert (Hx : x < 2 ^ 54).
  { unfold x. apply Z.div_lt_upper_bound; [reflexivity|].
    unfold US_PER_SECOND in *. lia. }
  assert (Z.log2 x < 54); [|lia].
  destruct (Z.le_gt_cases x 0) as [Hle | Hgt].
  - rewrite (Z.log2_nonpos x Hle). lia.
  - apply Z.log2_lt_pow2; assumption.
Qed.

(** Below 2^34 seconds the floor of the double is the floor of the
    duration. *)
Lemma floor_minutes_exact (delta : timedelta) :
  Z.abs delta < 2 ^ 34 * US_PER_SECOND ->
  floor_minutes (total_seconds delta) = delta / US_PER_MINUTE.
Proof.
  intros H. pose proof (total_seconds_exponent delta H) as He.
  unfold total_seconds in *. cbn [snd] in He.
  set (e := Z.log2 (Z.abs delta * 2 ^ 20 / US_PER_SECOND) - 20 - 52) in *.
  unfold floor_minutes.
  destruct (Z.ltb_spec e 0) as [_ | Hge]; [|lia].
  set (P := 2 ^ (- e)).
  assert (HP : 524288 <= P).
  { unfold P. change 524288 with (2 ^ 19).
    apply Z.pow_le_mono_r; lia. }
  pose proof (round_half_even_near (Z.abs delta * P) US_PER_SECOND
                                   ltac:(reflexivity)) as Near.
  set (m := round_half_even (Z.abs delta * P) US_PER_SECOND) in *.
  pose proof (minutes_floor_bounds delta) as B.
  set (q := delta / US_PER_MINUTE) in *.
  unfold US_PER_MINUTE, US_PER_SECOND in *.
  symmetry. apply (Z.div_unique _ _ q (Z.sgn delta * m - 60 * P * q)); [|ring].
  left.
  destruct (Z.lt_trichotomy delta 0) as [Hneg | [-> | Hpos]].
  - rewrite (Z.sgn_neg delta Hneg).
    rewrite (Z.abs_neq delta) in Near by lia.
    assert (U : - delta * P <= - (60 * 1000000 * (q * P))) by nia.
    assert (L : - (60 * 1000000 * (q * P)) - 60 * 1000000 * P + P
                <= - delta * P) by nia.
    set (T := q * P) in *. set (N := - delta * P) in *.
    replace (60 * P * q) with (60 * T) by (unfold T; ring).
    lia.
  - assert (q = 0) by (unfold q; reflexivity).
    assert (m = 0) by (unfold m; reflexivity).
    subst. cbn. lia.
  - rewrite (Z.sgn_pos delta Hpos).
    rewrite (Z.abs_eq delta) in Near by lia.
    assert (L : 60 * 1000000 * (q * P) <= delta * P) by nia.
    assert (U : delta * P
                <= 60 * 1000000 * (q * P) + 60 * 1000000 * P - P) by nia.
    set (T := q * P) in *. set (N := delta * P) in *.
    replace (60 * P * q) with (60 * T) by (unfold T; ring).
    lia.
Qed.

(** A duration that is not negative is never rendered with negative
    minutes. *)
Lemma floor_minutes_nonneg (delta : timedelta) :
  0 <= delta -> 0 <= floor_minutes (total_seconds delta).
Proof.
  intros H. unfold total_seconds, floor_minutes.
  set (e := Z.log2 (Z.abs delta * 2 ^ 20 / US_PER_SECOND) - 20 - 52).
  assert (Hs : 0 <= Z.sgn delta) by (apply Z.sgn_nonneg; assumption).
  assert (Hn : 0 <= Z.abs delta) by apply Z.abs_nonneg.
  destruct (Z.ltb_spec e 0) as [Hlt | Hge].
  - apply Z.div_pos.
    + apply Z.mul_nonneg_nonneg; [assumption|].
      apply round_half_even_nonneg; [|reflexivity].
      apply Z.mul_nonneg_nonneg; [assumption|].
      apply Z.pow_nonneg. lia.
    + assert (0 < 2 ^ (- e)) by (apply Z.pow_pos_nonneg; lia). lia.
  - apply Z.div_pos; [|lia].
    apply Z.mul_nonneg_nonneg; [|apply Z.pow_nonneg; lia].
    apply Z.mul_nonneg_nonneg; [assumption|].
    apply round_half_even_nonneg; [assumption|].
    assert (0 < 2 ^ e) by (apply Z.pow_pos_nonneg; lia).
    unfold US_PER_SECOND. lia.
Qed.

(** C6 (as amended): for a duration below 2^34 seconds in magnitude, the
    duration is brought to whole minutes by the floor, not by truncation
    toward zero.  A negative duration is rendered "просрочено на N мин"
    where N is the absolute value of that floor, that is the number of
    minutes begun; a duration from 0 up to 60 minutes is rendered
    "через N мин"; a duration of 60 minutes or more is rendered
    "через H ч M мин" with H the quotient and M the remainder of the minutes
    by 60.  For durations that are not negative the floor is the truncation
    toward zero. *)
Theorem humanize_delta_policy (delta : timedelta) :
  Z.abs delta < 2 ^ 34 * US_PER_SECOND ->
  let minutes := delta / US_PER_MINUTE in
  (delta < 0 ->
     humanize_delta delta
     = py "просрочено на " ++ str_of_Z (Z.abs minutes) ++ py " мин"
     /\ (Z.abs minutes - 1) * US_PER_MINUTE < - delta
        <= Z.abs minutes * US_PER_MINUTE)
  /\ (0 <= delta < 60 * US_PER_MINUTE ->
     humanize_delta delta = py "через " ++ str_of_Z minutes ++ py " мин"
     /\ minutes = Z.quot delta US_PER_MINUTE)
  /\ (60 * US_PER_MINUTE <= delta ->
     humanize_delta delta
     = py "через " ++ str_of_Z (minutes / 60) ++ py " ч "
       ++ str_of_Z (minutes mod 60) ++ py " мин"
     /\ minutes = Z.quot delta US_PER_MINUTE).
Proof.
  intros Hbound minutes.
  pose proof (minutes_floor_bounds delta) as B. fold minutes in B.
  pose proof (floor_minutes_exact delta Hbound) as F. fold minutes in F.
  assert (U : 0 < US_PER_MINUTE) by (unfold US_PER_MINUTE, US_PER_SECOND; lia).
  split; [|split].
  - intros Hneg. assert (minutes < 0) by nia. split; [|lia].
    unfold humanize_delta. rewrite F.
    destruct (Z.ltb_spec minutes 0); [reflexivity | lia].
  - intros [H0 H1]. assert (0 <= minutes < 60) by nia.
    split; [|apply floor_is_quot_nonneg; lia].
    unfold humanize_delta. rewrite F.
    destruct (Z.ltb_spec minutes 0); [lia|].
    destruct (Z.ltb_spec minutes 60); [reflexivity | lia].
  - intros H60. assert (60 <= minutes) by nia.
    split; [|apply floor_is_quot_nonneg; lia].
    unfold humanize_delta. rewrite F.
    destruct (Z.ltb_spec minutes 0); [lia|].
    destruct (Z.ltb_spec minutes 60); [lia|].
    unfold Z.div, Z.modulo. destruct (Z.div_eucl minutes 60). reflexivity.
Qed.

Lemma humanize_delta_policy_witness :
  (- 90 * US_PER_SECOND < 0
   /\ humanize_delta (- 90 * US_PER_SECOND) = py "просрочено на 2 мин")
  /\ (0 <= 59 * US_PER_SECOND < 60 * US_PER_MINUTE
      /\ humanize_delta (59 * US_PER_SECOND) = py "через 0 мин")
  /\ (60 * US_PER_MINUTE <= 90 * US_PER_MINUTE
      /\ humanize_delta (90 * US_PER_MINUTE) = py "через 1 ч 30 мин").
Proof.
  assert (N : - 90 * US_PER_SECOND < 0) by (vm_compute; reflexivity).
  assert (S : 0 <= 59 * US_PER_SECOND < 60 * US_PER_MINUTE)
    by (vm_compute; split; congruence).
  assert (L : 60 * US_PER_MINUTE <= 90 * US_PER_MINUTE)
    by (vm_compute; congruence).
  assert (BN : Z.abs (- 90 * US_PER_SECOND) < 2 ^ 34 * US_PER_SECOND)
    by (vm_compute; reflexivity).
  assert (BS : Z.abs (59 * US_PER_SECOND) < 2 ^ 34 * US_PER_SECOND)
    by (vm_compute; reflexivity).
  assert (BL : Z.abs (90 * US_PER_MINUTE) < 2 ^ 34 * US_PER_SECOND)
    by (vm_compute; reflexivity).
  split; [split; [exact N|] | split; [split; [exact S|] | split; [exact L|]]].
  - exact (proj1 (proj1 (humanize_delta_policy (- 90 * US_PER_SECOND) BN) N)).
  - exact (proj1 (proj1 (proj2 (humanize_delta_policy (59 * US_PER_SECOND)
                                                      BS)) S)).
  - exact (proj1 (proj2 (proj2 (humanize_delta_policy (90 * US_PER_MINUTE)
                                                      BL)) L)).
Defined.

(** C6 (as stated) fails: thirty seconds past the deadline truncate toward
    zero to 0 minutes, yet the code reports one minute. *)
Lemma humanize_delta_not_toward_zero :
  Z.quot (- 30 * US_PER_SECOND) US_PER_MINUTE = 0
  /\ humanize_delta_spec (- 30 * US_PER_SECOND) = py "просрочено на 0 мин"
  /\ humanize_delta (- 30 * US_PER_SECOND) = py "просрочено на 1 мин"
  /\ humanize_delta (- 30 * US_PER_SECOND)
     <> humanize_delta_spec (- 30 * US_PER_SECOND).
Proof.
  repeat apply conj; try (vm_compute; reflexivity).
  vm_compute. discriminate.
Qed.

(** The bound of 2^34 seconds is the best one: a microsecond short of
    286331154 minutes, the first whole minute past 2^34 seconds, the double
    of [total_seconds] is the whole minute and the code renders 286331154
    minutes where the floor of the duration is 286331153. *)
Lemma humanize_delta_past_the_bound :
  let delta := timedelta_minutes 286331154 - 1 in
  2 ^ 34 * US_PER_SECOND <= delta
  /\ delta - 60 * US_PER_SECOND < 2 ^ 34 * US_PER_SECOND
  /\ delta / US_PER_MINUTE = 286331153
  /\ floor_minutes (total_seconds delta) = 286331154
  /\ humanize_delta delta = py "через 4772185 ч 54 мин".
Proof.
  repeat apply conj; try (vm_compute; reflexivity).
  vm_compute. discriminate.
Qed.

End HumanizeFacts.

(* ================================================================== *)
(** ** Facts on traces *)

Module TraceFacts.

Lemma LogRow_eq_dec (a b : LogRow) : {a = b} + {a <> b}.
Proof.
  decide equality; try apply Z.eq_dec.
  apply (list_eq_dec N.eq_dec).
Defined.

Lemma str_eqb_eq (a b : pystr) : str_eqb a b = true <-> a = b.
Proof.
  unfold str_eqb. destruct (list_eq_dec N.eq_dec a b); split; congruence.
Qed.

Lemma row_eqb_eq (a b : LogRow) : row_eqb a b = true <-> a = b.
Proof.
  unfold row_eqb. rewrite !andb_true_iff, !Z.eqb_eq, str_eqb_eq.
  destruct a, b; simpl. split.
  - intros [[[-> ->] ->] ->]. reflexivity.
  - intros E. inversion E. auto.
Qed.

Lemma existsb_row (row : LogRow) (l : list LogRow) :
  existsb (row_eqb row) l = true <-> In row l.
Proof.
  rewrite existsb_exists. split.
  - intros [x [Hin E]]. apply row_eqb_eq in E. subst. assumption.
  - intros Hin. exists row. split; [assumption | apply row_eqb_eq; reflexivity].
Qed.

Lemma new_events_app (w w' : World) (t : list Event) :
  trace w' = trace w ++ t -> new_events w w' = t.
Proof.
  intros E. unfold new_events. rewrite E.
  rewrite skipn_app, skipn_all, Nat.sub_diag. reflexivity.
Qed.

Lemma new_records_app (t1 t2 : list Event) :
  new_records (t1 ++ t2) = new_records t1 ++ new_records t2.
Proof.
  induction t1 as [|e t1 IH]; [reflexivity|].
  destruct e as [row [|]| |]; simpl; rewrite IH; reflexivity.
Qed.

Lemma posts_app (t1 t2 : list Event) :
  posts (t1 ++ t2) = (posts t1 + posts t2)%nat.
Proof.
  induction t1 as [|e t1 IH]; [reflexivity|].
  destruct e; simpl; rewrite IH; reflexivity.
Qed.

Lemma guarded_weaken (b : bool) (t : list Event) :
  guarded false t = true -> guarded b t = true.
Proof.
  destruct t as [|e t]; [reflexivity|].
  destruct e; simpl; try tauto. discriminate.
Qed.

Lemma guarded_app (b : bool) (t1 t2 : list Event) :
  guarded b t1 = true -> guarded false t2 = true ->
  guarded b (t1 ++ t2) = true.
Proof.
  revert b. induction t1 as [|e t1 IH]; intros b H1 H2.
  - apply guarded_weaken. assumption.
  - destruct e; simpl in *.
    + apply IH; assumption.
    + apply andb_true_iff in H1. destruct H1 as [-> H1]. simpl.
      apply IH; assumption.
    + apply IH; assumption.
Qed.

Lemma dispatched_from_guarded (pending : option LogRow) (t : list Event) :
  guarded false t = true -> dispatched_from pending t = dispatched t.
Proof.
  destruct t as [|e t]; [reflexivity|].
  destruct e; simpl; try reflexivity. discriminate.
Qed.

Lemma dispatched_from_app (pending : option LogRow) (t1 t2 : list Event) :
  guarded false t2 = true ->
  dispatched_from pending (t1 ++ t2)
  = dispatched_from pending t1 ++ dispatched t2.
Proof.
  intros G. revert pending. induction t1 as [|e t1 IH]; intros pending.
  - simpl. apply dispatched_from_guarded. assumption.
  - destruct e; simpl.
    + apply IH.
    + destruct pending; simpl; rewrite IH; reflexivity.
    + apply IH.
Qed.

(** A guarded trace split at a POST: the event before the POST reports a
    new row. *)
Lemma guarded_split (b : bool) (pre post : list Event) c txt d :
  guarded b (pre ++ EvPost c txt d :: post) = true ->
  (pre = [] /\ b = true)
  \/ exists pre' row, pre = pre' ++ [EvRecord row true].
Proof.
  revert b. induction pre as [|e pre IH]; intros b G.
  - left. simpl in G. apply andb_true_iff in G. tauto.
  - right.
    assert (G' : exists b', guarded b' (pre ++ EvPost c txt d :: post) = true
                           /\ (b' = true -> exists row, e = EvRecord row true)).
    { destruct e as [row ins| |]; simpl in G.
      - exists ins. split; [assumption|]. intros ->. eauto.
      - apply andb_true_iff in G. destruct G as [_ G].
        exists false. split; [assumption | discriminate].
      - exists false. split; [assumption | discriminate]. }
    destruct G' as [b' [G' Hb']].
    destruct (IH b' G') as [[-> ->] | [pre' [row ->]]].
    + destruct (Hb' eq_refl) as [row ->]. exists [], row. reflexivity.
    + exists (e :: pre'), row. reflexivity.
Qed.

End TraceFacts.
Export TraceFacts.

(* ================================================================== *)
(** ** Facts on strings *)

Module StrFacts.

Lemma replace_single (s : pystr) (a b : N) :
  PyStr.replace s [a] [b] = replace_char a b s.
Proof.
  unfold PyStr.replace, replace_char.
  induction s as [|c r IH]; [reflexivity|].
  cbn [replace_from startswith map List.length Nat.pred].
  assert (E : startswith r [] = true) by (destruct r; reflexivity).
  rewrite E, andb_true_r.
  destruct (c =? a)%N; cbn [app]; rewrite IH; reflexivity.
Qed.

Lemma plain_is_word (w : pystr) : plain w = true -> word w = true.
Proof.
  unfold plain, word. rewrite !forallb_forall. intros H c Hc.
  specialize (H c Hc). unfold plain_char in H.
  rewrite !andb_true_iff in H. tauto.
Qed.

Lemma word_app (a b : pystr) :
  word (a ++ b) = word a && word b.
Proof. apply forallb_app. Qed.

Lemma plain_app (a b : pystr) :
  plain (a ++ b) = plain a && plain b.
Proof. apply forallb_app. Qed.

Lemma word_rev (w : pystr) : word (rev w) = word w.
Proof.
  unfold word. induction w as [|c w IH]; [reflexivity|].
  cbn [rev forallb]. rewrite forallb_app, IH. cbn [forallb].
  rewrite andb_true_r. apply andb_comm.
Qed.

Lemma replace_char_plain (a b : N) (w : pystr) :
  In a [46; 47; 44; 84]%N -> plain w = true -> replace_char a b w = w.
Proof.
  intros Ha Hw. unfold replace_char.
  induction w as [|c w IH]; [reflexivity|].
  cbn [plain forallb] in Hw. apply andb_true_iff in Hw.
  destruct Hw as [Hc Hw]. cbn [map]. rewrite (IH Hw). f_equal.
  unfold plain_char in Hc. rewrite !andb_true_iff, !negb_true_iff in Hc.
  destruct Hc as [[[[_ H46] H47] H44] H84].
  cbn [In] in Ha.
  destruct Ha as [<- | [<- | [<- | [<- | []]]]];
    [rewrite H46 | rewrite H47 | rewrite H44 | rewrite H84]; reflexivity.
Qed.

Lemma lstrip_word (c : N) (r : pystr) :
  isspace c = false -> lstrip (c :: r) = c :: r.
Proof. intros H. cbn [lstrip]. rewrite H. reflexivity. Qed.

Lemma lstrip_nonempty_word (w r : pystr) :
  word w = true -> w <> [] -> lstrip (w ++ r) = w ++ r.
Proof.
  destruct w as [|c w]; [congruence|]. intros Hw _.
  cbn [word forallb] in Hw. apply andb_true_iff in Hw.
  destruct Hw as [Hc _]. apply negb_true_iff in Hc.
  apply lstrip_word. assumption.
Qed.

Lemma rstrip_ends_with_word (x w : pystr) :
  word w = true -> w <> [] -> rstrip (x ++ w) = x ++ w.
Proof.
  intros Hw Hne. unfold rstrip. rewrite rev_app_distr.
  rewrite lstrip_nonempty_word.
  - rewrite <- rev_app_distr. apply rev_involutive.
  - rewrite word_rev. assumption.
  - intros E. apply Hne. rewrite <- (rev_involutive w), E. reflexivity.
Qed.

Lemma span_word_stop (w : pystr) (c : N) (r : pystr) :
  word w = true -> isspace c = true ->
  span_word (w ++ c :: r) = (w, c :: r).
Proof.
  intros Hw Hc. induction w as [|a w IH].
  - cbn [app span_word]. rewrite Hc. reflexivity.
  - cbn [word forallb] in Hw. apply andb_true_iff in Hw.
    destruct Hw as [Ha Hw]. apply negb_true_iff in Ha.
    cbn [app span_word]. rewrite Ha, (IH Hw). reflexivity.
Qed.

Lemma split_from_word (w r acc : pystr) :
  word w = true ->
  split_from (w ++ r) acc = split_from r (rev w ++ acc).
Proof.
  revert acc. induction w as [|a w IH]; intros acc Hw; [reflexivity|].
  cbn [word forallb] in Hw. apply andb_true_iff in Hw.
  destruct Hw as [Ha Hw]. apply negb_true_iff in Ha.
  cbn [app split_from]. rewrite Ha. fold (word w) in Hw.
  rewrite (IH _ Hw). cbn [rev]. rewrite <- app_assoc. reflexivity.
Qed.

Lemma split_ws_two_words (w1 w2 : pystr) (c : N) :
  word w1 = true -> w1 <> [] -> word w2 = true -> w2 <> [] ->
  isspace c = true ->
  split_ws (w1 ++ c :: w2) = [w1; w2].
Proof.
  intros H1 N1 H2 N2 Hc. unfold split_ws.
  rewrite (split_from_word w1 _ [] H1), app_nil_r.
  cbn [split_from]. rewrite Hc.
  assert (R1 : rev w1 <> []).
  { intros E. apply N1. rewrite <- (rev_involutive w1), E. reflexivity. }
  destruct (rev w1) as [|a ra] eqn:E1; [congruence|].
  rewrite <- E1, rev_involutive.
  rewrite <- (app_nil_r w2) at 1.
  rewrite (split_from_word w2 [] [] H2), app_nil_r. cbn [split_from].
  assert (R2 : rev w2 <> []).
  { intros E. apply N2. rewrite <- (rev_involutive w2), E. reflexivity. }
  destruct (rev w2) as [|b rb] eqn:E2; [congruence|].
  rewrite <- E2, rev_involutive. reflexivity.
Qed.

End StrFacts.
Export StrFacts.

(* ================================================================== *)
(** ** The argument of /check *)

Module ParseFacts.

Lemma replace_char_shape (x y : N) (a b c t : pystr) (s1 s2 s3 : N) :
  In x [46; 47; 44; 84]%N ->
  plain a = true -> plain b = true -> plain c = true -> plain t = true ->
  let g := fun ch => if (ch =? x)%N then y else ch in
  replace_char x y (a ++ [s1] ++ b ++ [s2] ++ c ++ [s3] ++ t)
  = a ++ [g s1] ++ b ++ [g s2] ++ c ++ [g s3] ++ t.
Proof.
  intros Hx Ha Hb Hc Ht g.
  pose proof (fun w => replace_char_plain x y w Hx) as P.
  unfold replace_char in *. rewrite !map_app.
  rewrite (P a Ha), (P b Hb), (P c Hc), (P t Ht). reflexivity.
Qed.

(** The delimiters of the date become '-', those between date and time
    become a blank, and the two parts go to [strptime]. *)
Lemma parse_check_datetime_delimiters (a b c t : pystr) (s1 s2 s3 : N) :
  plain a = true -> a <> [] -> plain b = true -> plain c = true ->
  plain t = true -> t <> [] ->
  In s1 [46; 47; 45]%N -> In s2 [46; 47; 45]%N -> In s3 [44; 84; 32]%N ->
  parse_check_datetime
    (py "/check " ++ a ++ [s1] ++ b ++ [s2] ++ c ++ [s3] ++ t)
  = strptime_dmY_HM (a ++ py "-" ++ b ++ py "-" ++ c ++ py " " ++ t).
Proof.
  intros Ha Na Hb Hc Ht Nt H1 H2 H3.
  set (R := a ++ [s1] ++ b ++ [s2] ++ c ++ [s3] ++ t).
  assert (Hd : forall s, In s [46; 47; 45]%N -> word [s] = true).
  { intros s [<- | [<- | [<- | []]]]; reflexivity. }
  assert (HR : lstrip R = R).
  { unfold R. apply lstrip_nonempty_word;
      [apply plain_is_word; assumption | assumption]. }
  assert (Estrip : strip (py "/check " ++ R) = py "/check " ++ R).
  { unfold strip.
    change (py "/check ") with ([47; 99; 104; 101; 99; 107; 32]%N).
    cbn [app]. rewrite lstrip_word by reflexivity.
    change (47 :: 99 :: 104 :: 101 :: 99 :: 107 :: 32 :: R)%N
      with ([47; 99; 104; 101; 99; 107; 32]%N ++ R).
    unfold R.
    replace ([47; 99; 104; 101; 99; 107; 32]%N
             ++ a ++ [s1] ++ b ++ [s2] ++ c ++ [s3] ++ t)
      with (([47; 99; 104; 101; 99; 107; 32]%N
             ++ a ++ [s1] ++ b ++ [s2] ++ c ++ [s3]) ++ t)
      by (rewrite <- !app_assoc; reflexivity).
    apply rstrip_ends_with_word;
      [apply plain_is_word; assumption | assumption]. }
  assert (Esplit : split_maxsplit1 (py "/check " ++ R) = [py "/check"; R]).
  { unfold split_maxsplit1.
    change (py "/check ") with ([47; 99; 104; 101; 99; 107; 32]%N).
    cbn [app]. rewrite lstrip_word by reflexivity.
    change (47 :: 99 :: 104 :: 101 :: 99 :: 107 :: 32 :: R)%N
      with ([47; 99; 104; 101; 99; 107]%N ++ 32%N :: R).
    rewrite (span_word_stop [47; 99; 104; 101; 99; 107]%N 32%N R)
      by reflexivity.
    cbn [lstrip]. change (isspace 32) with true. cbv iota.
    rewrite HR. unfold R at 1.
    destruct a as [|a0 a']; [congruence|]. reflexivity. }
  unfold parse_check_datetime. rewrite Estrip, Esplit.
  change (py ".") with [46%N]. change (py "/") with [47%N].
  change (py ",") with [44%N]. change (py "T") with [84%N].
  change (py "-") with [45%N]. change (py " ") with [32%N].
  rewrite !replace_single. unfold R.
  rewrite (replace_char_shape 46 45) by (cbn; tauto).
  rewrite (replace_char_shape 47 45) by (cbn; tauto).
  rewrite (replace_char_shape 44 32) by (cbn; tauto).
  rewrite (replace_char_shape 84 32) by (cbn; tauto).
  assert (E1 : forall s, In s [46; 47; 45]%N ->
     (fun ch => if (ch =? 84)%N then 32%N else ch)
       ((fun ch => if (ch =? 44)%N then 32%N else ch)
          ((fun ch => if (ch =? 47)%N then 45%N else ch)
             ((fun ch => if (ch =? 46)%N then 45%N else ch) s))) = 45%N).
  { intros s [<- | [<- | [<- | []]]]; reflexivity. }
  assert (E3 :
     (fun ch => if (ch =? 84)%N then 32%N else ch)
       ((fun ch => if (ch =? 44)%N then 32%N else ch)
          ((fun ch => if (ch =? 47)%N then 45%N else ch)
             ((fun ch => if (ch =? 46)%N then 45%N else ch) s3))) = 32%N).
  { destruct H3 as [<- | [<- | [<- | []]]]; reflexivity. }
  rewrite (E1 s1 H1), (E1 s2 H2), E3.
  replace (a ++ [45%N] ++ b ++ [45%N] ++ c ++ [32%N] ++ t)
    with ((a ++ [45%N] ++ b ++ [45%N] ++ c) ++ 32%N :: t)
    by (rewrite <- !app_assoc; reflexivity).
  rewrite split_ws_two_words.
  - cbv iota. rewrite <- !app_assoc. reflexivity.
  - rewrite !word_app, !(plain_is_word _ Ha), !(plain_is_word _ Hb),
      !(plain_is_word _ Hc). reflexivity.
  - destruct a; [congruence | discriminate].
  - apply plain_is_word. assumption.
  - assumption.
  - reflexivity.
Qed.

End ParseFacts.
Export ParseFacts.

(* ================================================================== *)
(** ** [strptime] on a well-formed date and time *)

Module StrptimeFacts.

Lemma zrange_In (lo : Z) (n : nat) (z : Z) :
  lo <= z < lo + Z.of_nat n -> In z (zrange lo n).
Proof.
  intros H. unfold zrange. apply in_map_iff.
  exists (Z.to_nat (z - lo)). split; [lia|].
  apply in_seq. lia.
Qed.

(** Case analysis on an integer known to lie in a short range. *)
Ltac enumerate z lo n :=
  let H := fresh "Hrange" in
  assert (H : In z (zrange lo n)) by (apply zrange_In; simpl; lia);
  cbv [zrange seq map Z.of_nat Pos.of_succ_nat Pos.succ Z.add Pos.add] in H;
  repeat (destruct H as [H | H]; [subst z|]); [..|destruct H].

Lemma digit_is_digit (x : Z) : (48 <= digit x <= 57)%N.
Proof.
  unfold digit. pose proof (Z.mod_pos_bound x 10 ltac:(lia)). lia.
Qed.

Lemma isdigit_digit (x : Z) : isdigit (digit x) = true.
Proof.
  pose proof (digit_is_digit x) as [H1 H2].
  assert (E : ((48 <=? digit x) && (digit x <? 48 + 10))%N = true)
    by (apply andb_true_iff; split; [apply N.leb_le | apply N.ltb_lt]; lia).
  unfold isdigit, digit_value, DECIMAL_ZEROS. cbn [find]. rewrite E.
  reflexivity.
Qed.

Lemma isspace_digit (x : Z) : isspace (digit x) = false.
Proof.
  pose proof (digit_is_digit x) as [H1 H2]. unfold isspace.
  repeat match goal with
         | |- context [(?a <=? ?b)%N] => destruct (N.leb_spec a b); try lia
         | |- context [(?a =? ?b)%N] => destruct (N.eqb_spec a b); try lia
         end; reflexivity.
Qed.

Lemma plain_char_digit (x : Z) : plain_char (digit x) = true.
Proof.
  pose proof (digit_is_digit x) as [H1 H2]. unfold plain_char.
  rewrite isspace_digit.
  repeat match goal with
         | |- context [(?a =? ?b)%N] => destruct (N.eqb_spec a b); try lia
         end; reflexivity.
Qed.

Lemma plain_pad2 (x : Z) : plain (pad2 x) = true.
Proof. unfold plain, pad2. cbn [forallb]. rewrite !plain_char_digit. reflexivity. Qed.

Lemma plain_pad4 (x : Z) : plain (pad4 x) = true.
Proof. unfold plain, pad4. cbn [forallb]. rewrite !plain_char_digit. reflexivity. Qed.

Lemma int_of_str_pad2 (v : Z) : 0 <= v <= 99 -> int_of_str (pad2 v) = Some v.
Proof.
  intros H.
  assert (All : forallb (fun z => match int_of_str (pad2 z) with
                                  | Some r => r =? z
                                  | None => false
                                  end) (zrange 0 100) = true)
    by (vm_compute; reflexivity).
  rewrite forallb_forall in All.
  specialize (All v (zrange_In 0 100 v ltac:(lia))).
  destruct (int_of_str (pad2 v)) as [r|]; [|discriminate].
  apply Z.eqb_eq in All. congruence.
Qed.

Lemma int_of_str_pad4 (v : Z) :
  0 <= v <= 9999 -> int_of_str (pad4 v) = Some v.
Proof.
  intros H.
  assert (All : forallb (fun z => match int_of_str (pad4 z) with
                                  | Some r => r =? z
                                  | None => false
                                  end) (zrange 0 (Z.to_nat 10000)) = true)
    by (vm_compute; reflexivity).
  rewrite forallb_forall in All.
  specialize (All v (zrange_In 0 (Z.to_nat 10000) v ltac:(lia))).
  destruct (int_of_str (pad4 v)) as [r|]; [|discriminate].
  apply Z.eqb_eq in All. congruence.
Qed.

Ltac run_matcher H :=
  cbv [pad2 digit]; cbn [app];
  cbv; cbv in H; rewrite H; reflexivity.

Lemma re_d_pad2 {A} (d : Z) (rest : pystr)
      (k : pystr -> pystr -> option A) (x : A) :
  1 <= d <= 31 -> k (pad2 d) rest = Some x ->
  re_d (pad2 d ++ rest) k = Some x.
Proof. intros R H. enumerate d 1 31%nat; run_matcher H. Qed.

Lemma re_m_pad2 {A} (m : Z) (rest : pystr)
      (k : pystr -> pystr -> option A) (x : A) :
  1 <= m <= 12 -> k (pad2 m) rest = Some x ->
  re_m (pad2 m ++ rest) k = Some x.
Proof. intros R H. enumerate m 1 12%nat; run_matcher H. Qed.

Lemma re_H_pad2 {A} (h : Z) (rest : pystr)
      (k : pystr -> pystr -> option A) (x : A) :
  0 <= h <= 23 -> k (pad2 h) rest = Some x ->
  re_H (pad2 h ++ rest) k = Some x.
Proof. intros R H. enumerate h 0 24%nat; run_matcher H. Qed.

Lemma re_M_pad2 {A} (m : Z) (rest : pystr)
      (k : pystr -> pystr -> option A) (x : A) :
  0 <= m <= 59 -> k (pad2 m) rest = Some x ->
  re_M (pad2 m ++ rest) k = Some x.
Proof. intros R H. enumerate m 0 60%nat; run_matcher H. Qed.

Lemma re_Y_pad4 {A} (y : Z) (rest : pystr)
      (k : pystr -> pystr -> option A) :
  re_Y (pad4 y ++ rest) k = k (pad4 y) rest.
Proof.
  unfold pad4, re_Y. cbn [app]. rewrite !isdigit_digit. reflexivity.
Qed.

Lemma re_spaces_blank_then_digit {A} (x : Z) (rest : pystr)
      (k : pystr -> option A) :
  re_spaces (32%N :: digit x :: rest) k = k (digit x :: rest).
Proof.
  cbn [re_spaces]. change (isspace 32) with true. cbv iota.
  rewrite isspace_digit. reflexivity.
Qed.

Lemma days_in_month_le_31 (y m : Z) : 1 <= m <= 12 -> days_in_month y m <= 31.
Proof.
  intros H. unfold days_in_month.
  destruct ((m =? 2) && is_leap y); [lia|].
  enumerate m 1 12%nat; vm_compute; congruence.
Qed.

Lemma strptime_valid (y m d H M : Z) :
  1 <= y <= 9999 -> 1 <= m <= 12 -> 1 <= d <= days_in_month y m ->
  0 <= H <= 23 -> 0 <= M <= 59 ->
  strptime_dmY_HM (pad2 d ++ py "-" ++ pad2 m ++ py "-" ++ pad4 y
                   ++ py " " ++ pad2 H ++ py ":" ++ pad2 M)
  = Some (mk_datetime y m d H M).
Proof.
  intros Hy Hm Hd HH HM.
  pose proof (days_in_month_le_31 y m Hm) as D31.
  change (py "-") with [45%N]. change (py " ") with [32%N].
  change (py ":") with [58%N].
  assert (E : format_regex_match
                (pad2 d ++ [45%N] ++ pad2 m ++ [45%N] ++ pad4 y
                 ++ [32%N] ++ pad2 H ++ [58%N] ++ pad2 M)
              = Some (pad2 d, pad2 m, pad4 y, pad2 H, pad2 M, [])).
  { unfold format_regex_match.
    apply re_d_pad2; [lia|]. cbn [app lit]. rewrite N.eqb_refl.
    apply re_m_pad2; [lia|]. cbn [app lit]. rewrite N.eqb_refl.
    rewrite re_Y_pad4. cbn [app].
    change (pad2 H ++ 58%N :: pad2 M)
      with (digit (H / 10) :: ([digit H] ++ 58%N :: pad2 M)).
    rewrite re_spaces_blank_then_digit.
    change (digit (H / 10) :: ([digit H] ++ 58%N :: pad2 M))
      with (pad2 H ++ 58%N :: pad2 M).
    apply re_H_pad2; [lia|]. cbn [lit]. rewrite N.eqb_refl.
    rewrite <- (app_nil_r (pad2 M)).
    apply re_M_pad2; [lia|]. rewrite app_nil_r. reflexivity. }
  unfold strptime_dmY_HM. rewrite E.
  rewrite !int_of_str_pad2, int_of_str_pad4 by lia.
  destruct (Z.leb_spec 1 y); [|lia].
  destruct (Z.leb_spec d (days_in_month y m)); [|lia].
  reflexivity.
Qed.

End StrptimeFacts.
Export StrptimeFacts.

(* ================================================================== *)
(** ** The calls the engine and the handler are made of *)

Module PrimitiveFacts.

(** [send_message] never raises, leaves the store and its schedule alone and
    adds the POST, and the log line when the POST failed. *)
Lemma send_message_run (chat_id : Z) (text : pystr) (w : World) :
  exists w1,
    send_message chat_id text w = (Ok tt, w1)
    /\ store w1 = store w
    /\ store_faults w1 = store_faults w
    /\ transport_faults w1 = tl (transport_faults w)
    /\ trace w1
       = trace w ++ send_events chat_id text (next_transport_fault w).
Proof.
  unfold send_message, try_catch, http_post, bind, transport_call, emit,
    raise, ret, send_events, next_transport_fault.
  destruct (transport_faults w) as [|[|] rest] eqn:E; simpl;
    eexists; (split; [reflexivity|]); simpl; rewrite ?E;
    repeat split; try reflexivity.
  rewrite <- app_assoc. reflexivity.
Qed.

(** The three ways a call of [record_reminder_sent] ends. *)
Inductive record_outcome (row : LogRow) (w : World)
  : Result bool -> World -> Prop :=
| record_failed w1 :
    next_store_fault w = true ->
    store w1 = store w -> trace w1 = trace w ->
    transport_faults w1 = transport_faults w ->
    store_faults w1 = tl (store_faults w) ->
    record_outcome row w (Raise StoreError) w1
| record_known w1 :
    next_store_fault w = false ->
    In row (logs w) ->
    store w1 = store w -> trace w1 = trace w ++ [EvRecord row false] ->
    transport_faults w1 = transport_faults w ->
    store_faults w1 = tl (store_faults w) ->
    record_outcome row w (Ok false) w1
| record_new w1 :
    next_store_fault w = false ->
    ~ In row (logs w) ->
    store w1 = {| users := users (store w);
                  processes := processes (store w);
                  reminder_logs := logs w ++ [row] |} ->
    trace w1 = trace w ++ [EvRecord row true] ->
    transport_faults w1 = transport_faults w ->
    store_faults w1 = tl (store_faults w) ->
    record_outcome row w (Ok true) w1.

Lemma record_reminder_sent_run (u p : Z) (d : pystr) (i : Z) (w : World) :
  record_outcome {| user_id := u; process_id := p;
                    deadline_date := d; reminder_idx := i |} w
                 (fst (record_reminder_sent u p d i w))
                 (snd (record_reminder_sent u p d i w)).
Proof.
  set (row := {| user_id := u; process_id := p;
                 deadline_date := d; reminder_idx := i |}).
  assert (Known : In row (logs w) <->
                  existsb (row_eqb row) (reminder_logs (store w)) = true).
  { symmetry. apply existsb_row. }
  unfold record_reminder_sent. fold row.
  cbv [bind store_call get_store emit put_store ret].
  destruct (store_faults w) as [|[|] rest] eqn:E; cbv beta iota;
    cbn [store trace].
  2: { cbn [fst snd]. apply record_failed;
       cbn [store trace transport_faults store_faults]; rewrite ?E;
       try reflexivity.
       unfold next_store_fault. rewrite E. reflexivity. }
  all: assert (Nf : next_store_fault w = false)
         by (unfold next_store_fault; rewrite E; reflexivity).
  all: destruct (existsb (row_eqb row) (reminder_logs (store w))) eqn:Ex;
    cbn [fst snd];
    [ apply record_known | apply record_new ];
    cbn [store trace transport_faults store_faults]; rewrite ?E;
    try reflexivity; try assumption;
    rewrite Known; congruence.
Qed.

End PrimitiveFacts.
Export PrimitiveFacts.

(* ================================================================== *)
(** ** The delimiters [parse_check_datetime] does not take *)

Module RejectFacts.

Lemma split_ws_word (w : pystr) :
  word w = true -> w <> [] -> split_ws w = [w].
Proof.
  intros Hw Hn. unfold split_ws.
  rewrite <- (app_nil_r w) at 1.
  rewrite (split_from_word w [] [] Hw), app_nil_r. cbn [split_from].
  destruct (rev w) as [|a ra] eqn:E.
  - exfalso. apply Hn. rewrite <- (rev_involutive w), E. reflexivity.
  - rewrite <- E, rev_involutive. reflexivity.
Qed.

Lemma split_ws_cons_word (w r : pystr) :
  word w = true -> w <> [] ->
  split_ws (w ++ 32%N :: r) = w :: split_ws r.
Proof.
  intros Hw Hn. unfold split_ws.
  rewrite (split_from_word w _ [] Hw), app_nil_r.
  cbn [split_from]. change (isspace 32) with true. cbv iota.
  destruct (rev w) as [|a ra] eqn:E.
  - exfalso. apply Hn. rewrite <- (rev_involutive w), E. reflexivity.
  - rewrite <- E, rev_involutive. reflexivity.
Qed.

(** The argument after the replacements, and what becomes of it. *)
Lemma parse_check_datetime_normalized (a b c t : pystr) (s1 s2 s3 : N) :
  plain a = true -> a <> [] -> plain b = true -> plain c = true ->
  plain t = true -> t <> [] ->
  In s1 [46; 47; 45; 44; 84; 32]%N -> In s2 [46; 47; 45; 44; 84; 32]%N ->
  In s3 [46; 47; 45; 44; 84; 32]%N ->
  parse_check_datetime
    (py "/check " ++ a ++ [s1] ++ b ++ [s2] ++ c ++ [s3] ++ t)
  = match split_ws (a ++ [normalize_char s1] ++ b ++ [normalize_char s2]
                    ++ c ++ [normalize_char s3] ++ t) with
    | [date_str; time_str] =>
      strptime_dmY_HM (date_str ++ py " " ++ time_str)
    | _ => None
    end.
Proof.
  intros Ha Na Hb Hc Ht Nt H1 H2 H3.
  set (R := a ++ [s1] ++ b ++ [s2] ++ c ++ [s3] ++ t).
  assert (HR : lstrip R = R).
  { unfold R. apply lstrip_nonempty_word;
      [apply plain_is_word; assumption | assumption]. }
  assert (Estrip : strip (py "/check " ++ R) = py "/check " ++ R).
  { unfold strip.
    change (py "/check ") with ([47; 99; 104; 101; 99; 107; 32]%N).
    cbn [app]. rewrite lstrip_word by reflexivity.
    change (47 :: 99 :: 104 :: 101 :: 99 :: 107 :: 32 :: R)%N
      with ([47; 99; 104; 101; 99; 107; 32]%N ++ R).
    unfold R.
    replace ([47; 99; 104; 101; 99; 107; 32]%N
             ++ a ++ [s1] ++ b ++ [s2] ++ c ++ [s3] ++ t)
      with (([47; 99; 104; 101; 99; 107; 32]%N
             ++ a ++ [s1] ++ b ++ [s2] ++ c ++ [s3]) ++ t)
      by (rewrite <- !app_assoc; reflexivity).
    apply rstrip_ends_with_word;
      [apply plain_is_word; assumption | assumption]. }
  assert (Esplit : split_maxsplit1 (py "/check " ++ R) = [py "/check"; R]).
  { unfold split_maxsplit1.
    change (py "/check ") with ([47; 99; 104; 101; 99; 107; 32]%N).
    cbn [app]. rewrite lstrip_word by reflexivity.
    change (47 :: 99 :: 104 :: 101 :: 99 :: 107 :: 32 :: R)%N
      with ([47; 99; 104; 101; 99; 107]%N ++ 32%N :: R).
    rewrite (span_word_stop [47; 99; 104; 101; 99; 107]%N 32%N R)
      by reflexivity.
    cbn [lstrip]. change (isspace 32) with true. cbv iota.
    rewrite HR. unfold R at 1.
    destruct a as [|a0 a']; [congruence|]. reflexivity. }
  unfold parse_check_datetime. rewrite Estrip, Esplit.
  change (py ".") with [46%N]. change (py "/") with [47%N].
  change (py ",") with [44%N]. change (py "T") with [84%N].
  change (py "-") with [45%N]. change (py " ") with [32%N].
  rewrite !replace_single. unfold R.
  rewrite (replace_char_shape 46 45) by (cbn; tauto).
  rewrite (replace_char_shape 47 45) by (cbn; tauto).
  rewrite (replace_char_shape 44 32) by (cbn; tauto).
  rewrite (replace_char_shape 84 32) by (cbn; tauto).
  assert (E : forall s, In s [46; 47; 45; 44; 84; 32]%N ->
     (fun ch => if (ch =? 84)%N then 32%N else ch)
       ((fun ch => if (ch =? 44)%N then 32%N else ch)
          ((fun ch => if (ch =? 47)%N then 45%N else ch)
             ((fun ch => if (ch =? 46)%N then 45%N else ch) s)))
     = normalize_char s).
  { intros s [<- | [<- | [<- | [<- | [<- | [<- | []]]]]]]; reflexivity. }
  rewrite (E s1 H1), (E s2 H2), (E s3 H3). reflexivity.
Qed.

Lemma digit_cases (x : Z) :
  In (digit x) [48; 49; 50; 51; 52; 53; 54; 55; 56; 57]%N.
Proof.
  unfold digit. pose proof (Z.mod_pos_bound x 10 ltac:(lia)) as B.
  remember (x mod 10) as r eqn:Er. clear Er.
  enumerate r 0 10%nat; cbn; tauto.
Qed.

Ltac digit_case H :=
  cbn [In] in H;
  repeat (destruct H as [H | H]; [subst|]); [..|destruct H].

(** After the day the expression wants '-'. *)
Lemma re_d_then_dash {A} (c1 c2 : N) (tail : pystr)
      (K : pystr -> pystr -> option A) :
  In c1 [48; 49; 50; 51; 52; 53; 54; 55; 56; 57]%N ->
  In c2 [48; 49; 50; 51; 52; 53; 54; 55; 56; 57]%N ->
  (forall d, K d tail = None) ->
  re_d (c1 :: c2 :: 45%N :: tail) (fun d s1 => lit 45 s1 (K d)) = None.
Proof.
  intros H1 H2 HK. digit_case H1; digit_case H2;
    cbv [re_d orelse two one lit is_char in_range isdigit digit_value
         N.eqb N.leb N.compare Pos.eqb Pos.compare Pos.compare_cont andb];
    rewrite ?HK; reflexivity.
Qed.

Lemma re_d_then_blank {A} (c1 c2 : N) (rest : pystr)
      (K : pystr -> pystr -> option A) :
  In c1 [48; 49; 50; 51; 52; 53; 54; 55; 56; 57]%N ->
  In c2 [48; 49; 50; 51; 52; 53; 54; 55; 56; 57]%N ->
  re_d (c1 :: c2 :: 32%N :: rest) (fun d s1 => lit 45 s1 (K d)) = None.
Proof.
  intros H1 H2. digit_case H1; digit_case H2; reflexivity.
Qed.

Lemma re_m_then_blank {A} (c1 c2 : N) (rest : pystr)
      (K : pystr -> pystr -> option A) :
  In c1 [48; 49; 50; 51; 52; 53; 54; 55; 56; 57]%N ->
  In c2 [48; 49; 50; 51; 52; 53; 54; 55; 56; 57]%N ->
  re_m (c1 :: c2 :: 32%N :: rest) (fun m s3 => lit 45 s3 (K m)) = None.
Proof.
  intros H1 H2. digit_case H1; digit_case H2; reflexivity.
Qed.

(** A blank after the day, or after the month, is not a date. *)
Lemma strptime_blank_after_day (d : Z) (rest : pystr) :
  strptime_dmY_HM (pad2 d ++ py " " ++ rest) = None.
Proof.
  unfold strptime_dmY_HM, format_regex_match, pad2.
  change (py " ") with [32%N]. cbn [app].
  rewrite re_d_then_blank by apply digit_cases. reflexivity.
Qed.

Lemma strptime_blank_after_month (d m : Z) (rest : pystr) :
  strptime_dmY_HM ((pad2 d ++ [45%N] ++ pad2 m) ++ py " " ++ rest) = None.
Proof.
  unfold strptime_dmY_HM, format_regex_match, pad2.
  change (py " ") with [32%N]. cbn [app].
  rewrite re_d_then_dash; [reflexivity | apply digit_cases..|].
  intros d0. apply re_m_then_blank; apply digit_cases.
Qed.

(** The argument is parsed only if the three delimiters are '-', '-' and a
    blank once the replacements are made. *)
Lemma parse_check_datetime_rejects (y m d H M : Z) (s1 s2 s3 : N) :
  In s1 [46; 47; 45; 44; 84; 32]%N -> In s2 [46; 47; 45; 44; 84; 32]%N ->
  In s3 [46; 47; 45; 44; 84; 32]%N ->
  In s1 [44; 84; 32]%N \/ In s2 [44; 84; 32]%N \/ In s3 [46; 47; 45]%N ->
  parse_check_datetime
    (py "/check " ++ pad2 d ++ [s1] ++ pad2 m ++ [s2] ++ pad4 y
     ++ [s3] ++ pad2 H ++ py ":" ++ pad2 M)
  = None.
Proof.
  intros H1 H2 H3 Bad.
  assert (Ht : plain (pad2 H ++ py ":" ++ pad2 M) = true).
  { change (py ":") with [58%N].
    rewrite !plain_app, !plain_pad2. reflexivity. }
  assert (Nd : pad2 d <> []) by (unfold pad2; discriminate).
  assert (Nm : pad2 m <> []) by (unfold pad2; discriminate).
  assert (Ny : pad4 y <> []) by (unfold pad4; discriminate).
  assert (Nt : pad2 H ++ py ":" ++ pad2 M <> [])
    by (unfold pad2; discriminate).
  rewrite (parse_check_datetime_normalized
             (pad2 d) (pad2 m) (pad4 y) (pad2 H ++ py ":" ++ pad2 M)
             s1 s2 s3 (plain_pad2 d) Nd (plain_pad2 m) (plain_pad4 y)
             Ht Nt H1 H2 H3).
  set (t := pad2 H ++ py ":" ++ pad2 M) in *.
  pose proof (plain_is_word _ (plain_pad2 d)) as Wd.
  pose proof (plain_is_word _ (plain_pad2 m)) as Wm.
  pose proof (plain_is_word _ (plain_pad4 y)) as Wy.
  pose proof (plain_is_word _ Ht) as Wt.
  assert (N1 : normalize_char s1 = 45%N /\ In s1 [46; 47; 45]%N
               \/ normalize_char s1 = 32%N /\ In s1 [44; 84; 32]%N).
  { cbn [In] in H1 |- *.
    destruct H1 as [<- | [<- | [<- | [<- | [<- | [<- | []]]]]]];
      cbn; tauto. }
  assert (N2 : normalize_char s2 = 45%N /\ In s2 [46; 47; 45]%N
               \/ normalize_char s2 = 32%N /\ In s2 [44; 84; 32]%N).
  { cbn [In] in H2 |- *.
    destruct H2 as [<- | [<- | [<- | [<- | [<- | [<- | []]]]]]];
      cbn; tauto. }
  assert (N3 : normalize_char s3 = 45%N /\ In s3 [46; 47; 45]%N
               \/ normalize_char s3 = 32%N /\ In s3 [44; 84; 32]%N).
  { cbn [In] in H3 |- *.
    destruct H3 as [<- | [<- | [<- | [<- | [<- | [<- | []]]]]]];
      cbn; tauto. }
  assert (Disjoint : forall s, In s [46; 47; 45]%N -> In s [44; 84; 32]%N ->
                               False).
  { intros s [<- | [<- | [<- | []]]] HT; cbn in HT;
      repeat (destruct HT as [HT | HT]; [discriminate|]); exact HT. }
  assert (W2 : forall u v : pystr, word u = true -> word v = true ->
                                   word (u ++ [45%N] ++ v) = true).
  { intros u v Hu Hv. rewrite !word_app, Hu, Hv. reflexivity. }
  assert (NE : forall u v : pystr, u ++ [45%N] ++ v <> [])
    by (intros [|] v; discriminate).
  destruct N1 as [[E1 D1] | [E1 T1]], N2 as [[E2 D2] | [E2 T2]],
    N3 as [[E3 D3] | [E3 T3]]; rewrite E1, E2, E3.
  - (* one word *)
    rewrite split_ws_word; [reflexivity | | destruct (pad2 d); discriminate].
    repeat apply W2; assumption.
  - (* the shape that is parsed *)
    exfalso. destruct Bad as [B | [B | B]]; eauto.
  - (* a blank after the month *)
    replace (pad2 d ++ [45%N] ++ pad2 m ++ [32%N] ++ pad4 y ++ [45%N] ++ t)
      with ((pad2 d ++ [45%N] ++ pad2 m) ++ 32%N :: (pad4 y ++ [45%N] ++ t))
      by (rewrite <- !app_assoc; reflexivity).
    rewrite split_ws_cons_word, split_ws_word; auto.
    apply strptime_blank_after_month.
  - replace (pad2 d ++ [45%N] ++ pad2 m ++ [32%N] ++ pad4 y ++ [32%N] ++ t)
      with ((pad2 d ++ [45%N] ++ pad2 m) ++ 32%N :: pad4 y ++ 32%N :: t)
      by (rewrite <- !app_assoc; reflexivity).
    rewrite !split_ws_cons_word, split_ws_word; auto.
  - (* a blank after the day *)
    replace (pad2 d ++ [32%N] ++ pad2 m ++ [45%N] ++ pad4 y ++ [45%N] ++ t)
      with (pad2 d ++ 32%N :: (pad2 m ++ [45%N] ++ pad4 y ++ [45%N] ++ t))
      by reflexivity.
    rewrite split_ws_cons_word, split_ws_word; auto.
    apply strptime_blank_after_day.
  - replace (pad2 d ++ [32%N] ++ pad2 m ++ [45%N] ++ pad4 y ++ [32%N] ++ t)
      with (pad2 d ++ 32%N :: (pad2 m ++ [45%N] ++ pad4 y) ++ 32%N :: t)
      by (rewrite <- !app_assoc; reflexivity).
    rewrite !split_ws_cons_word, split_ws_word; auto.
  - replace (pad2 d ++ [32%N] ++ pad2 m ++ [32%N] ++ pad4 y ++ [45%N] ++ t)
      with (pad2 d ++ 32%N :: pad2 m ++ 32%N :: (pad4 y ++ [45%N] ++ t))
      by reflexivity.
    rewrite !split_ws_cons_word, split_ws_word; auto.
  - replace (pad2 d ++ [32%N] ++ pad2 m ++ [32%N] ++ pad4 y ++ [32%N] ++ t)
      with (pad2 d ++ 32%N :: pad2 m ++ 32%N :: pad4 y ++ 32%N :: t)
      by reflexivity.
    rewrite !split_ws_cons_word; auto.
Qed.

End RejectFacts.
Export RejectFacts.

(* ================================================================== *)
(** ** The reminder engine stays within [engine_run] *)

Module EngineFacts.

Lemma In_insert_by {A} (key : A -> Z) (x y : A) (l : list A) :
  In y (insert_by key x l) <-> y = x \/ In y l.
Proof.
  induction l as [|z l IH]; simpl.
  - intuition congruence.
  - destruct (key x <? key z); simpl; [intuition congruence|].
    rewrite IH. intuition congruence.
Qed.

Lemma In_order_by {A} (key : A -> Z) (y : A) (l : list A) :
  In y (order_by key l) <-> In y l.
Proof.
  induction l as [|x l IH]; simpl; [tauto|].
  rewrite In_insert_by, IH. intuition congruence.
Qed.

Lemma date_of_combine (d : date) (t : Z) :
  0 <= t < US_PER_DAY -> date_of (combine d t) = d.
Proof.
  intros H. unfold date_of, combine.
  rewrite Z.add_comm, Z.div_add by (vm_compute; discriminate).
  rewrite Z.div_small by assumption. reflexivity.
Qed.

Lemma date_of_midnight (d : date) : date_of (combine d 0) = d.
Proof. apply date_of_combine. vm_compute. split; congruence. Qed.

Section Run.

Variable us : list User.
Variable ps : list Process.
Variable clock : list datetime.

Definition inv (w : World) : Prop :=
  users (store w) = us /\ processes (store w) = ps.

(** [m] keeps the tables of users and processes and extends the trace by
    what [engine_run] allows. *)
Definition preserves {A} (m : M A) : Prop :=
  forall w, inv w ->
    inv (snd (m w))
    /\ exists t, trace (snd (m w)) = trace w ++ t
                 /\ engine_run us ps clock (logs w) t (logs (snd (m w))).

Lemma preserves_silent {A} (m : M A) :
  (forall w, store (snd (m w)) = store w /\ trace (snd (m w)) = trace w) ->
  preserves m.
Proof.
  intros H w I. destruct (H w) as [Hs Ht]. unfold inv, logs. rewrite Hs.
  split; [assumption|]. exists []. rewrite Ht, app_nil_r.
  split; [reflexivity | constructor].
Qed.

Lemma preserves_ret {A} (a : A) : preserves (ret a).
Proof. apply preserves_silent. intros w. split; reflexivity. Qed.

Lemma preserves_lift {A} (r : Result A) : preserves (lift r).
Proof. apply preserves_silent. intros w. split; reflexivity. Qed.

Lemma preserves_store_call : preserves store_call.
Proof.
  apply preserves_silent. intros w. unfold store_call.
  destruct (store_faults w) as [|[|] rest]; split; reflexivity.
Qed.

Lemma preserves_get_store : preserves get_store.
Proof. apply preserves_silent. intros w. split; reflexivity. Qed.

(** Sequencing, when the value handed over is known to satisfy [Q]. *)
Lemma preserves_bind {A B} (Q : A -> Prop) (m : M A) (f : A -> M B) :
  preserves m ->
  (forall w a, inv w -> fst (m w) = Ok a -> Q a) ->
  (forall a, Q a -> preserves (f a)) ->
  preserves (bind m f).
Proof.
  intros Hm HQ Hf w I. unfold bind.
  destruct (Hm w I) as [I1 [t1 [E1 R1]]].
  specialize (HQ w).
  destruct (m w) as [[a|e] w1]; simpl in *.
  - destruct (Hf a (HQ a I eq_refl) w1 I1) as [I2 [t2 [E2 R2]]].
    split; [assumption|]. exists (t1 ++ t2).
    rewrite E2, E1, app_assoc. split; [reflexivity|].
    eapply run_then; eassumption.
  - split; [assumption|]. exists t1. split; assumption.
Qed.

Lemma preserves_seq {A B} (m : M A) (f : A -> M B) :
  preserves m -> (forall a, preserves (f a)) -> preserves (bind m f).
Proof.
  intros Hm Hf. apply (preserves_bind (fun _ => True)); auto.
Qed.

Lemma preserves_for_each {A} (xs : list A) (body : A -> M unit) :
  (forall x, In x xs -> preserves (body x)) ->
  preserves (for_each xs body).
Proof.
  induction xs as [|x xs IH]; intros H; simpl.
  - apply preserves_ret.
  - apply preserves_seq; [apply H; left; reflexivity|].
    intros _. apply IH. intros y Hy. apply H. right. assumption.
Qed.

Lemma preserves_get_processes_for_owner (owner_name : pystr) :
  preserves (get_processes_for_owner owner_name).
Proof.
  unfold get_processes_for_owner.
  apply preserves_seq; [apply preserves_store_call | intros _].
  apply preserves_seq; [apply preserves_get_store | intros s].
  apply preserves_ret.
Qed.

Lemma get_processes_for_owner_value (owner_name : pystr) (w : World)
      (l : list Process) :
  inv w -> fst (get_processes_for_owner owner_name w) = Ok l ->
  forall p, In p l -> In p ps /\ p_owner_name p = owner_name.
Proof.
  intros [_ Ip] E p Hp. unfold get_processes_for_owner, bind, store_call in E.
  destruct (store_faults w) as [|[|] rest]; simpl in E;
    try discriminate; inversion E; subst l; clear E;
    apply In_order_by, filter_In in Hp; destruct Hp as [Hin Ho];
    apply str_eqb_eq in Ho; rewrite <- Ip; auto.
Qed.

Lemma preserves_get_all_users : preserves get_all_users.
Proof.
  unfold get_all_users.
  apply preserves_seq; [apply preserves_store_call | intros _].
  apply preserves_seq; [apply preserves_get_store | intros s].
  apply preserves_ret.
Qed.

Lemma get_all_users_value (w : World) (l : list User) :
  inv w -> fst (get_all_users w) = Ok l -> forall u, In u l -> In u us.
Proof.
  intros [Iu _] E u Hu. unfold get_all_users, bind, store_call in E.
  destruct (store_faults w) as [|[|] rest]; simpl in E;
    try discriminate; inversion E; subst l; clear E;
    apply In_order_by in Hu; rewrite <- Iu; assumption.
Qed.

Lemma slot_of_enumerate (idx minutes_before : Z) :
  In (idx, minutes_before) (enumerate REMINDER_MINUTES 1) ->
  1 <= idx
  /\ nth_error REMINDER_MINUTES (Z.to_nat (idx - 1)) = Some minutes_before.
Proof.
  simpl. intros [E | [E | []]]; inversion E; subst; split;
    try lia; reflexivity.
Qed.

Lemma preserves_remind_slot now user p deadline_dt idx minutes_before :
  In now clock -> In user us -> In p ps ->
  p_owner_name p = u_name user ->
  _deadline_datetime (combine (date_of now) 0) (p_deadline_time p)
  = Ok deadline_dt ->
  now < deadline_dt ->
  In (idx, minutes_before) (enumerate REMINDER_MINUTES 1) ->
  preserves (remind_slot now user p (date_of now) deadline_dt
                         (idx, minutes_before)).
Proof.
  intros Hnow Hu Hp Ho Hd Hlt Hslot w I.
  destruct (slot_of_enumerate _ _ Hslot) as [Hidx Hnth].
  unfold remind_slot.
  destruct (Z.leb_spec (deadline_dt - timedelta_minutes minutes_before) now)
    as [Hdue | Hnot].
  2: { simpl. split; [assumption|]. exists [].
       rewrite app_nil_r. split; [reflexivity | constructor]. }
  set (row := {| user_id := u_id user; process_id := p_id p;
                 deadline_date := isoformat (date_of now);
                 reminder_idx := idx |}).
  assert (J : justified us ps clock row).
  { exists now, user, p, deadline_dt, minutes_before.
    constructor; simpl; auto. }
  unfold bind.
  pose proof (record_reminder_sent_run (u_id user) (p_id p)
                (isoformat (date_of now)) idx w) as Out.
  fold row in Out.
  destruct (record_reminder_sent (u_id user) (p_id p)
              (isoformat (date_of now)) idx w) as [r w1].
  cbn [fst snd] in Out.
  destruct Out as [w1 Hf Es Et _ _ | w1 Hf Hin Es Et _ _
                  | w1 Hf Hnew Es Et _ _].
  - cbn [snd]. unfold inv, logs. rewrite Es, Et. split; [assumption|].
    exists []. rewrite app_nil_r. split; [reflexivity | constructor].
  - unfold ret. cbn [snd]. unfold inv, logs. rewrite Es, Et.
    split; [assumption|]. exists [EvRecord row false].
    split; [reflexivity | apply run_known; assumption].
  - match goal with
    | |- context [send_message ?c ?txt w1] =>
      destruct (send_message_run c txt w1)
        as [w2 [E2 [Es2 [_ [_ Et2]]]]];
      rewrite E2; clear E2
    end.
    cbn [snd]. unfold inv, logs. rewrite Es2, Et2, Es, Et.
    cbn [users processes reminder_logs].
    split; [assumption|]. eexists.
    split; [rewrite <- app_assoc; reflexivity|].
    unfold send_events.
    destruct (next_transport_fault w1); cbn [negb app];
      [apply run_send_failed | apply run_sent]; assumption.
Qed.

Lemma preserves_remind_process now user p :
  In now clock -> In user us -> In p ps ->
  p_owner_name p = u_name user ->
  preserves (remind_process now user p).
Proof.
  intros Hnow Hu Hp Ho. unfold remind_process.
  apply (preserves_bind
           (fun d => _deadline_datetime (combine (date_of now) 0)
                                        (p_deadline_time p) = Ok d)).
  - apply preserves_lift.
  - intros w a _ E. exact E.
  - intros d Hd. destruct (Z.leb_spec d now) as [Hpassed | Hpending].
    + apply preserves_ret.
    + apply preserves_for_each. intros [idx minutes_before] Hslot.
      apply preserves_remind_slot; assumption.
Qed.

Lemma preserves_remind_user now user :
  In now clock -> In user us -> preserves (remind_user now user).
Proof.
  intros Hnow Hu. unfold remind_user.
  apply (preserves_bind
           (fun l => forall p, In p l ->
                               In p ps /\ p_owner_name p = u_name user)).
  - apply preserves_get_processes_for_owner.
  - intros w l I E. eapply get_processes_for_owner_value; eassumption.
  - intros l Hl. destruct l as [|p0 l0]; [apply preserves_ret|].
    apply preserves_for_each. intros p Hp.
    destruct (Hl p Hp). apply preserves_remind_process; assumption.
Qed.

Lemma preserves_tick now : In now clock -> preserves (tick now).
Proof.
  intros Hnow w I. unfold tick, try_catch.
  assert (B : preserves (users <- get_all_users ;;
                         for_each users (remind_user now))).
  { apply (preserves_bind (fun l => forall u, In u l -> In u us)).
    - apply preserves_get_all_users.
    - intros w0 l I0 E. eapply get_all_users_value; eassumption.
    - intros l Hl. apply preserves_for_each. intros u Hu0.
      apply preserves_remind_user; auto. }
  destruct (B w I) as [I1 [t [Et R]]].
  destruct ((users <- get_all_users ;; for_each users (remind_user now)) w)
    as [[[]|e] w1]; simpl in *.
  - split; [assumption|]. exists t. split; assumption.
  - split; [assumption|]. exists (t ++ [EvLog ReminderLoopError e]).
    rewrite Et, app_assoc. split; [reflexivity|].
    eapply run_then; [eassumption | apply run_error].
Qed.

Lemma preserves_reminders_loop (nows : list datetime) :
  incl nows clock -> preserves (reminders_loop nows).
Proof.
  induction nows as [|now later IH]; intros Hincl; simpl.
  - apply preserves_ret.
  - apply preserves_seq.
    + apply preserves_tick. apply Hincl. left. reflexivity.
    + intros _. apply IH. intros x Hx. apply Hincl. right. assumption.
Qed.

End Run.

End EngineFacts.
Export EngineFacts.

(* ================================================================== *)
(** ** The engine run twice, in related worlds *)

Module RelationalFacts.

Section Generic.

Variable R : World -> World -> Prop.

Lemma related_ret {A B} (Q : A -> B -> Prop) (a : A) (b : B) :
  Q a b -> related R Q (ret a) (ret b).
Proof. intros H w1 w2 HR. simpl. auto. Qed.

Lemma related_lift {A} (r : Result A) : related R eq (lift r) (lift r).
Proof. intros w1 w2 HR. unfold lift. destruct r; auto. Qed.

Lemma related_bind {A1 A2 B1 B2} (Q : A1 -> A2 -> Prop)
      (Q' : B1 -> B2 -> Prop)
      (m1 : M A1) (m2 : M A2) (f1 : A1 -> M B1) (f2 : A2 -> M B2) :
  related R Q m1 m2 ->
  (forall a b, Q a b -> related R Q' (f1 a) (f2 b)) ->
  related R Q' (bind m1 f1) (bind m2 f2).
Proof.
  intros Hm Hf w1 w2 HR. unfold bind. specialize (Hm w1 w2 HR).
  destruct (m1 w1) as [[a|e1] w1'], (m2 w2) as [[b|e2] w2'];
    try contradiction.
  - destruct Hm as [HQ HR']. apply (Hf a b HQ w1' w2' HR').
  - assumption.
Qed.

Lemma related_try_catch {A B} (Q : A -> B -> Prop)
      (m1 : M A) (m2 : M B) (h1 : Exn -> M A) (h2 : Exn -> M B) :
  related R Q m1 m2 ->
  (forall e, related R Q (h1 e) (h2 e)) ->
  related R Q (try_catch m1 h1) (try_catch m2 h2).
Proof.
  intros Hm Hh w1 w2 HR. unfold try_catch. specialize (Hm w1 w2 HR).
  destruct (m1 w1) as [[a|e1] w1'], (m2 w2) as [[b|e2] w2'];
    try contradiction.
  - assumption.
  - destruct Hm as [<- HR']. apply (Hh e1 w1' w2' HR').
Qed.

Lemma related_for_each {A B} (xs : list A) (ys : list B)
      (body1 : A -> M unit) (body2 : B -> M unit) :
  Forall2 (fun x y => related R eq (body1 x) (body2 y)) xs ys ->
  related R eq (for_each xs body1) (for_each ys body2).
Proof.
  induction 1 as [|x y xs ys Hxy Hrest IH]; simpl.
  - apply related_ret. reflexivity.
  - eapply related_bind; [exact Hxy|]. intros _ _ _. exact IH.
Qed.

(** The engine, from its calls on the store and the transport. *)
Hypothesis record_related : forall u p d i,
    related R eq (record_reminder_sent u p d i) (record_reminder_sent u p d i).
Hypothesis send_related : forall c text,
    related R eq (send_message c text) (send_message c text).
Hypothesis processes_related : forall owner_name,
    related R (Forall2 same_process)
            (get_processes_for_owner owner_name)
            (get_processes_for_owner owner_name).
Hypothesis users_related : related R eq get_all_users get_all_users.
Hypothesis log_related : forall e,
    related R eq (emit (EvLog ReminderLoopError e))
            (emit (EvLog ReminderLoopError e)).

Lemma remind_process_same (now : datetime) (user : User) (p q : Process) :
  same_process p q ->
  remind_process now user p = remind_process now user q.
Proof.
  intros [Eid [En [Eo [Ep Ed]]]].
  unfold remind_process, remind_slot. rewrite Eid, En, Ep, Ed. reflexivity.
Qed.

Lemma remind_slot_related now user p target_date deadline_dt slot :
  related R eq (remind_slot now user p target_date deadline_dt slot)
          (remind_slot now user p target_date deadline_dt slot).
Proof.
  unfold remind_slot. destruct slot as [idx minutes_before].
  destruct (deadline_dt - timedelta_minutes minutes_before <=? now).
  - eapply related_bind; [apply record_related|].
    intros a b <-. destruct a.
    + apply send_related.
    + apply related_ret. reflexivity.
  - apply related_ret. reflexivity.
Qed.

Lemma Forall2_diag {A} (P : A -> A -> Prop) (l : list A) :
  (forall x, P x x) -> Forall2 P l l.
Proof. intros H. induction l; constructor; auto. Qed.

Lemma remind_process_related now user p :
  related R eq (remind_process now user p) (remind_process now user p).
Proof.
  unfold remind_process.
  eapply related_bind; [apply related_lift|]. intros d _ <-.
  destruct (d <=? now).
  - apply related_ret. reflexivity.
  - apply related_for_each. apply Forall2_diag.
    intros slot. apply remind_slot_related.
Qed.

Lemma remind_user_related now user :
  related R eq (remind_user now user) (remind_user now user).
Proof.
  unfold remind_user.
  eapply related_bind; [apply processes_related|].
  intros l1 l2 HF.
  assert (Each : Forall2 (fun p q => related R eq (remind_process now user p)
                                             (remind_process now user q))
                         l1 l2).
  { induction HF as [|p q l1 l2 Hpq _ IH]; constructor; [|assumption].
    rewrite <- (remind_process_same now user p q Hpq).
    apply remind_process_related. }
  destruct HF as [|p q l1 l2 Hpq HF].
  - apply related_ret. reflexivity.
  - apply related_for_each. assumption.
Qed.

Lemma tick_related now : related R eq (tick now) (tick now).
Proof.
  unfold tick. apply related_try_catch.
  - eapply related_bind; [apply users_related|].
    intros us _ <-. apply related_for_each. apply Forall2_diag.
    intros u. apply remind_user_related.
  - apply log_related.
Qed.

Lemma reminders_loop_related clock :
  related R eq (reminders_loop clock) (reminders_loop clock).
Proof.
  induction clock as [|now later IH]; simpl.
  - apply related_ret. reflexivity.
  - eapply related_bind; [apply tick_related|]. intros _ _ _. exact IH.
Qed.

End Generic.

End RelationalFacts.
Export RelationalFacts.

(* ================================================================== *)
(** ** The engine does not depend on the transport, nor on the stored lead
       times *)

Module IndependenceFacts.



Lemma store_call_run (w : World) :
  let w1 := snd (store_call w) in
  fst (store_call w)
  = (if next_store_fault w then Raise StoreError else Ok tt)
  /\ store w1 = store w /\ trace w1 = trace w
  /\ store_faults w1 = tl (store_faults w)
  /\ transport_faults w1 = transport_faults w.
Proof.
  unfold store_call, next_store_fault.
  destruct (store_faults w) as [|[|] rest] eqn:E; simpl; rewrite ?E;
    repeat split; reflexivity.
Qed.

(** A read of the store: one call on the connection, then a value computed
    from the store. *)
Lemma read_related (R : World -> World -> Prop) {A} (Q : A -> A -> Prop)
      (f : Store -> A) :
  (forall w1 w2, R w1 w2 ->
     next_store_fault w1 = next_store_fault w2
     /\ Q (f (store w1)) (f (store w2))
     /\ R (snd (store_call w1)) (snd (store_call w2))) ->
  related R Q (store_call ;;; s <- get_store ;; ret (f s))
          (store_call ;;; s <- get_store ;; ret (f s)).
Proof.
  intros H w1 w2 HR. destruct (H w1 w2 HR) as [Hf [HQ HR']].
  unfold bind, get_store, ret.
  destruct (store_call_run w1) as [E1 [Es1 _]].
  destruct (store_call_run w2) as [E2 [Es2 _]].
  destruct (store_call w1) as [r1 w1'], (store_call w2) as [r2 w2'].
  cbn [fst snd] in *. subst r1 r2. rewrite <- Hf.
  destruct (next_store_fault w1).
  - split; [reflexivity | assumption].
  - rewrite Es1, Es2. split; assumption.
Qed.

Lemma next_store_fault_same (w1 w2 : World) :
  store_faults w1 = store_faults w2 ->
  next_store_fault w1 = next_store_fault w2.
Proof. unfold next_store_fault. intros ->. reflexivity. Qed.

Lemma next_transport_fault_same (w1 w2 : World) :
  transport_faults w1 = transport_faults w2 ->
  next_transport_fault w1 = next_transport_fault w2.
Proof. unfold next_transport_fault. intros ->. reflexivity. Qed.

(** *** Worlds that differ in the failures of the transport *)









(** *** Worlds that differ in the stored lead times *)

Lemma same_process_filter (owner_name : pystr) (l1 l2 : list Process) :
  Forall2 same_process l1 l2 ->
  Forall2 same_process
          (filter (fun p => str_eqb (p_owner_name p) owner_name) l1)
          (filter (fun p => str_eqb (p_owner_name p) owner_name) l2).
Proof.
  induction 1 as [|p q l1 l2 Hpq _ IH]; [constructor|].
  cbn [filter]. destruct Hpq as [Eid [En [Eo Erest]]]. rewrite <- Eo.
  destruct (str_eqb (p_owner_name p) owner_name); [constructor|]; auto.
  repeat split; tauto.
Qed.

Lemma same_process_insert (p q : Process) (l1 l2 : list Process) :
  same_process p q -> Forall2 same_process l1 l2 ->
  Forall2 same_process (insert_by p_id p l1) (insert_by p_id q l2).
Proof.
  intros Hpq. induction 1 as [|x y l1 l2 Hxy Hrest IH]; cbn [insert_by].
  - constructor; [assumption | constructor].
  - destruct Hpq as [Eid Ep], Hxy as [Exy Ex]. rewrite <- Eid, <- Exy.
    destruct (p_id p <? p_id x).
    + constructor; [split; assumption|].
      constructor; [split; assumption | assumption].
    + constructor; [split; assumption | apply IH].
Qed.

Lemma same_process_order (l1 l2 : list Process) :
  Forall2 same_process l1 l2 ->
  Forall2 same_process (order_by p_id l1) (order_by p_id l2).
Proof.
  induction 1 as [|p q l1 l2 Hpq _ IH]; cbn [order_by]; [constructor|].
  apply same_process_insert; assumption.
Qed.

Lemma lead_store_call (w1 w2 : World) :
  same_but_lead_times w1 w2 ->
  same_but_lead_times (snd (store_call w1)) (snd (store_call w2)).
Proof.
  intros [Eu [Ep [El [Et [Ef Etf]]]]].
  destruct (store_call_run w1) as [_ [Es1 [Et1 [Ef1 Etf1]]]].
  destruct (store_call_run w2) as [_ [Es2 [Et2 [Ef2 Etf2]]]].
  unfold same_but_lead_times, logs in *.
  rewrite Es1, Es2, Et1, Et2, Ef1, Ef2, Etf1, Etf2, Ef.
  repeat split; assumption.
Qed.

Lemma lead_record u p d i :
  related same_but_lead_times eq (record_reminder_sent u p d i)
          (record_reminder_sent u p d i).
Proof.
  intros w1 w2 [Eu [Ep [El [Et [Ef Etf]]]]].
  pose proof (record_reminder_sent_run u p d i w1) as O1.
  pose proof (record_reminder_sent_run u p d i w2) as O2.
  pose proof (next_store_fault_same _ _ Ef) as Hf.
  destruct (record_reminder_sent u p d i w1) as [r1 w1'].
  destruct (record_reminder_sent u p d i w2) as [r2 w2'].
  cbn [fst snd] in O1, O2.
  destruct O1 as [w1' F1 S1 T1 TF1 SF1 | w1' F1 I1 S1 T1 TF1 SF1
                  | w1' F1 I1 S1 T1 TF1 SF1];
    destruct O2 as [w2' F2 S2 T2 TF2 SF2 | w2' F2 I2 S2 T2 TF2 SF2
                    | w2' F2 I2 S2 T2 TF2 SF2];
    try congruence;
    (split; [reflexivity|]); unfold same_but_lead_times, logs in *;
    rewrite S1, S2, T1, T2, TF1, TF2, SF1, SF2, ?Et, ?Ef;
    cbn [users processes reminder_logs]; rewrite ?El;
    repeat split; assumption.
Qed.

Lemma lead_send c text :
  related same_but_lead_times eq (send_message c text) (send_message c text).
Proof.
  intros w1 w2 [Eu [Ep [El [Et [Ef Etf]]]]].
  destruct (send_message_run c text w1) as [w1' [E1 [S1 [SF1 [TF1 T1]]]]].
  destruct (send_message_run c text w2) as [w2' [E2 [S2 [SF2 [TF2 T2]]]]].
  rewrite E1, E2. split; [reflexivity|].
  unfold same_but_lead_times, logs in *.
  rewrite S1, S2, SF1, SF2, TF1, TF2, T1, T2, Et, Etf,
    (next_transport_fault_same _ _ Etf).
  repeat split; assumption.
Qed.

Lemma lead_processes owner_name :
  related same_but_lead_times (Forall2 same_process)
          (get_processes_for_owner owner_name)
          (get_processes_for_owner owner_name).
Proof.
  unfold get_processes_for_owner.
  apply (read_related same_but_lead_times (Forall2 same_process)
           (fun s => order_by p_id
                       (filter (fun p => str_eqb (p_owner_name p) owner_name)
                               (processes s)))).
  intros w1 w2 HR. pose proof HR as [Eu [Ep [El [Et [Ef Etf]]]]].
  split; [apply next_store_fault_same; assumption|]. split.
  - apply same_process_order, same_process_filter. assumption.
  - apply lead_store_call. assumption.
Qed.

Lemma lead_users :
  related same_but_lead_times eq get_all_users get_all_users.
Proof.
  unfold get_all_users.
  apply (read_related same_but_lead_times eq
           (fun s => order_by u_id (users s))).
  intros w1 w2 HR. pose proof HR as [Eu [Ep [El [Et [Ef Etf]]]]].
  split; [apply next_store_fault_same; assumption|]. split.
  - rewrite Eu. reflexivity.
  - apply lead_store_call. assumption.
Qed.

Lemma lead_log e :
  related same_but_lead_times eq (emit (EvLog ReminderLoopError e))
          (emit (EvLog ReminderLoopError e)).
Proof.
  intros w1 w2 [Eu [Ep [El [Et [Ef Etf]]]]]. unfold emit.
  split; [reflexivity|].
  unfold same_but_lead_times, logs in *.
  cbn [store trace store_faults transport_faults]. rewrite Et.
  repeat split; assumption.
Qed.

Lemma reminders_loop_same_but_lead_times clock :
  related same_but_lead_times eq (reminders_loop clock)
          (reminders_loop clock).
Proof.
  apply reminders_loop_related.
  - apply lead_record.
  - apply lead_send.
  - apply lead_processes.
  - apply lead_users.
  - apply lead_log.
Qed.

(** Two related runs of the same code end the same way. *)
Lemma related_run (R : World -> World -> Prop) {A} (m : M A)
      (w1 w2 : World) :
  related R eq m m -> R w1 w2 ->
  fst (m w1) = fst (m w2) /\ R (snd (m w1)) (snd (m w2)).
Proof.
  intros Hm HR. specialize (Hm w1 w2 HR).
  destruct (m w1) as [[a|e1] w1'], (m w2) as [[b|e2] w2'];
    try contradiction; destruct Hm as [-> HR']; split; auto.
Qed.


End IndependenceFacts.
Export IndependenceFacts.

(* ================================================================== *)
(** ** What every trace of the engine satisfies *)

Module RunFacts.

Section Run.

Variable us : list User.
Variable ps : list Process.
Variable clock : list datetime.

Record run_facts (l : list LogRow) (t : list Event) (l' : list LogRow)
  : Prop := {
  rf_log : l' = l ++ new_records t;
  rf_fresh : forall row, In row (new_records t) -> ~ In row l;
  rf_nodup : NoDup (new_records t);
  rf_guarded : guarded false t = true;
  rf_dispatched : forall row, In row (dispatched t) -> In row (new_records t);
  rf_once : NoDup (dispatched t);
  rf_posts : posts t = List.length (dispatched t);
  rf_justified : forall row b, In (EvRecord row b) t -> justified us ps clock row
}.

Lemma engine_run_facts l t l' :
  engine_run us ps clock l t l' -> run_facts l t l'.
Proof.
  induction 1 as [l | l row Hin J | l row c txt Hnew J
                  | l row c txt e Hnew J | l e
                  | l0 t1 l1 t2 l2 R1 F1 R2 F2].
  - constructor; simpl; try tauto; try constructor.
    symmetry. apply app_nil_r.
  - constructor; simpl; try tauto; try constructor.
    + symmetry. apply app_nil_r.
    + intros r b [E | []]. inversion E; subst. assumption.
  - constructor; simpl; try tauto.
    + intros r [<- | []]. assumption.
    + constructor; [tauto | constructor].
    + constructor; [simpl; tauto | constructor].
    + intros r b [E | [E | []]]; inversion E; subst. assumption.
  - constructor; simpl; try tauto.
    + intros r [<- | []]. assumption.
    + constructor; [tauto | constructor].
    + constructor; [simpl; tauto | constructor].
    + intros r b [E | [E | [E | []]]]; inversion E; subst. assumption.
  - constructor; simpl; try tauto; try constructor.
    + symmetry. apply app_nil_r.
    + intros r b [E | []]. inversion E.
  - destruct F1 as [L1 Fr1 N1 G1 D1 O1 P1 J1].
    destruct F2 as [L2 Fr2 N2 G2 D2 O2 P2 J2].
    assert (Disj : forall row, In row (new_records t1) ->
                               ~ In row (new_records t2)).
    { intros row H1 H2. apply (Fr2 row H2). rewrite L1.
      apply in_or_app. right. assumption. }
    assert (Dsp : dispatched (t1 ++ t2) = dispatched t1 ++ dispatched t2).
    { unfold dispatched. apply dispatched_from_app. assumption. }
    constructor.
    + rewrite L2, L1, new_records_app, app_assoc. reflexivity.
    + intros row Hin. rewrite new_records_app in Hin.
      apply in_app_or in Hin. destruct Hin as [H1 | H2].
      * apply Fr1. assumption.
      * intros Hl. apply (Fr2 row H2). rewrite L1.
        apply in_or_app. left. assumption.
    + rewrite new_records_app. apply NoDup_app; assumption.
    + apply guarded_app; assumption.
    + intros row Hin. rewrite Dsp in Hin. rewrite new_records_app.
      apply in_app_or in Hin. apply in_or_app. destruct Hin; auto.
    + rewrite Dsp. apply NoDup_app; try assumption.
      intros row H1 H2. apply (Disj row); auto.
    + rewrite posts_app, Dsp, length_app, P1, P2. reflexivity.
    + intros row b Hin. apply in_app_or in Hin. destruct Hin; eauto.
Qed.

End Run.

(** The events of any number of turns of the loop, from any world. *)
Lemma reminders_loop_run (clock : list datetime) (w : World) :
  let w' := snd (reminders_loop clock w) in
  users (store w') = users (store w)
  /\ processes (store w') = processes (store w)
  /\ trace w' = trace w ++ new_events w w'
  /\ run_facts (users (store w)) (processes (store w)) clock
               (logs w) (new_events w w') (logs w').
Proof.
  intros w'.
  destruct (preserves_reminders_loop (users (store w)) (processes (store w))
              clock clock (incl_refl _) w (conj eq_refl eq_refl))
    as [[Iu Ip] [t [Et R]]].
  fold w' in Iu, Ip, Et, R.
  rewrite (new_events_app _ _ _ Et).
  split; [assumption|]. split; [assumption|]. split; [assumption|].
  apply engine_run_facts. assumption.
Qed.

Lemma tick_run (now : datetime) (w : World) :
  let w' := snd (tick now w) in
  users (store w') = users (store w)
  /\ processes (store w') = processes (store w)
  /\ trace w' = trace w ++ new_events w w'
  /\ run_facts (users (store w)) (processes (store w)) [now]
               (logs w) (new_events w w') (logs w').
Proof.
  intros w'.
  destruct (preserves_tick (users (store w)) (processes (store w))
              [now] now (or_introl eq_refl) w (conj eq_refl eq_refl))
    as [[Iu Ip] [t [Et R]]].
  fold w' in Iu, Ip, Et, R.
  rewrite (new_events_app _ _ _ Et).
  split; [assumption|]. split; [assumption|]. split; [assumption|].
  apply engine_run_facts. assumption.
Qed.

End RunFacts.
Export RunFacts.

(* ================================================================== *)
(** ** The reminder engine: dispatch at most once, recorded before sent,
       skipped from the deadline on, slots in the order of the offsets *)

Module EngineClaims.

Lemma row_eta (row : LogRow) :
  {| user_id := user_id row; process_id := process_id row;
     deadline_date := deadline_date row;
     reminder_idx := reminder_idx row |} = row.
Proof. destruct row. reflexivity. Qed.

(** Once a call of [record_reminder_sent] has returned, the row is in the
    log. *)
Lemma recorded_after_call (row : LogRow) (w w1 : World) (b : bool) :
  record_reminder_sent (user_id row) (process_id row) (deadline_date row)
                       (reminder_idx row) w = (Ok b, w1) ->
  In row (logs w1).
Proof.
  intros E.
  pose proof (record_reminder_sent_run (user_id row) (process_id row)
                (deadline_date row) (reminder_idx row) w) as Out.
  rewrite E, row_eta in Out. cbn [fst snd] in Out.
  inversion Out as [w2 Hf Es Et _ _ | w2 Hf Hin Es Et _ _
                    | w2 Hf Hnew Es Et _ _]; subst.
  - unfold logs. rewrite Es. assumption.
  - unfold logs. rewrite Es. cbn [reminder_logs].
    apply in_or_app. right. left. reflexivity.
Qed.

(** A call for a row that is in the log does not report an insertion, and
    reports that the row was there if the store answers. *)
Lemma known_row_not_inserted (row : LogRow) (w : World) :
  In row (logs w) ->
  let r := fst (record_reminder_sent (user_id row) (process_id row)
                  (deadline_date row) (reminder_idx row) w) in
  r <> Ok true /\ (next_store_fault w = false -> r = Ok false).
Proof.
  intros Hin r.
  pose proof (record_reminder_sent_run (user_id row) (process_id row)
                (deadline_date row) (reminder_idx row) w) as Out.
  rewrite row_eta in Out. fold r in Out.
  destruct Out as [w2 Hf _ _ _ _ | w2 Hf _ _ _ _ _ | w2 Hf Hnew _ _ _ _].
  - split; [discriminate | congruence].
  - split; [discriminate | reflexivity].
  - contradiction.
Qed.

(** C1: whatever the clock readings of the turns of the loop (equal readings
    included), whatever the store and the failures, at most one reminder is
    handed to the transport for a (user, process, date, slot) identity; every
    POST of the engine comes right after [record_reminder_sent] reported a
    new row, and none is made for a row that was in the log before; once a
    call of [record_reminder_sent] has returned, every later call for the
    same identity does not report an insertion (it returns false when the
    store answers). *)
Theorem reminder_dispatched_at_most_once
        (clock : list datetime) (w : World) (row : LogRow) :
  let t := new_events w (snd (reminders_loop clock w)) in
  (count_occ LogRow_eq_dec (dispatched t) row <= 1)%nat
  /\ posts t = List.length (dispatched t)
  /\ guarded false t = true
  /\ (In row (logs w) -> ~ In row (dispatched t))
  /\ (forall b w1 later,
        record_reminder_sent (user_id row) (process_id row)
                             (deadline_date row) (reminder_idx row) w
        = (Ok b, w1) ->
        let w2 := snd (reminders_loop later w1) in
        let again := fst (record_reminder_sent
                            (user_id row) (process_id row)
                            (deadline_date row) (reminder_idx row) w2) in
        again <> Ok true
        /\ (next_store_fault w2 = false -> again = Ok false)).
Proof.
  intros t.
  destruct (reminders_loop_run clock w) as [_ [_ [_ F]]]. fold t in F.
  destruct F as [L Fr N G D O P J].
  split; [|split; [|split; [|split]]].
  - apply NoDup_count_occ. assumption.
  - assumption.
  - assumption.
  - intros Hin Hd. apply (Fr row); auto.
  - intros b w1 later E w2.
    apply known_row_not_inserted.
    destruct (reminders_loop_run later w1) as [_ [_ [_ F2]]].
    destruct F2 as [L2 _ _ _ _ _ _ _]. fold w2 in L2. rewrite L2.
    apply in_or_app. left. eapply recorded_after_call. eassumption.
Qed.

(** C5: at every point of a run of the engine where a POST is issued, the
    event right before it is the report that the row of that reminder was
    newly inserted: the row was not in the log before, it is in the log when
    the POST is issued, and it stays there.  The rows of the log at the
    start, and the rows the trace reports as new, are all in the log of the
    store at the end. *)
Theorem recorded_before_delivered
        (clock : list datetime) (w : World)
        (pre post : list Event) (chat_id : Z) (text : pystr) (delivered : bool) :
  let w' := snd (reminders_loop clock w) in
  new_events w w' = pre ++ EvPost chat_id text delivered :: post ->
  incl (logs w ++ new_records (new_events w w')) (logs w')
  /\ exists pre' row,
       pre = pre' ++ [EvRecord row true]
       /\ ~ In row (logs w ++ new_records pre')
       /\ In row (logs w ++ new_records pre)
       /\ In row (logs w').
Proof.
  intros w' E.
  destruct (reminders_loop_run clock w) as [_ [_ [_ F]]]. fold w' in F.
  destruct F as [L Fr N G _ _ _ _].
  split; [rewrite L; apply incl_refl|].
  rewrite E in G, N, Fr, L.
  destruct (guarded_split _ _ _ _ _ _ G) as [[_ Hb] | [pre' [row Hpre]]];
    [discriminate|].
  exists pre', row. subst pre.
  rewrite <- app_assoc in N, Fr, L. rewrite new_records_app in N, Fr, L.
  cbn [app new_records] in N, Fr, L.
  split; [reflexivity|]. split; [|split].
  - intros Hin. apply in_app_or in Hin. destruct Hin as [Hl | Hp].
    + apply (Fr row); [|assumption]. apply in_or_app. right. left. reflexivity.
    + apply NoDup_remove_2 in N. apply N. apply in_or_app. left. assumption.
  - rewrite new_records_app. cbn [new_records].
    apply in_or_app. right. apply in_or_app. right. left. reflexivity.
  - rewrite L. apply in_or_app. right. apply in_or_app. right.
    left. reflexivity.
Qed.

Lemma recorded_before_delivered_witness :
  exists pre' row,
    [EvRecord (scenario_A_row 1) true]
    = pre' ++ [EvRecord row true]
    /\ In row (logs (snd (reminders_loop scenario_A_clock scenario_A_world))).
Proof.
  destruct (recorded_before_delivered scenario_A_clock scenario_A_world
              [EvRecord (scenario_A_row 1) true]
              (skipn 2 (new_events scenario_A_world
                          (snd (reminders_loop scenario_A_clock
                                               scenario_A_world))))
              1001
              (py "Напоминание: Заполнить таблицу показателей (дедлайн 23:59, ежедневно (конец дня)). Осталось через 2 ч 0 мин.")
              true)
    as [_ [pre' [row [E [_ [_ Hin]]]]]].
  - vm_compute. reflexivity.
  - exists pre', row. split; assumption.
Defined.

Lemma reminder_dispatched_at_most_once_witness :
  (count_occ LogRow_eq_dec
     (dispatched (new_events scenario_A_world
                    (snd (reminders_loop scenario_A_clock scenario_A_world))))
     (scenario_A_row 1) <= 1)%nat
  /\ fst (record_reminder_sent 1 1 (py "2025-12-15") 1
            (snd (reminders_loop scenario_A_clock
                    (snd (record_reminder_sent 1 1 (py "2025-12-15") 1
                                               scenario_A_world)))))
     = Ok false.
Proof.
  destruct (reminder_dispatched_at_most_once
              scenario_A_clock scenario_A_world (scenario_A_row 1))
    as [H1 [_ [_ [_ H5]]]].
  split; [exact H1|].
  refine (proj2 (H5 true _ scenario_A_clock _) _); vm_compute; reflexivity.
Defined.

(** C2: when the reading [now] of a turn is at the deadline of the day of a
    process, or after it, the engine skips the process: the body of the loop
    over the processes returns at once and leaves the world as it is, and
    the whole turn neither calls [record_reminder_sent] for the process, nor
    adds a row of the process to the log, nor hands the transport a
    reminder of the process (ids of processes being unique). *)
Theorem no_reminder_from_deadline_on
        (now : datetime) (w : World) (user : User) (p : Process)
        (deadline_dt : datetime) :
  _deadline_datetime (combine (date_of now) 0) (p_deadline_time p)
  = Ok deadline_dt ->
  deadline_dt <= now ->
  remind_process now user p w = (Ok tt, w)
  /\ (In p (processes (store w)) ->
      (forall q, In q (processes (store w)) -> p_id q = p_id p -> q = p) ->
      let t := new_events w (snd (tick now w)) in
      (forall row b, In (EvRecord row b) t -> process_id row <> p_id p)
      /\ (forall row, In row (dispatched t) -> process_id row <> p_id p)
      /\ (forall row, In row (logs (snd (tick now w))) ->
                      process_id row = p_id p -> In row (logs w))).
Proof.
  intros Hd Hpassed. split.
  - unfold remind_process, bind, lift. rewrite Hd.
    destruct (Z.leb_spec deadline_dt now); [reflexivity | lia].
  - intros Hp Huniq t.
    destruct (tick_run now w) as [_ [_ [_ F]]]. fold t in F.
    destruct F as [L Fr N G D O P J].
    assert (NoRow : forall row, justified (users (store w))
                                          (processes (store w)) [now] row ->
                                process_id row <> p_id p).
    { intros row [now' [u' [p' [d' [m' Due]]]]] Eid.
      destruct Due as [Hnow _ Hp' _ _ Hpid _ Hd' Hpend _ _ _].
      destruct Hnow as [<- | []].
      assert (p' = p) by (apply Huniq; [assumption | congruence]).
      subst p'. rewrite Hd in Hd'. inversion Hd'; subst. lia. }
    assert (NoNew : forall row, In row (new_records t) ->
                                process_id row <> p_id p).
    { intros row Hin. apply NoRow. apply (J row true).
      clear - Hin. induction t as [|e t IH]; [contradiction|].
      destruct e as [r [|]| |]; simpl in *; intuition congruence. }
    split; [|split].
    + intros row b Hin. apply NoRow. eapply J. eassumption.
    + intros row Hin. apply NoNew. apply D. assumption.
    + intros row Hin Eid. rewrite L in Hin. apply in_app_or in Hin.
      destruct Hin as [Hl | Hn]; [assumption|].
      exfalso. exact (NoNew row Hn Eid).
Qed.

Lemma no_reminder_from_deadline_on_witness :
  remind_process (mk_datetime 2025 12 15 10 30) ivan fill_kops
                 (world_of {| users := [ivan]; processes := [fill_kops];
                              reminder_logs := [] |})
  = (Ok tt, world_of {| users := [ivan]; processes := [fill_kops];
                        reminder_logs := [] |})
  /\ forall row b,
       In (EvRecord row b)
          (new_events
             (world_of {| users := [ivan]; processes := [fill_kops];
                          reminder_logs := [] |})
             (snd (tick (mk_datetime 2025 12 15 10 30)
                        (world_of {| users := [ivan];
                                     processes := [fill_kops];
                                     reminder_logs := [] |})))) ->
       process_id row <> p_id fill_kops.
Proof.
  destruct (no_reminder_from_deadline_on
              (mk_datetime 2025 12 15 10 30)
              (world_of {| users := [ivan]; processes := [fill_kops];
                           reminder_logs := [] |})
              ivan fill_kops (mk_datetime 2025 12 15 10 30))
    as [Skip Turn].
  - vm_compute. reflexivity.
  - vm_compute. discriminate.
  - split; [exact Skip|].
    refine (proj1 (Turn _ _)).
    + left. reflexivity.
    + intros q [<- | []] _. reflexivity.
Defined.

(** C4: every row the engine hands to [record_reminder_sent], in any run,
    carries as slot index the 1-based position, in REMINDER_MINUTES, of the
    offset that made it due: the row is of a user and of a process of that
    user, for the date of the reading, the deadline is still ahead and the
    reading has reached the deadline less that offset; index 1 is the offset
    of 120 minutes and index 2 the offset of 60 minutes.  Scenario A:
    deadline 23:59; the turn at 21:59 records slot 1 and sends, the turn at
    22:00 finds slot 1 recorded and sends nothing, the turn at 22:59 finds
    slot 1 recorded, records slot 2 and sends. *)
Theorem slot_index_is_offset_position :
  (forall (clock : list datetime) (w : World) (row : LogRow) (b : bool),
     In (EvRecord row b) (new_events w (snd (reminders_loop clock w))) ->
     exists now user p deadline_dt minutes_before,
       due (users (store w)) (processes (store w)) clock
           row now user p deadline_dt minutes_before
       /\ ((reminder_idx row = 1 /\ minutes_before = 120)
           \/ (reminder_idx row = 2 /\ minutes_before = 60)))
  /\ (let w1 := snd (tick (mk_datetime 2025 12 15 21 59) scenario_A_world) in
      let w2 := snd (tick (mk_datetime 2025 12 15 22 0) w1) in
      let w3 := snd (tick (mk_datetime 2025 12 15 22 59) w2) in
      map summary (new_events scenario_A_world w1)
      = [Recorded (scenario_A_row 1) true; Posted 1001]
      /\ map summary (new_events w1 w2)
         = [Recorded (scenario_A_row 1) false]
      /\ map summary (new_events w2 w3)
         = [Recorded (scenario_A_row 1) false;
            Recorded (scenario_A_row 2) true; Posted 1001]
      /\ logs w3 = [scenario_A_row 1; scenario_A_row 2]).
Proof.
  split.
  - intros clock w row b Hin.
    destruct (reminders_loop_run clock w) as [_ [_ [_ F]]].
    destruct F as [_ _ _ _ _ _ _ J].
    destruct (J row b Hin) as [now [u [p [d [m Due]]]]].
    exists now, u, p, d, m. split; [assumption|].
    destruct Due as [_ _ _ _ _ _ _ _ _ Hidx Hslot _].
    unfold REMINDER_MINUTES in Hslot.
    destruct (Z.to_nat (reminder_idx row - 1)) as [|[|n]] eqn:En;
      simpl in Hslot.
    + left. inversion Hslot. split; lia.
    + right. inversion Hslot. split; lia.
    + destruct n; discriminate.
  - vm_compute. repeat split; reflexivity.
Qed.

Lemma slot_index_is_offset_position_witness :
  exists now user p deadline_dt minutes_before,
    due [kirill] [fill_table] scenario_A_clock
        (scenario_A_row 2) now user p deadline_dt minutes_before
    /\ ((reminder_idx (scenario_A_row 2) = 1 /\ minutes_before = 120)
        \/ (reminder_idx (scenario_A_row 2) = 2 /\ minutes_before = 60)).
Proof.
  refine (proj1 slot_index_is_offset_position
                scenario_A_clock scenario_A_world (scenario_A_row 2) true _).
  vm_compute. do 4 right. left. reflexivity.
Defined.

End EngineClaims.

(* ================================================================== *)
(** ** The offsets the engine evaluates, and the failures it isolates *)

Module IndependenceClaims.

(** C3 (as amended): the offsets the engine evaluates are those of the list
    REMINDER_MINUTES, 120 and 60 minutes, the same for every process; the
    lead times stored with a process are not consulted.  Two runs of the
    loop on stores that differ in the stored lead times only end the same
    way, with the same events and the same log; and every row the engine
    hands to [record_reminder_sent] is due by an offset of REMINDER_MINUTES. *)
Theorem lead_times_not_consulted :
  (forall (clock : list datetime) (w1 w2 : World),
      same_but_lead_times w1 w2 ->
      fst (reminders_loop clock w1) = fst (reminders_loop clock w2)
      /\ same_but_lead_times (snd (reminders_loop clock w1))
                             (snd (reminders_loop clock w2)))
  /\ (forall (clock : list datetime) (w : World) (row : LogRow) (b : bool),
        In (EvRecord row b) (new_events w (snd (reminders_loop clock w))) ->
        exists now user p deadline_dt minutes_before,
          due (users (store w)) (processes (store w)) clock
              row now user p deadline_dt minutes_before
          /\ In minutes_before REMINDER_MINUTES).
Proof.
  split.
  - intros clock w1 w2 HR.
    apply (related_run same_but_lead_times (reminders_loop clock));
      [apply reminders_loop_same_but_lead_times | assumption].
  - intros clock w row b Hin.
    destruct (reminders_loop_run clock w) as [_ [_ [_ F]]].
    destruct F as [_ _ _ _ _ _ _ J].
    destruct (J row b Hin) as [now [u [p [d [m Due]]]]].
    exists now, u, p, d, m. split; [assumption|].
    destruct Due as [_ _ _ _ _ _ _ _ _ _ Hslot _].
    eapply nth_error_In. eassumption.
Qed.

Lemma lead_times_not_consulted_witness :
  same_but_lead_times
    (snd (reminders_loop [mk_datetime 2025 12 15 9 0] (ivan_world fill_kops)))
    (snd (reminders_loop [mk_datetime 2025 12 15 9 0]
                         (ivan_world fill_kops_short_notice)))
  /\ exists now user p deadline_dt minutes_before,
       due [ivan] [fill_kops] [mk_datetime 2025 12 15 9 0]
           (ivan_row 1) now user p deadline_dt minutes_before
       /\ In minutes_before REMINDER_MINUTES.
Proof.
  destruct lead_times_not_consulted as [Same Due].
  split.
  - refine (proj2 (Same [mk_datetime 2025 12 15 9 0] (ivan_world fill_kops)
                        (ivan_world fill_kops_short_notice) _)).
    vm_compute. repeat split; try reflexivity.
    constructor; [repeat split | constructor].
  - refine (Due [mk_datetime 2025 12 15 9 0] (ivan_world fill_kops)
                (ivan_row 1) true _).
    vm_compute. left. reflexivity.
Defined.

(** C3 (as stated) fails.  The process "Заполнить КОПы" is stored with the
    lead times 720 and 120 minutes and the deadline 10:30.  At 00:00 its own
    first lead time is reached and the deadline is ahead, yet the engine
    records nothing and sends nothing; at 09:30 the engine records slot 2,
    by the offset of 60 minutes, which is not a lead time of the process;
    and the process stored with the lead times 30 and 10 is reminded at the
    same instants. *)
Lemma own_lead_times_are_ignored :
  own_lead_times fill_kops = [720; 120]
  /\ _deadline_datetime (mk_datetime 2025 12 15 0 0) (p_deadline_time fill_kops)
     = Ok (mk_datetime 2025 12 15 10 30)
  /\ mk_datetime 2025 12 15 10 30 - timedelta_minutes 720
     <= mk_datetime 2025 12 15 0 0 < mk_datetime 2025 12 15 10 30
  /\ trace (snd (tick (mk_datetime 2025 12 15 0 0) (ivan_world fill_kops))) = []
  /\ logs (snd (tick (mk_datetime 2025 12 15 0 0) (ivan_world fill_kops))) = []
  /\ map summary
         (trace (snd (reminders_loop [mk_datetime 2025 12 15 8 30;
                                      mk_datetime 2025 12 15 9 30]
                                     (ivan_world fill_kops))))
     = [Recorded (ivan_row 1) true; Posted 1002;
        Recorded (ivan_row 1) false; Recorded (ivan_row 2) true; Posted 1002]
  /\ own_lead_times fill_kops_short_notice = [30; 10]
  /\ trace (snd (reminders_loop [mk_datetime 2025 12 15 8 30;
                                 mk_datetime 2025 12 15 9 30]
                                (ivan_world fill_kops_short_notice)))
     = trace (snd (reminders_loop [mk_datetime 2025 12 15 8 30;
                                   mk_datetime 2025 12 15 9 30]
                                  (ivan_world fill_kops))).
Proof.
  repeat apply conj; try (vm_compute; reflexivity).
  - vm_compute. intuition discriminate.
Qed.












End IndependenceClaims.

(* ================================================================== *)
(** ** The response of the deadline check *)

Module CheckFacts.

(** With a store that answers, [build_check_response] reads the processes
    of the owner, renders them and leaves the world as it is. *)
Lemma build_check_response_run (now : datetime) (owner_name : pystr)
      (w : World) :
  store_faults w = [] ->
  let ps := order_by p_id
              (filter (fun p => str_eqb (p_owner_name p) owner_name)
                      (processes (store w))) in
  (ps = [] ->
   build_check_response now owner_name w
   = (Ok (py "Нет процессов для расчета."), w))
  /\ (forall lines,
        ps <> [] -> check_lines now ps = Ok lines ->
        build_check_response now owner_name w
        = (Ok (join (py "
") ((py "Проверка на " ++ strftime_dmY_HM now ++ py ":") :: lines)), w))
  /\ (forall e,
        ps <> [] -> check_lines now ps = Raise e ->
        build_check_response now owner_name w = (Raise e, w)).
Proof.
  intros Ef ps.
  unfold build_check_response, get_processes_for_owner, bind, store_call.
  rewrite Ef. cbn [get_store ret]. fold ps.
  destruct ps as [|p l]; repeat apply conj.
  - reflexivity.
  - intros lines N. congruence.
  - intros e N. congruence.
  - discriminate.
  - intros lines _ E. unfold lift. rewrite E. reflexivity.
  - intros e _ E. unfold lift. rewrite E. reflexivity.
Qed.

(** The lines are those of the processes, one for each, in their order. *)
Lemma check_lines_returned (now : datetime) (ps : list Process) :
  (forall p, In p ps ->
             exists d, _deadline_datetime now (p_deadline_time p) = Ok d) ->
  exists lines,
    check_lines now ps = Ok lines
    /\ Forall2 (fun p line => check_line now p = Ok line) ps lines.
Proof.
  induction ps as [|p ps IH]; intros H.
  - exists []. split; [reflexivity | constructor].
  - destruct (H p (or_introl eq_refl)) as [d Hd].
    destruct IH as [lines [El Hl]]; [intros q Hq; apply H; right; exact Hq|].
    assert (exists line, check_line now p = Ok line) as [line Eline]
      by (unfold check_line; rewrite Hd; eexists; reflexivity).
    exists (line :: lines). cbn [check_lines]. rewrite Eline, El.
    split; [reflexivity | constructor; assumption].
Qed.

Lemma check_command_is_no_other (s : pystr) :
  startswith s (py "/check") = true ->
  startswith s (py "/start") = false /\ startswith s (py "/my") = false.
Proof.
  change (py "/check") with ([47; 99; 104; 101; 99; 107]%N).
  change (py "/start") with ([47; 115; 116; 97; 114; 116]%N).
  change (py "/my") with ([47; 109; 121]%N).
  destruct s as [|c0 [|c1 r]]; try discriminate; cbn [startswith].
  - rewrite andb_false_r. discriminate.
  - intros H. apply andb_true_iff in H. destruct H as [_ H].
    apply andb_true_iff in H. destruct H as [H _].
    apply N.eqb_eq in H. subst c1. cbn [N.eqb Pos.eqb].
    rewrite !andb_false_r. split; reflexivity.
Qed.

End CheckFacts.
Export CheckFacts.

(* ================================================================== *)
(** ** The chat handler and the deadline check *)

Module HandlerFacts.

Lemma get_user_run (telegram_id : Z) (w : World) :
  next_store_fault w = false ->
  exists w1,
    get_user telegram_id w
    = (Ok (find (fun u => u_telegram_id u =? telegram_id) (users (store w))),
       w1)
    /\ store w1 = store w /\ trace w1 = trace w
    /\ transport_faults w1 = transport_faults w.
Proof.
  unfold next_store_fault, get_user, bind, store_call, get_store, ret.
  destruct (store_faults w) as [|[|] rest]; intros Hf; try discriminate;
    eexists; (split; [reflexivity|]); repeat split; reflexivity.
Qed.

Lemma send_after_get_user (message : Message) (w w1 : World) (text : pystr) :
  store w1 = store w -> trace w1 = trace w ->
  transport_faults w1 = transport_faults w ->
  exists w',
    send_message (chat_id message) text w1 = (Ok tt, w')
    /\ store w' = store w
    /\ new_events w w'
       = send_events (chat_id message) text (next_transport_fault w).
Proof.
  intros Es Et Ef.
  destruct (send_message_run (chat_id message) text w1)
    as [w' [E [Es' [_ [_ Et']]]]].
  exists w'. split; [assumption|]. split; [congruence|].
  apply new_events_app. rewrite Et', Et.
  unfold next_transport_fault. rewrite Ef. reflexivity.
Qed.

(** C8 (as amended): a registered user whose text, blanks stripped, starts
    with none of /start, /my and /check is answered with the help text; a
    text that starts with /start is answered with the onboarding prompt
    whoever sends it, registered or not, and the store is left as it is, so
    that an unregistered sender stays unregistered. *)
Theorem help_unless_command (message : Message) (w : World) :
  next_store_fault w = false ->
  (forall user,
      registered_as w message = Some user ->
      startswith (text_of message) (py "/start") = false ->
      startswith (text_of message) (py "/my") = false ->
      startswith (text_of message) (py "/check") = false ->
      replies message w (build_help true))
  /\ (startswith (text_of message) (py "/start") = true ->
      replies message w ONBOARDING).
Proof.
  intros Hf.
  destruct (get_user_run (from_id message) w Hf)
    as [w1 [Eg [Es [Et Etf]]]].
  split.
  - intros user Hreg Hstart Hmy Hcheck.
    unfold replies, handle_message, bind. rewrite Eg.
    fold (text_of message). rewrite Hstart.
    unfold registered_as in Hreg. rewrite Hreg, Hmy, Hcheck.
    apply send_after_get_user; assumption.
  - intros Hstart.
    unfold replies, handle_message, bind. rewrite Eg.
    fold (text_of message). rewrite Hstart.
    apply send_after_get_user; assumption.
Qed.

Lemma help_unless_command_witness :
  replies (text_from 1001 "/status") registered_world (build_help true)
  /\ replies (text_from 4004 " /start ") registered_world ONBOARDING.
Proof.
  destruct (help_unless_command (text_from 1001 "/status") registered_world)
    as [Help _]; [reflexivity|].
  destruct (help_unless_command (text_from 4004 " /start ") registered_world)
    as [_ Start]; [reflexivity|].
  split.
  - apply (Help kirill); vm_compute; reflexivity.
  - apply Start. vm_compute. reflexivity.
Defined.

(** C8 (as stated) fails: a registered user who sends /start is answered
    with the onboarding prompt, which is not the help text. *)
Lemma registered_start_is_not_help :
  registered_as registered_world (text_from 1001 "/start") = Some kirill
  /\ new_events registered_world
       (snd (handle_message (text_from 1001 "/start") registered_world))
     = [EvPost 1001 ONBOARDING true]
  /\ ONBOARDING <> build_help true.
Proof.
  split; [reflexivity|]. split; [vm_compute; reflexivity|].
  vm_compute. discriminate.
Qed.

Lemma deadline_of_midnight (now : datetime) (hhmm : pystr) :
  _deadline_datetime (combine (date_of now) 0) hhmm
  = _deadline_datetime now hhmm.
Proof. unfold _deadline_datetime. rewrite date_of_midnight. reflexivity. Qed.

Lemma check_lines_member (now : datetime) (p : Process) (line : pystr)
      (ps : list Process) (lines : list pystr) :
  check_line now p = Ok line -> check_lines now ps = Ok lines ->
  In p ps -> In line lines.
Proof.
  intros El. revert lines. induction ps as [|q ps IH]; intros lines E Hin.
  - contradiction.
  - simpl in E. destruct (check_line now q) as [lq|] eqn:Eq; [|discriminate].
    destruct (check_lines now ps) as [ls|]; [|discriminate].
    inversion E; subst. destruct Hin as [-> | Hin].
    + left. congruence.
    + right. apply IH; [reflexivity | assumption].
Qed.

(** C10: when the instant handed to the deadline check is exactly the
    deadline of a process, the check takes the branch that is not overdue and
    reports "успеваете, осталось 0 мин": the line is in every response built
    for a list holding the process, it is a line of the response
    [build_check_response] returns for the owner of the process, and of the
    reply the handler sends to a registered owner whose /check command gives
    that instant; whereas the reminder engine, at the same instant, skips
    the process. *)
Theorem deadline_instant_is_on_time
        (now : datetime) (user : User) (p : Process) (w : World) :
  _deadline_datetime now (p_deadline_time p) = Ok now ->
  let line := py "• " ++ p_name p ++ py " — дедлайн " ++ p_deadline_time p
              ++ py " — " ++ py "✅ успеваете, осталось 0 мин" in
  check_line now p = Ok line
  /\ (forall ps lines, check_lines now ps = Ok lines -> In p ps ->
                       In line lines)
  /\ remind_process now user p w = (Ok tt, w)
  /\ (store_faults w = [] ->
      In p (processes (store w)) ->
      (forall q, In q (processes (store w)) ->
                 p_owner_name q = p_owner_name p ->
                 exists d, _deadline_datetime now (p_deadline_time q) = Ok d) ->
      exists header lines,
        build_check_response now (p_owner_name p) w
        = (Ok (join (py "
") (header :: lines)), w)
        /\ In line lines
        /\ forall message,
             registered_as w message = Some user ->
             u_name user = p_owner_name p ->
             startswith (text_of message) (py "/check") = true ->
             parse_check_datetime (text_of message) = Some now ->
             replies message w (join (py "
") (header :: lines))).
Proof.
  intros Hd line.
  assert (El : check_line now p = Ok line).
  { unfold check_line. rewrite Hd. rewrite Z.sub_diag.
    change (0 <=? 0) with true. cbv iota.
    assert (E : PyStr.replace (humanize_delta 0) (py "через ") (py "")
                = py "0 мин") by (vm_compute; reflexivity).
    rewrite E. reflexivity. }
  split; [assumption|]. split; [|split].
  - intros ps lines E Hin. eapply check_lines_member; eassumption.
  - unfold remind_process, bind, lift. rewrite deadline_of_midnight, Hd.
    rewrite Z.leb_refl. reflexivity.
  - intros Ef Hin Hall.
    destruct (build_check_response_run now (p_owner_name p) w Ef)
      as [_ [Run _]].
    set (ps := order_by p_id
                 (filter (fun q => str_eqb (p_owner_name q) (p_owner_name p))
                         (processes (store w)))) in *.
    assert (Hp : In p ps).
    { apply In_order_by, filter_In. split; [assumption|].
      apply str_eqb_eq. reflexivity. }
    assert (Hne : ps <> []) by (intros E; rewrite E in Hp; contradiction).
    destruct (check_lines_returned now ps) as [lines [Elines _]].
    { intros q Hq. apply In_order_by, filter_In in Hq.
      destruct Hq as [Hq Ho]. apply str_eqb_eq in Ho. auto. }
    specialize (Run lines Hne Elines).
    exists (py "Проверка на " ++ strftime_dmY_HM now ++ py ":"), lines.
    split; [exact Run|]. split.
    + eapply check_lines_member; eassumption.
    + intros message Hreg Hname Hcheck Hparse.
      destruct (check_command_is_no_other _ Hcheck) as [Hstart Hmy].
      assert (Eg : get_user (from_id message) w = (Ok (Some user), w)).
      { unfold get_user, bind, store_call. rewrite Ef.
        unfold registered_as in Hreg. cbn [get_store ret]. rewrite Hreg.
        reflexivity. }
      unfold replies, handle_message, bind. rewrite Eg.
      fold (text_of message). rewrite Hstart, Hmy, Hcheck, Hparse, Hname.
      rewrite Run.
      apply send_after_get_user; reflexivity.
Qed.

Lemma deadline_instant_is_on_time_witness :
  check_line (mk_datetime 2025 12 15 10 30) fill_kops
  = Ok (py "• " ++ p_name fill_kops ++ py " — дедлайн "
        ++ p_deadline_time fill_kops ++ py " — "
        ++ py "✅ успеваете, осталось 0 мин")
  /\ remind_process (mk_datetime 2025 12 15 10 30) ivan fill_kops
                    healthy_world
     = (Ok tt, healthy_world)
  /\ exists header lines,
       build_check_response (mk_datetime 2025 12 15 10 30)
                            (p_owner_name fill_kops) healthy_world
       = (Ok (join (py "
") (header :: lines)), healthy_world)
       /\ In (py "• " ++ p_name fill_kops ++ py " — дедлайн "
              ++ p_deadline_time fill_kops ++ py " — "
              ++ py "✅ успеваете, осталось 0 мин") lines
       /\ replies (text_from 1002 "/check 15.12.2025T10:30") healthy_world
                  (join (py "
") (header :: lines)).
Proof.
  destruct (deadline_instant_is_on_time
              (mk_datetime 2025 12 15 10 30) ivan fill_kops healthy_world)
    as [Line [_ [Skip Response]]].
  - vm_compute. reflexivity.
  - refine (conj Line (conj Skip _)).
    destruct Response as [header [lines [Eb [Hin Reply]]]].
    + reflexivity.
    + vm_compute. tauto.
    + intros q Hq Ho. vm_compute in Hq.
      destruct Hq as [<- | [<- | []]]; [discriminate Ho|].
      eexists. vm_compute. reflexivity.
    + exists header, lines. refine (conj Eb (conj Hin _)).
      apply Reply; vm_compute; reflexivity.
Defined.

(** C9 (as amended): for every valid date and time written with two digits
    for day, month, hour and minute and four for the year, '.', '/' and '-'
    are interchangeable between the fields of the date, and ',', 'T' and the
    blank are interchangeable between date and time: every such choice is
    parsed to the same datetime.  The delimiters of one group do not stand
    for those of the other: with ',', 'T' or a blank between two fields of
    the date, or with '.', '/' or '-' between date and time, the text is not
    parsed, whatever the digits and the other delimiters.  Whenever the
    parser fails on the text of a registered user that starts with /check,
    the user is sent the usage hint. *)
Theorem check_argument_delimiters :
  (forall (y m d H M : Z) (s1 s2 s3 : N),
      1 <= y <= 9999 -> 1 <= m <= 12 -> 1 <= d <= days_in_month y m ->
      0 <= H <= 23 -> 0 <= M <= 59 ->
      In s1 [46; 47; 45]%N -> In s2 [46; 47; 45]%N ->
      In s3 [44; 84; 32]%N ->
      parse_check_datetime
        (py "/check " ++ pad2 d ++ [s1] ++ pad2 m ++ [s2] ++ pad4 y
         ++ [s3] ++ pad2 H ++ py ":" ++ pad2 M)
      = Some (mk_datetime y m d H M))
  /\ (forall (y m d H M : Z) (s1 s2 s3 : N),
        In s1 [46; 47; 45; 44; 84; 32]%N ->
        In s2 [46; 47; 45; 44; 84; 32]%N ->
        In s3 [46; 47; 45; 44; 84; 32]%N ->
        In s1 [44; 84; 32]%N \/ In s2 [44; 84; 32]%N
        \/ In s3 [46; 47; 45]%N ->
        parse_check_datetime
          (py "/check " ++ pad2 d ++ [s1] ++ pad2 m ++ [s2] ++ pad4 y
           ++ [s3] ++ pad2 H ++ py ":" ++ pad2 M)
        = None)
  /\ (forall (message : Message) (w : World) (user : User),
        next_store_fault w = false ->
        registered_as w message = Some user ->
        startswith (text_of message) (py "/start") = false ->
        startswith (text_of message) (py "/my") = false ->
        startswith (text_of message) (py "/check") = true ->
        parse_check_datetime (text_of message) = None ->
        replies message w USAGE_HINT).
Proof.
  split; [|split].
  - intros y m d H M s1 s2 s3 Hy Hm Hd HH HM H1 H2 H3.
    assert (Ht : plain (pad2 H ++ py ":" ++ pad2 M) = true).
    { change (py ":") with [58%N].
      rewrite !plain_app, !plain_pad2. reflexivity. }
    assert (Nd : pad2 d <> []) by (unfold pad2; discriminate).
    assert (Nt : pad2 H ++ py ":" ++ pad2 M <> [])
      by (unfold pad2; discriminate).
    rewrite (parse_check_datetime_delimiters
               (pad2 d) (pad2 m) (pad4 y) (pad2 H ++ py ":" ++ pad2 M)
               s1 s2 s3 (plain_pad2 d) Nd (plain_pad2 m) (plain_pad4 y)
               Ht Nt H1 H2 H3).
    apply strptime_valid; assumption.
  - intros y m d H M s1 s2 s3 H1 H2 H3 Bad.
    apply parse_check_datetime_rejects; assumption.
  - intros message w user Hf Hreg Hstart Hmy Hcheck Hparse.
    destruct (get_user_run (from_id message) w Hf)
      as [w1 [Eg [Es [Et Etf]]]].
    unfold replies, handle_message, bind. rewrite Eg.
    fold (text_of message). rewrite Hstart.
    unfold registered_as in Hreg. rewrite Hreg, Hmy, Hcheck, Hparse.
    apply send_after_get_user; assumption.
Qed.

Lemma check_argument_delimiters_witness :
  parse_check_datetime (py "/check " ++ pad2 15 ++ [47%N] ++ pad2 12
                        ++ [46%N] ++ pad4 2025 ++ [84%N] ++ pad2 9
                        ++ py ":" ++ pad2 0)
  = Some (mk_datetime 2025 12 15 9 0)
  /\ parse_check_datetime (py "/check " ++ pad2 15 ++ [44%N] ++ pad2 12
                           ++ [46%N] ++ pad4 2025 ++ [84%N] ++ pad2 9
                           ++ py ":" ++ pad2 0)
     = None
  /\ replies (text_from 1001 "/check tomorrow") registered_world USAGE_HINT.
Proof.
  destruct check_argument_delimiters as [Parse [Reject Hint]].
  split; [|split].
  - apply Parse; vm_compute; intuition (try reflexivity; try discriminate).
  - apply Reject; vm_compute; tauto.
  - apply (Hint _ _ kirill); vm_compute; reflexivity.
Defined.

(** C9 (as stated) fails: the characters are not all interchangeable.  A
    comma between the fields of the date, or a dot between date and time,
    makes the parser fail on a valid date and time. *)
Lemma comma_in_date_is_rejected :
  parse_check_datetime (py "/check 15.12.2025 09:00")
  = Some (mk_datetime 2025 12 15 9 0)
  /\ parse_check_datetime (py "/check 15,12,2025 09:00") = None
  /\ parse_check_datetime (py "/check 15T12T2025 09:00") = None
  /\ parse_check_datetime (py "/check 15-12-2025.09:00") = None
  /\ parse_check_datetime (py "/check 15-12-2025/09:00") = None.
Proof. repeat apply conj; vm_compute; reflexivity. Qed.

End HandlerFacts.

(* ================================================================== *)
(** ** Composing effects *)

Module KeepsFacts.

Section Generic.

Variable P : World -> Prop.
Variable F : World -> World -> Prop.
Hypothesis F_refl : forall w, F w w.
Hypothesis F_trans : forall w1 w2 w3, F w1 w2 -> F w2 w3 -> F w1 w3.

Lemma keeps_ret {A} (a : A) : keeps P F (ret a).
Proof. intros w H. split; [assumption | apply F_refl]. Qed.

Lemma keeps_lift {A} (r : Result A) : keeps P F (lift r).
Proof. intros w H. split; [assumption | apply F_refl]. Qed.

Lemma keeps_raise {A} (e : Exn) : keeps P F (@raise A e).
Proof. intros w H. split; [assumption | apply F_refl]. Qed.

Lemma keeps_get_store : keeps P F get_store.
Proof. intros w H. split; [assumption | apply F_refl]. Qed.

(** Sequencing, when the value handed over is known to satisfy [Q]. *)
Lemma keeps_bind {A B} (Q : A -> Prop) (m : M A) (f : A -> M B) :
  keeps P F m ->
  (forall w a, P w -> fst (m w) = Ok a -> Q a) ->
  (forall a, Q a -> keeps P F (f a)) ->
  keeps P F (bind m f).
Proof.
  intros Hm HQ Hf w Hw. unfold bind.
  destruct (Hm w Hw) as [P1 F1]. specialize (HQ w).
  destruct (m w) as [[a|e] w1]; cbn [fst snd] in *.
  - destruct (Hf a (HQ a Hw eq_refl) w1 P1) as [P2 F2].
    split; [assumption | eapply F_trans; eassumption].
  - split; assumption.
Qed.

Lemma keeps_seq {A B} (m : M A) (f : A -> M B) :
  keeps P F m -> (forall a, keeps P F (f a)) -> keeps P F (bind m f).
Proof. intros Hm Hf. apply (keeps_bind (fun _ => True)); auto. Qed.

Lemma keeps_try_catch {A} (m : M A) (handler : Exn -> M A) :
  keeps P F m -> (forall e, keeps P F (handler e)) ->
  keeps P F (try_catch m handler).
Proof.
  intros Hm Hh w Hw. unfold try_catch.
  destruct (Hm w Hw) as [P1 F1].
  destruct (m w) as [[a|e] w1]; cbn [fst snd] in *.
  - split; assumption.
  - destruct (Hh e w1 P1) as [P2 F2].
    split; [assumption | eapply F_trans; eassumption].
Qed.

Lemma keeps_for_each {A} (xs : list A) (body : A -> M unit) :
  (forall x, In x xs -> keeps P F (body x)) ->
  keeps P F (for_each xs body).
Proof.
  induction xs as [|x xs IH]; intros H; cbn [for_each].
  - apply keeps_ret.
  - apply keeps_seq; [apply H; left; reflexivity|].
    intros _. apply IH. intros y Hy. apply H. right. assumption.
Qed.

End Generic.

End KeepsFacts.
Export KeepsFacts.

(* ================================================================== *)
(** ** Registration: [register_user], [get_user] and the handler *)

Module RegisterFacts.

Lemma store_call_ok (w : World) :
  store_faults w = [] -> store_call w = (Ok tt, w).
Proof. intros E. unfold store_call. rewrite E. reflexivity. Qed.

Lemma upsert_user_known (us : list User) (fresh tg : Z) (name : pystr)
      (username : option pystr) (u0 : User) :
  lookup_user tg us = Some u0 ->
  lookup_user tg (upsert_user us fresh tg name username)
  = Some {| u_id := u_id u0; u_telegram_id := tg;
            u_tg_username := username; u_name := name |}
  /\ map u_id (upsert_user us fresh tg name username) = map u_id us
  /\ map u_telegram_id (upsert_user us fresh tg name username)
     = map u_telegram_id us.
Proof.
  unfold lookup_user. induction us as [|u us IH]; [discriminate|].
  cbn [find upsert_user]. destruct (Z.eqb_spec (u_telegram_id u) tg) as [E|N].
  - intros H. inversion H; subst u0. cbn [find map u_telegram_id u_id].
    rewrite Z.eqb_refl, E. repeat apply conj; reflexivity.
  - intros H. destruct (IH H) as [F [I T]]. cbn [find map].
    destruct (Z.eqb_spec (u_telegram_id u) tg); [contradiction|].
    rewrite I, T. repeat apply conj; [assumption | reflexivity | reflexivity].
Qed.

Lemma upsert_user_new (us : list User) (fresh tg : Z) (name : pystr)
      (username : option pystr) :
  lookup_user tg us = None ->
  upsert_user us fresh tg name username
  = us ++ [{| u_id := fresh; u_telegram_id := tg;
              u_tg_username := username; u_name := name |}]
  /\ ~ In tg (map u_telegram_id us).
Proof.
  unfold lookup_user. induction us as [|u us IH]; cbn [find upsert_user].
  - intros _. split; [reflexivity | intros []].
  - destruct (Z.eqb_spec (u_telegram_id u) tg) as [E|N]; [discriminate|].
    intros H. destruct (IH H) as [Eu Hn]. rewrite Eu.
    split; [reflexivity|]. cbn [map]. intros [E | Hin]; auto.
Qed.

Lemma lookup_user_app_new (us : list User) (tg : Z) (u : User) :
  lookup_user tg us = None -> u_telegram_id u = tg ->
  lookup_user tg (us ++ [u]) = Some u.
Proof.
  unfold lookup_user. intros Hn Hu. induction us as [|x us IH].
  - cbn. rewrite Hu, Z.eqb_refl. reflexivity.
  - cbn [find app] in *.
    destruct (u_telegram_id x =? tg); [discriminate | auto].
Qed.

Lemma upsert_user_others (us : list User) (fresh tg tg' : Z) (name : pystr)
      (username : option pystr) :
  tg' <> tg ->
  lookup_user tg' (upsert_user us fresh tg name username)
  = lookup_user tg' us.
Proof.
  intros Hne. unfold lookup_user.
  induction us as [|u us IH]; cbn [find upsert_user].
  - cbn. destruct (Z.eqb_spec tg tg'); [congruence | reflexivity].
  - destruct (Z.eqb_spec (u_telegram_id u) tg) as [E|N]; cbn [find].
    + cbn [u_telegram_id]. rewrite E.
      destruct (Z.eqb_spec tg tg'); [congruence | reflexivity].
    + rewrite IH. reflexivity.
Qed.

Lemma next_user_id_fresh (us : list User) :
  forall u, In u us -> u_id u < next_user_id us.
Proof.
  unfold next_user_id. induction us as [|x us IH]; [intros u []|].
  intros u [<- | Hin]; cbn [fold_right].
  - lia.
  - specialize (IH u Hin). lia.
Qed.

Lemma upsert_user_wf (us : list User) (tg : Z) (name : pystr)
      (username : option pystr) :
  users_wf us ->
  users_wf (upsert_user us (next_user_id us) tg name username).
Proof.
  intros [Hid Htg]. unfold users_wf.
  destruct (lookup_user tg us) as [u0|] eqn:E.
  - destruct (upsert_user_known us (next_user_id us) tg name username u0 E)
      as [_ [-> ->]].
    split; assumption.
  - destruct (upsert_user_new us (next_user_id us) tg name username E)
      as [-> Hn].
    rewrite !map_app. cbn [map u_id u_telegram_id]. split.
    + apply NoDup_app; [assumption | constructor; [intros [] | constructor] |].
      intros a Ha [<- | []]. apply in_map_iff in Ha.
      destruct Ha as [u [Eu Hu]]. pose proof (next_user_id_fresh us u Hu).
      lia.
    + apply NoDup_app; [assumption | constructor; [intros [] | constructor] |].
      intros a Ha [<- | []]. contradiction.
Qed.

Lemma register_user_run (tg : Z) (name : pystr) (username : option pystr)
      (w : World) :
  store_faults w = [] ->
  register_user tg name username w
  = (Ok tt,
     {| store := {| users := upsert_user (users (store w))
                                         (next_user_id (users (store w)))
                                         tg name username;
                    processes := processes (store w);
                    reminder_logs := reminder_logs (store w) |};
        trace := trace w; store_faults := store_faults w;
        transport_faults := transport_faults w |}).
Proof.
  intros E. unfold register_user, bind. rewrite (store_call_ok w E).
  reflexivity.
Qed.

Lemma get_user_ok (tg : Z) (w : World) :
  store_faults w = [] ->
  get_user tg w = (Ok (lookup_user tg (users (store w))), w).
Proof.
  intros E. unfold get_user, bind. rewrite (store_call_ok w E). reflexivity.
Qed.

(** X1: when the store answers, [register_user] followed by [get_user]
    gives back the name and the handle just registered.  A sender who had a
    row keeps its id and no row is added; a new sender gets one more row,
    with an id larger than all the others.  The rows of the other senders,
    the processes and the log are untouched. *)
Theorem register_then_get_user
        (tg : Z) (name : pystr) (username : option pystr) (w : World) :
  store_faults w = [] ->
  let w1 := snd (register_user tg name username w) in
  fst (register_user tg name username w) = Ok tt
  /\ (exists u,
         get_user tg w1 = (Ok (Some u), w1)
         /\ u_name u = name /\ u_tg_username u = username
         /\ u_telegram_id u = tg
         /\ match lookup_user tg (users (store w)) with
            | Some u0 =>
              u_id u = u_id u0
              /\ List.length (users (store w1))
                 = List.length (users (store w))
            | None =>
              users (store w1) = users (store w) ++ [u]
              /\ forall v, In v (users (store w)) -> u_id v < u_id u
            end)
  /\ (forall tg', tg' <> tg ->
        lookup_user tg' (users (store w1))
        = lookup_user tg' (users (store w)))
  /\ processes (store w1) = processes (store w)
  /\ reminder_logs (store w1) = reminder_logs (store w)
  /\ trace w1 = trace w.
Proof.
  intros E w1. unfold w1. rewrite (register_user_run tg name username w E).
  cbn [fst snd store users processes reminder_logs trace].
  split; [reflexivity|]. split; [|split; [|repeat apply conj; reflexivity]].
  - rewrite get_user_ok by exact E. cbn [store users].
    destruct (lookup_user tg (users (store w))) as [u0|] eqn:L.
    + destruct (upsert_user_known (users (store w))
                  (next_user_id (users (store w))) tg name username u0 L)
        as [F [I T]].
      eexists. split; [rewrite F; reflexivity|]. cbn.
      repeat apply conj; try reflexivity.
      pose proof (f_equal (@List.length Z) I) as Hl.
      rewrite !length_map in Hl. exact Hl.
    + destruct (upsert_user_new (users (store w))
                  (next_user_id (users (store w))) tg name username L)
        as [Eu Hn].
      rewrite Eu.
      exists {| u_id := next_user_id (users (store w)); u_telegram_id := tg;
                u_tg_username := username; u_name := name |}.
      split.
      * rewrite (lookup_user_app_new _ tg _ L); reflexivity.
      * cbn. repeat apply conj; try reflexivity.
        intros v Hv. apply next_user_id_fresh. assumption.
  - intros tg' Hne. apply upsert_user_others. assumption.
Qed.

Lemma register_then_get_user_witness :
  exists u,
    get_user 1002 (snd (register_user 1002 (py "Иван") None registered_world))
    = (Ok (Some u),
       snd (register_user 1002 (py "Иван") None registered_world))
    /\ u_name u = py "Иван".
Proof.
  destruct (register_then_get_user 1002 (py "Иван") None registered_world
                                   eq_refl)
    as [_ [[u [G [Hn _]]] _]].
  exists u. split; assumption.
Defined.

(** X2: [register_user] keeps the keys of [users] unique, whatever the
    store does: no two rows share an id, no two rows share a telegram id. *)
Theorem register_user_keeps_keys_unique
        (tg : Z) (name : pystr) (username : option pystr) (w : World) :
  users_wf (users (store w)) ->
  users_wf (users (store (snd (register_user tg name username w)))).
Proof.
  intros Hwf. unfold register_user, bind, store_call, get_store, put_store.
  destruct (store_faults w) as [|[|] rest]; cbn [snd store users];
    try assumption; apply upsert_user_wf; assumption.
Qed.

Lemma register_user_keeps_keys_unique_witness :
  users_wf (users (store (snd (register_user 1002 (py "Иван") None
                                             registered_world)))).
Proof.
  apply register_user_keeps_keys_unique.
  split; repeat constructor; intros [].
Defined.

End RegisterFacts.
Export RegisterFacts.

(* ================================================================== *)
(** ** The chat handler: registration, help, failures, what it leaves alone *)

Module HandlerExtras.

Lemma slash_start (s : pystr) :
  startswith s (py "/start") = true -> startswith s (py "/") = true.
Proof.
  change (py "/") with [47%N].
  change (py "/start") with ([47; 115; 116; 97; 114; 116]%N).
  destruct s as [|c r]; [discriminate|]. cbn [startswith].
  intros H. apply andb_true_iff in H. destruct H as [-> _].
  destruct r; reflexivity.
Qed.

(** X3: when the store answers, a sender who is not registered and sends a
    text that, blanks stripped, is not empty and does not start with '/',
    is registered under that text with the handle of the message, and is
    sent the confirmation; the processes and the log are untouched. *)
Theorem plain_text_registers_sender (message : Message) (w : World) :
  store_faults w = [] ->
  registered_as w message = None ->
  text_of message <> [] ->
  startswith (text_of message) (py "/") = false ->
  exists w' u,
    handle_message message w = (Ok tt, w')
    /\ registered_as w' message = Some u
    /\ u_name u = text_of message
    /\ u_tg_username u = from_username message
    /\ new_events w w'
       = send_events (chat_id message) (REGISTERED_REPLY (text_of message))
                     (next_transport_fault w)
    /\ processes (store w') = processes (store w)
    /\ reminder_logs (store w') = reminder_logs (store w).
Proof.
  intros Ef Hreg Hne Hslash.
  assert (Hstart : startswith (text_of message) (py "/start") = false).
  { destruct (startswith (text_of message) (py "/start")) eqn:E;
      [|reflexivity].
    apply slash_start in E. congruence. }
  unfold handle_message, bind. rewrite (get_user_ok _ w Ef).
  fold (text_of message). rewrite Hstart.
  unfold registered_as in Hreg. fold (lookup_user (from_id message)
                                        (users (store w))) in Hreg.
  rewrite Hreg, Hslash.
  assert (Hemp : is_empty (text_of message) = false)
    by (destruct (text_of message); [congruence | reflexivity]).
  rewrite Hemp. cbn [negb andb].
  rewrite (register_user_run _ _ _ w Ef).
  match goal with
  | |- context [send_message ?c ?t ?w1] =>
    destruct (send_message_run c t w1) as [w' [E [Es [_ [_ Et]]]]];
    rewrite E
  end.
  cbn [store trace transport_faults] in Es, Et.
  destruct (upsert_user_new (users (store w))
              (next_user_id (users (store w))) (from_id message)
              (text_of message) (from_username message) Hreg) as [Eu _].
  exists w'. eexists. split; [reflexivity|].
  unfold registered_as. rewrite Es. cbn [users processes reminder_logs].
  rewrite Eu. split.
  - apply (lookup_user_app_new _ (from_id message) _ Hreg). reflexivity.
  - cbn [u_name u_tg_username]. repeat apply conj; try reflexivity.
    apply new_events_app. rewrite Et. reflexivity.
Qed.

Lemma plain_text_registers_sender_witness :
  exists w' u,
    handle_message (text_from 1002 " Иван ") registered_world = (Ok tt, w')
    /\ registered_as w' (text_from 1002 " Иван ") = Some u
    /\ u_name u = py "Иван".
Proof.
  assert (H1 : store_faults registered_world = []) by reflexivity.
  assert (H2 : registered_as registered_world (text_from 1002 " Иван ")
               = None) by reflexivity.
  assert (H3 : text_of (text_from 1002 " Иван ") <> [])
    by (vm_compute; discriminate).
  assert (H4 : startswith (text_of (text_from 1002 " Иван ")) (py "/")
               = false) by (vm_compute; reflexivity).
  destruct (plain_text_registers_sender
              (text_from 1002 " Иван ") registered_world H1 H2 H3 H4)
    as [w' [u [E [R [N _]]]]].
  exists w', u. split; [exact E|]. split; [exact R|].
  rewrite N. vm_compute. reflexivity.
Defined.

(** X4: when the store answers, a sender who is not registered and sends no
    text, or a text that starts with '/' other than /start, is sent the help
    text with the line asking for the name, and nothing is stored. *)
Theorem unregistered_command_gets_help (message : Message) (w : World) :
  store_faults w = [] ->
  registered_as w message = None ->
  startswith (text_of message) (py "/start") = false ->
  text_of message = [] \/ startswith (text_of message) (py "/") = true ->
  replies message w (build_help false).
Proof.
  intros Ef Hreg Hstart Hcmd.
  unfold replies, handle_message, bind. rewrite (get_user_ok _ w Ef).
  fold (text_of message). rewrite Hstart.
  unfold registered_as in Hreg. fold (lookup_user (from_id message)
                                        (users (store w))) in Hreg.
  rewrite Hreg.
  assert (Hbr : negb (is_empty (text_of message))
                && negb (startswith (text_of message) (py "/")) = false).
  { destruct Hcmd as [-> | ->]; [reflexivity|]. apply andb_false_r. }
  rewrite Hbr.
  apply HandlerFacts.send_after_get_user; reflexivity.
Qed.

Lemma unregistered_command_gets_help_witness :
  replies (text_from 4004 "/my") registered_world (build_help false).
Proof.
  apply unregistered_command_gets_help; try reflexivity.
  right. reflexivity.
Defined.

(** X5: when the store fails on the lookup of the sender, the handler
    raises the error of the store; nothing is sent and nothing is stored. *)
Theorem handler_raises_when_store_fails (message : Message) (w : World) :
  next_store_fault w = true ->
  exists w',
    handle_message message w = (Raise StoreError, w')
    /\ store w' = store w /\ trace w' = trace w.
Proof.
  intros Hf. destruct (store_call_run w) as [E [Es [Et _]]].
  rewrite Hf in E. unfold handle_message, get_user, bind.
  destruct (store_call w) as [r w1]. cbn [fst snd] in E, Es, Et. subst r.
  exists w1. split; [reflexivity|]. split; assumption.
Qed.

Lemma handler_raises_when_store_fails_witness :
  exists w',
    handle_message (text_from 1001 "/my")
                   {| store := store registered_world; trace := [];
                      store_faults := [true]; transport_faults := [] |}
    = (Raise StoreError, w')
    /\ trace w' = [].
Proof.
  destruct (handler_raises_when_store_fails
              (text_from 1001 "/my")
              {| store := store registered_world; trace := [];
                 store_faults := [true]; transport_faults := [] |}
              eq_refl)
    as [w' [E [_ T]]].
  exists w'. split; assumption.
Defined.

Section Frame.

Variable tg : Z.

Let Any (w : World) : Prop := True.

Lemma sender_frame_refl (w : World) : sender_frame tg w w.
Proof. repeat apply conj; auto. Qed.

Lemma sender_frame_trans (w1 w2 w3 : World) :
  sender_frame tg w1 w2 -> sender_frame tg w2 w3 -> sender_frame tg w1 w3.
Proof.
  intros [P1 [L1 [W1 O1]]] [P2 [L2 [W2 O2]]].
  repeat apply conj; try congruence; auto.
  intros tg' Hne. rewrite (O2 tg' Hne). apply O1. assumption.
Qed.

Lemma same_store_frame {A} (m : M A) :
  (forall w, store (snd (m w)) = store w) ->
  keeps Any (sender_frame tg) m.
Proof.
  intros H w _. split; [exact I|]. unfold sender_frame. rewrite (H w).
  repeat apply conj; auto.
Qed.

Lemma frame_store_call : keeps Any (sender_frame tg) store_call.
Proof.
  apply same_store_frame. intros w.
  destruct (store_call_run w) as [_ [Es _]]. exact Es.
Qed.

Lemma frame_send (c : Z) (text : pystr) :
  keeps Any (sender_frame tg) (send_message c text).
Proof.
  apply same_store_frame. intros w.
  destruct (send_message_run c text w) as [w' [E [Es _]]].
  rewrite E. exact Es.
Qed.

Lemma frame_read {A} (f : Store -> A) :
  keeps Any (sender_frame tg) (store_call ;;; s <- get_store ;; ret (f s)).
Proof.
  apply (keeps_seq Any (sender_frame tg) sender_frame_trans);
    [apply frame_store_call | intros _].
  apply (keeps_seq Any (sender_frame tg) sender_frame_trans);
    [apply keeps_get_store; apply sender_frame_refl | intros s].
  apply keeps_ret. apply sender_frame_refl.
Qed.

Lemma register_user_store (name : pystr) (username : option pystr)
      (w : World) :
  store (snd (register_user tg name username w)) = store w
  \/ store (snd (register_user tg name username w))
     = {| users := upsert_user (users (store w))
                               (next_user_id (users (store w)))
                               tg name username;
          processes := processes (store w);
          reminder_logs := reminder_logs (store w) |}.
Proof.
  unfold register_user, bind.
  destruct (store_call_run w) as [E [Es _]].
  destruct (store_call w) as [r w1]. cbn [fst snd] in E, Es. subst r.
  destruct (next_store_fault w).
  - left. exact Es.
  - right. cbn [get_store put_store snd store]. rewrite Es. reflexivity.
Qed.

Lemma frame_register (name : pystr) (username : option pystr) :
  keeps Any (sender_frame tg) (register_user tg name username).
Proof.
  intros w _. split; [exact I|]. unfold sender_frame.
  destruct (register_user_store name username w) as [-> | ->].
  - repeat apply conj; auto.
  - cbn [users processes reminder_logs].
    repeat apply conj; try reflexivity.
    + apply upsert_user_wf.
    + intros tg' Hne. apply upsert_user_others. assumption.
Qed.

End Frame.

(** X6: whatever the message, the store and the failures, the handler
    never changes the processes nor the log of reminders, keeps the keys of
    [users] unique, and leaves the row of every other sender as it is. *)
Theorem handler_touches_only_the_sender (message : Message) (w : World) :
  sender_frame (from_id message) w (snd (handle_message message w)).
Proof.
  set (tg := from_id message).
  assert (K : keeps (fun _ => True) (sender_frame tg)
                    (handle_message message)).
  { pose proof (sender_frame_refl tg) as Rf.
    pose proof (fun A B =>
                  @keeps_seq (fun _ => True) (sender_frame tg)
                             (sender_frame_trans tg) A B) as Seq.
    unfold handle_message. fold tg.
    apply Seq; [apply frame_read|]. intros registered.
    destruct (startswith _ (py "/start")); [apply frame_send|].
    destruct registered as [user|].
    - destruct (startswith _ (py "/my")).
      + apply Seq; [|intros; apply frame_send].
        unfold format_process_list.
        apply Seq; [apply frame_read|].
        intros [|p ps]; apply keeps_ret; assumption.
      + destruct (startswith _ (py "/check")); [|apply frame_send].
        destruct (parse_check_datetime _); [|apply frame_send].
        apply Seq; [|intros; apply frame_send].
        unfold build_check_response.
        apply Seq; [apply frame_read|].
        intros [|p ps]; [apply keeps_ret; assumption|].
        apply Seq; [apply keeps_lift; assumption|].
        intros lines. apply keeps_ret; assumption.
    - destruct (negb _ && negb _); [|apply frame_send].
      apply Seq; [apply frame_register | intros; apply frame_send]. }
  exact (proj2 (K w I)).
Qed.

End HandlerExtras.
Export HandlerExtras.

(* ================================================================== *)
(** ** Deadlines of the day and the /check command *)

Module CheckExtras.

Lemma digit_not_colon (x : Z) : (digit x =? 58)%N = false.
Proof.
  pose proof (digit_is_digit x). apply N.eqb_neq. lia.
Qed.

Lemma split_colon_hhmm (h m : Z) :
  split_colon (pad2 h ++ py ":" ++ pad2 m) = [pad2 h; pad2 m].
Proof.
  change (py ":") with [58%N]. unfold split_colon, pad2.
  cbn [app split_colon_from]. rewrite !digit_not_colon. reflexivity.
Qed.

Lemma time_hm_inv (h m t : Z) :
  time_hm h m = Ok t ->
  t = h * US_PER_HOUR + m * US_PER_MINUTE /\ 0 <= h < 24 /\ 0 <= m < 60.
Proof.
  unfold time_hm.
  destruct (Z.leb_spec 0 h), (Z.ltb_spec h 24), (Z.leb_spec 0 m),
    (Z.ltb_spec m 60); cbn [andb]; intros E; inversion E; lia.
Qed.

Lemma _deadline_datetime_inv (reference : datetime) (hhmm : pystr)
      (d : datetime) :
  _deadline_datetime reference hhmm = Ok d ->
  exists h m, 0 <= h < 24 /\ 0 <= m < 60
              /\ d = combine (date_of reference)
                             (h * US_PER_HOUR + m * US_PER_MINUTE).
Proof.
  unfold _deadline_datetime.
  destruct (split_colon hhmm) as [|hs [|ms [|x l]]]; try discriminate.
  destruct (int_of_str hs) as [h|]; [|discriminate].
  destruct (int_of_str ms) as [m|]; [|discriminate].
  destruct (time_hm h m) as [t|e] eqn:Et; [|discriminate].
  intros E. inversion E; subst d.
  destruct (time_hm_inv h m t Et) as [-> [Hh Hm]].
  exists h, m. repeat apply conj; try lia; reflexivity.
Qed.


(** X7: a deadline written HH:MM, hour from 00 to 23 and minute from 00 to
    59, gives that time of day on the date of the reference.  Whenever
    [_deadline_datetime] returns, the instant is on the date of the
    reference, on a whole minute, and depends on the reference through its
    date only. *)
Theorem deadline_is_on_the_reference_date :
  (forall (reference : datetime) (h m : Z),
      0 <= h <= 23 -> 0 <= m <= 59 ->
      _deadline_datetime reference (pad2 h ++ py ":" ++ pad2 m)
      = Ok (combine (date_of reference)
                    (h * US_PER_HOUR + m * US_PER_MINUTE)))
  /\ (forall (reference : datetime) (hhmm : pystr) (d : datetime),
        _deadline_datetime reference hhmm = Ok d ->
        date_of d = date_of reference
        /\ d mod US_PER_MINUTE = 0
        /\ forall reference',
             date_of reference' = date_of reference ->
             _deadline_datetime reference' hhmm = Ok d).
Proof.
  split.
  - intros reference h m Hh Hm. unfold _deadline_datetime.
    rewrite split_colon_hhmm, !int_of_str_pad2 by lia.
    unfold time_hm.
    destruct (Z.leb_spec 0 h), (Z.ltb_spec h 24), (Z.leb_spec 0 m),
      (Z.ltb_spec m 60); try lia.
    reflexivity.
  - intros reference hhmm d E.
    destruct (_deadline_datetime_inv reference hhmm d E)
      as [h [m [Hh [Hm ->]]]].
    split; [|split].
    + apply date_of_combine.
      unfold US_PER_DAY, US_PER_HOUR, US_PER_MINUTE, US_PER_SECOND. lia.
    + unfold combine, US_PER_DAY, US_PER_HOUR.
      replace (date_of reference * (24 * (60 * US_PER_MINUTE))
               + (h * (60 * US_PER_MINUTE) + m * US_PER_MINUTE))
        with ((date_of reference * 1440 + h * 60 + m) * US_PER_MINUTE)
        by ring.
      apply Z.mod_mul. vm_compute. discriminate.
    + intros reference' Hsame. unfold _deadline_datetime in *.
      rewrite Hsame. exact E.
Qed.

Lemma deadline_is_on_the_reference_date_witness :
  _deadline_datetime (mk_datetime 2025 12 15 21 59)
                     (pad2 10 ++ py ":" ++ pad2 30)
  = Ok (combine (date_of (mk_datetime 2025 12 15 21 59))
                (10 * US_PER_HOUR + 30 * US_PER_MINUTE))
  /\ date_of (mk_datetime 2025 12 15 10 30)
     = date_of (mk_datetime 2025 12 15 21 59).
Proof.
  destruct deadline_is_on_the_reference_date as [Parse Same].
  split.
  - apply Parse; lia.
  - refine (proj1 (Same (mk_datetime 2025 12 15 21 59) (py "10:30")
                        (mk_datetime 2025 12 15 10 30) _)).
    vm_compute. reflexivity.
Defined.

Lemma span_word_whole (w : pystr) : word w = true -> span_word w = (w, []).
Proof.
  induction w as [|c w IH]; [reflexivity|].
  cbn [word forallb]. intros H. apply andb_true_iff in H.
  destruct H as [Hc Hw]. apply negb_true_iff in Hc.
  cbn [span_word]. rewrite Hc, (IH Hw). reflexivity.
Qed.

(** X8: a text that, blanks stripped, holds no blank is never parsed by
    [parse_check_datetime]: the argument is cut off the command at the first
    blank before ',' and 'T' are turned into blanks, so /check alone, and
    /check glued to a date, give the usage hint. *)
Theorem check_needs_a_blank_before_its_argument (text : pystr) :
  word (strip text) = true -> parse_check_datetime text = None.
Proof.
  intros Hw. unfold parse_check_datetime, split_maxsplit1.
  destruct (strip text) as [|c r] eqn:E; [reflexivity|].
  assert (Hc : isspace c = false).
  { cbn [word forallb] in Hw. apply andb_true_iff in Hw.
    destruct Hw as [Hc _]. apply negb_true_iff in Hc. exact Hc. }
  rewrite (lstrip_word c r Hc), (span_word_whole (c :: r) Hw).
  reflexivity.
Qed.

Lemma check_needs_a_blank_before_its_argument_witness :
  parse_check_datetime (py " /check15-12-2025T09:00 ") = None
  /\ parse_check_datetime (py "/check") = None.
Proof.
  split; apply check_needs_a_blank_before_its_argument;
    vm_compute; reflexivity.
Defined.











End CheckExtras.
Export CheckExtras.

(* ================================================================== *)
(** ** The tables: order of the rows read, the log, seeding and import *)

Module DbExtras.

Section OrderBy.

Context {A : Type}.
Variable key : A -> Z.

Let le_key (a b : A) : Prop := key a <= key b.

Lemma insert_by_perm (x : A) (l : list A) :
  Permutation (insert_by key x l) (x :: l).
Proof.
  induction l as [|y l IH]; cbn [insert_by]; [reflexivity|].
  destruct (key x <? key y); [reflexivity|].
  rewrite IH. apply perm_swap.
Qed.

Lemma order_by_perm (l : list A) : Permutation (order_by key l) l.
Proof.
  induction l as [|x l IH]; cbn [order_by]; [reflexivity|].
  rewrite insert_by_perm, IH. reflexivity.
Qed.

Lemma insert_by_sorted (x : A) (l : list A) :
  StronglySorted le_key l -> StronglySorted le_key (insert_by key x l).
Proof.
  induction 1 as [|y l Hs IH Hy]; cbn [insert_by].
  - constructor; constructor.
  - destruct (Z.ltb_spec (key x) (key y)) as [Hlt | Hge].
    + constructor; [constructor; assumption|].
      constructor; [unfold le_key; lia|].
      apply Forall_forall. intros z Hz.
      rewrite Forall_forall in Hy. specialize (Hy z Hz).
      unfold le_key in *. lia.
    + constructor; [assumption|].
      apply Forall_forall. intros z Hz.
      apply (Permutation_in _ (insert_by_perm x l)) in Hz.
      destruct Hz as [<- | Hz]; [exact Hge|].
      rewrite Forall_forall in Hy. apply Hy. assumption.
Qed.

Lemma order_by_sorted (l : list A) : StronglySorted le_key (order_by key l).
Proof.
  induction l as [|x l IH]; cbn [order_by]; [constructor|].
  apply insert_by_sorted. assumption.
Qed.

End OrderBy.

(** X10: when the store answers, [get_processes_for_owner] returns the
    rows of [processes] whose owner is the name given, each as many times as
    it is in the table, in ascending order of id, and [get_all_users]
    returns the rows of [users] in ascending order of id; both leave the
    world as it is.  When the store fails they raise its error. *)
Theorem rows_are_read_in_id_order (owner_name : pystr) (w : World) :
  (store_faults w = [] ->
   (exists ps,
       get_processes_for_owner owner_name w = (Ok ps, w)
       /\ StronglySorted (fun p q => p_id p <= p_id q) ps
       /\ Permutation ps
            (filter (fun p => str_eqb (p_owner_name p) owner_name)
                    (processes (store w)))
       /\ forall p, In p ps <->
                    In p (processes (store w))
                    /\ p_owner_name p = owner_name)
   /\ (exists us,
          get_all_users w = (Ok us, w)
          /\ StronglySorted (fun u v => u_id u <= u_id v) us
          /\ Permutation us (users (store w))))
  /\ (next_store_fault w = true ->
      fst (get_processes_for_owner owner_name w) = Raise StoreError
      /\ fst (get_all_users w) = Raise StoreError).
Proof.
  split.
  - intros Ef. split.
    + eexists. split; [|split; [|split]].
      * unfold get_processes_for_owner, bind.
        rewrite (store_call_ok w Ef). reflexivity.
      * apply order_by_sorted.
      * apply order_by_perm.
      * intros p. rewrite In_order_by, filter_In, str_eqb_eq. reflexivity.
    + eexists. split; [|split].
      * unfold get_all_users, bind. rewrite (store_call_ok w Ef).
        reflexivity.
      * apply order_by_sorted.
      * apply order_by_perm.
  - intros Hf. destruct (store_call_run w) as [E _]. rewrite Hf in E.
    unfold get_processes_for_owner, get_all_users, bind.
    destruct (store_call w) as [r w1]. cbn [fst] in E. subst r.
    split; reflexivity.
Qed.

Lemma rows_are_read_in_id_order_witness :
  exists ps,
    get_processes_for_owner (py "Кирилл") broken_world = (Ok ps, broken_world)
    /\ StronglySorted (fun p q => p_id p <= p_id q) ps.
Proof.
  destruct (rows_are_read_in_id_order (py "Кирилл") broken_world)
    as [[[ps [E [S _]]] _] _]; [reflexivity|].
  exists ps. split; assumption.
Defined.

(** X11: a run of the reminder loop only appends to the log of reminders:
    the log after the run is the log before followed by the new rows, the
    tables of users and processes are as before, and a log without
    duplicate rows stays without duplicate rows. *)
Theorem log_is_append_only_and_unique (clock : list datetime) (w : World) :
  let w' := snd (reminders_loop clock w) in
  (exists added, logs w' = logs w ++ added
                 /\ forall row, In row added -> ~ In row (logs w))
  /\ users (store w') = users (store w)
  /\ processes (store w') = processes (store w)
  /\ (NoDup (logs w) -> NoDup (logs w')).
Proof.
  intros w'. destruct (reminders_loop_run clock w) as [Eu [Ep [_ F]]].
  fold w' in Eu, Ep, F. destruct F as [L Fr N _ _ _ _ _].
  split; [|split; [|split]]; try assumption.
  - exists (new_records (new_events w w')). split; assumption.
  - intros Hn. rewrite L. apply NoDup_app; try assumption.
    intros row Hl Hr. exact (Fr row Hr Hl).
Qed.

Lemma log_is_append_only_and_unique_witness :
  NoDup (logs (snd (reminders_loop scenario_A_clock scenario_A_world))).
Proof.
  apply (proj2 (proj2 (proj2 (log_is_append_only_and_unique
                                scenario_A_clock scenario_A_world)))).
  constructor.
Defined.

(** X12: once [record_reminder_sent] has returned for a user, a process and
    a date, [any_reminder_sent] answers true for them, whatever the engine
    did in between; and when it answers true, some slot of that user, that
    process and that date is in the log. *)
Theorem any_reminder_sent_after_record
        (u p : Z) (d : pystr) (i : Z) (b : bool) (w w1 : World)
        (clock : list datetime) :
  record_reminder_sent u p d i w = (Ok b, w1) ->
  let w2 := snd (reminders_loop clock w1) in
  (next_store_fault w2 = false -> fst (any_reminder_sent u p d w2) = Ok true)
  /\ (forall w3, fst (any_reminder_sent u p d w3) = Ok true ->
        exists slot, In {| user_id := u; process_id := p;
                           deadline_date := d; reminder_idx := slot |}
                        (logs w3)).
Proof.
  intros E w2. split.
  - intros Hf.
    assert (Hin : In {| user_id := u; process_id := p; deadline_date := d;
                        reminder_idx := i |} (logs w2)).
    { destruct (reminders_loop_run clock w1) as [_ [_ [_ F]]].
      destruct F as [L _ _ _ _ _ _ _]. fold w2 in L. rewrite L.
      apply in_or_app. left.
      apply (EngineClaims.recorded_after_call
               {| user_id := u; process_id := p; deadline_date := d;
                  reminder_idx := i |} w w1 b).
      exact E. }
    unfold any_reminder_sent, bind. destruct (store_call_run w2) as [Er [Es _]].
    rewrite Hf in Er. destruct (store_call w2) as [r w3].
    cbn [fst snd] in Er, Es. subst r. cbn [get_store ret fst]. f_equal.
    rewrite Es. apply existsb_exists. eexists. split; [exact Hin|].
    cbn [user_id process_id deadline_date].
    rewrite !Z.eqb_refl. cbn [andb]. apply str_eqb_eq. reflexivity.
  - intros w3 H. unfold any_reminder_sent, bind in H.
    destruct (store_call_run w3) as [Er [Es _]].
    destruct (store_call w3) as [r w4]. cbn [fst snd] in Er, Es. subst r.
    destruct (next_store_fault w3); [discriminate|].
    cbn [get_store ret fst] in H. inversion H as [Hex]. clear H.
    rewrite Es in Hex. apply existsb_exists in Hex.
    destruct Hex as [row [Hin Hrow]].
    rewrite !andb_true_iff, !Z.eqb_eq, str_eqb_eq in Hrow.
    destruct Hrow as [[Hu Hp] Hd]. exists (reminder_idx row).
    destruct row; cbn in *. subst. exact Hin.
Qed.

Lemma any_reminder_sent_after_record_witness :
  fst (any_reminder_sent 1 1 (py "2025-12-15")
         (snd (reminders_loop scenario_A_clock
                 (snd (record_reminder_sent 1 1 (py "2025-12-15") 2
                                            scenario_A_world)))))
  = Ok true.
Proof.
  refine (proj1 (any_reminder_sent_after_record
                   1 1 (py "2025-12-15") 2 true scenario_A_world _
                   scenario_A_clock _) _);
    vm_compute; reflexivity.
Defined.

End DbExtras.
Export DbExtras.

(* ================================================================== *)
(** ** Seeding and import of processes *)

Module SeedExtras.

Lemma max_process_id_app (ps qs : list Process) :
  max_process_id (ps ++ qs)
  = Z.max (max_process_id ps) (max_process_id qs).
Proof.
  unfold max_process_id. induction ps as [|p ps IH]; cbn [app fold_right].
  - assert (H : 0 <= fold_right (fun p acc => Z.max (p_id p) acc) 0 qs).
    { induction qs as [|q qs IHq]; cbn [fold_right]; lia. }
    lia.
  - rewrite IH. lia.
Qed.

Lemma max_process_id_bound (ps : list Process) :
  0 <= max_process_id ps
  /\ forall p, In p ps -> p_id p <= max_process_id ps.
Proof.
  unfold max_process_id. induction ps as [|q ps [H0 IH]]; cbn [fold_right].
  - split; [lia | intros p []].
  - split; [lia|]. intros p [<- | Hin]; [lia|].
    specialize (IH p Hin). lia.
Qed.

Section InsertRows.

Context {I : Type}.
Variable row : Z -> I -> Process.
Hypothesis row_id : forall id item, p_id (row id item) = id.

Lemma insert_rows_closed_form (ps : list Process) (items : list I) :
  insert_rows row ps items
  = ps ++ map (fun slot => row (fst slot) (snd slot))
              (enumerate items (next_process_id ps)).
Proof.
  revert ps. induction items as [|item items IH]; intros ps.
  - cbn. rewrite app_nil_r. reflexivity.
  - cbn [insert_rows enumerate map fst snd]. rewrite IH, <- app_assoc.
    cbn [app]. do 4 f_equal.
    unfold next_process_id. fold (max_process_id ps).
    fold (max_process_id (ps ++ [row (1 + max_process_id ps) item])).
    rewrite max_process_id_app. unfold max_process_id at 2.
    cbn [fold_right]. rewrite row_id.
    pose proof (max_process_id_bound ps) as [H0 _]. lia.
Qed.

Lemma enumerate_ids (items : list I) (start : Z) :
  NoDup (map fst (enumerate items start))
  /\ forall id, In id (map fst (enumerate items start)) -> start <= id.
Proof.
  revert start. induction items as [|item items IH]; intros start.
  - split; [constructor | intros id []].
  - cbn [enumerate map fst]. destruct (IH (start + 1)) as [Hn Hb].
    split.
    + constructor; [|assumption]. intros Hin. specialize (Hb _ Hin). lia.
    + intros id [<- | Hin]; [lia|]. specialize (Hb _ Hin). lia.
Qed.

Lemma enumerate_snd (items : list I) (start : Z) :
  map snd (enumerate items start) = items.
Proof.
  revert start. induction items as [|item items IH]; intros start;
    [reflexivity|].
  cbn [enumerate map snd]. rewrite IH. reflexivity.
Qed.

(** What an executemany of the INSERT does to the table. *)
Lemma insert_rows_spec (ps : list Process) (items : list I) :
  exists rows,
    insert_rows row ps items = ps ++ rows
    /\ List.length rows = List.length items
    /\ (forall (B : Type) (f : Process -> B) (g : I -> B),
          (forall id item, f (row id item) = g item) ->
          map f rows = map g items)
    /\ (forall r q, In r rows -> In q ps -> p_id q < p_id r)
    /\ (NoDup (map p_id ps) -> NoDup (map p_id (ps ++ rows))).
Proof.
  exists (map (fun slot => row (fst slot) (snd slot))
              (enumerate items (next_process_id ps))).
  assert (Ids : map p_id
                    (map (fun slot => row (fst slot) (snd slot))
                         (enumerate items (next_process_id ps)))
                = map fst (enumerate items (next_process_id ps))).
  { rewrite map_map. apply map_ext. intros slot. apply row_id. }
  destruct (enumerate_ids items (next_process_id ps)) as [Hn Hb].
  assert (Above : forall r q,
             In r (map (fun slot => row (fst slot) (snd slot))
                       (enumerate items (next_process_id ps))) ->
             In q ps -> p_id q < p_id r).
  { intros r q Hr Hq.
    assert (Hid : In (p_id r) (map fst (enumerate items (next_process_id ps))))
      by (rewrite <- Ids; apply in_map; exact Hr).
    specialize (Hb _ Hid).
    pose proof (proj2 (max_process_id_bound ps) q Hq).
    unfold next_process_id in Hb. fold (max_process_id ps) in Hb. lia. }
  split; [apply insert_rows_closed_form|]. split; [|split; [|split]].
  - rewrite length_map, <- (length_map snd), enumerate_snd. reflexivity.
  - intros B f g Hfg. rewrite map_map.
    rewrite <- (enumerate_snd items (next_process_id ps)) at 2.
    rewrite map_map. apply map_ext. intros slot. apply Hfg.
  - exact Above.
  - intros Hps. rewrite map_app, Ids. apply NoDup_app; try assumption.
    intros id Hin Hnew. apply in_map_iff in Hin.
    destruct Hin as [q [<- Hq]]. rewrite <- Ids in Hnew.
    apply in_map_iff in Hnew. destruct Hnew as [r [Er Hr]].
    specialize (Above r q Hr Hq). lia.
Qed.

End InsertRows.

(** X13: [seed_default_processes] never touches a table of processes that
    is not empty, and never touches the users, the log or the trace.  When
    the store answers and the table is empty it stores the four default
    processes, with the ids 1 to 4 and both lead times of each.  A second
    seeding after one that returned changes nothing: a restart does not
    duplicate the processes. *)
Theorem seeding_fills_only_an_empty_table (w : World) :
  let w1 := snd (seed_default_processes w) in
  users (store w1) = users (store w)
  /\ reminder_logs (store w1) = reminder_logs (store w)
  /\ trace w1 = trace w
  /\ (processes (store w) <> [] -> store w1 = store w)
  /\ (store_faults w = [] -> processes (store w) = [] ->
      map p_id (processes (store w1)) = [1; 2; 3; 4]
      /\ map p_name (processes (store w1))
         = map seed_name DEFAULT_PROCESSES
      /\ map own_lead_times (processes (store w1))
         = [[1440; 120]; [1440; 120]; [720; 120]; [720; 120]])
  /\ (next_store_fault w = false ->
      store (snd (seed_default_processes w1)) = store w1).
Proof.
  assert (Run : forall w0 : World,
             let w1 := snd (seed_default_processes w0) in
             (store w1 = store w0
              \/ (next_store_fault w0 = false /\ processes (store w0) = []
                  /\ store w1
                     = {| users := users (store w0);
                          processes := insert_rows seed_row []
                                                   DEFAULT_PROCESSES;
                          reminder_logs := reminder_logs (store w0) |}))
             /\ trace w1 = trace w0
             /\ (next_store_fault w0 = false -> processes (store w0) = [] ->
                 store w1
                 = {| users := users (store w0);
                      processes := insert_rows seed_row []
                                               DEFAULT_PROCESSES;
                      reminder_logs := reminder_logs (store w0) |})).
  { intros w0. unfold seed_default_processes, bind.
    destruct (store_call_run w0) as [E [Es [Et _]]].
    destruct (store_call w0) as [r w1]. cbn [fst snd] in E, Es, Et.
    subst r. destruct (next_store_fault w0).
    - cbn [snd]. split; [left; assumption|]. split; [assumption|].
      discriminate.
    - cbn [get_store]. rewrite Es.
      destruct (processes (store w0)) as [|p ps] eqn:Ep.
      + cbn [List.length Z.of_nat Z.eqb negb put_store snd store trace].
        split; [right; auto|]. split; [assumption|]. auto.
      + assert (Hc : negb (Z.of_nat (List.length (p :: ps)) =? 0) = true).
        { cbn [List.length]. apply negb_true_iff, Z.eqb_neq. lia. }
        rewrite Hc. cbn [ret snd]. split; [left; assumption|].
        split; [assumption|]. discriminate. }
  intros w1. destruct (Run w) as [Hs [Ht Hseed]]. fold w1 in Hs, Ht, Hseed.
  split; [|split; [|split; [|split; [|split]]]].
  - destruct Hs as [-> | [_ [_ ->]]]; reflexivity.
  - destruct Hs as [-> | [_ [_ ->]]]; reflexivity.
  - assumption.
  - intros Hne. destruct Hs as [-> | [_ [He _]]]; [reflexivity | congruence].
  - intros Ef He.
    assert (Hf : next_store_fault w = false)
      by (unfold next_store_fault; rewrite Ef; reflexivity).
    rewrite (Hseed Hf He). cbn [processes].
    repeat apply conj; vm_compute; reflexivity.
  - intros Hf. destruct (Run w1) as [[Hs1 | [_ [He1 _]]] _]; [assumption|].
    exfalso. destruct (processes (store w)) as [|p ps] eqn:Ep.
    + rewrite (Hseed Hf eq_refl) in He1. cbn [processes] in He1.
      vm_compute in He1. discriminate.
    + destruct Hs as [Hs | [_ [He _]]]; [|congruence].
      rewrite Hs, Ep in He1. discriminate.
Qed.

Lemma seeding_fills_only_an_empty_table_witness :
  map p_id (processes (store (snd (seed_default_processes
                                     (world_of {| users := [];
                                                  processes := [];
                                                  reminder_logs := [] |})))))
  = [1; 2; 3; 4]
  /\ store (snd (seed_default_processes registered_world))
     = store registered_world.
Proof.
  destruct (seeding_fills_only_an_empty_table
              (world_of {| users := []; processes := [];
                           reminder_logs := [] |}))
    as [_ [_ [_ [_ [Seed _]]]]].
  destruct (seeding_fills_only_an_empty_table registered_world)
    as [_ [_ [_ [Keep _]]]].
  split.
  - exact (proj1 (Seed eq_refl eq_refl)).
  - apply Keep. discriminate.
Defined.

(** X14: when the store answers, [upsert_processes] appends one row for
    each item, in the order of the items, after the rows that were there,
    which it never updates; each new row carries the name, owner,
    periodicity and deadline of its item and an id above every id of the
    table, so that unique ids stay unique.  Importing the same items twice
    stores them twice. *)
Theorem import_appends_rows (items : list ImportItem) (w : World) :
  store_faults w = [] ->
  let w1 := snd (upsert_processes items w) in
  fst (upsert_processes items w) = Ok tt
  /\ users (store w1) = users (store w)
  /\ reminder_logs (store w1) = reminder_logs (store w)
  /\ exists rows,
       processes (store w1) = processes (store w) ++ rows
       /\ List.length rows = List.length items
       /\ map p_name rows = map imp_name items
       /\ map p_owner_name rows = map imp_owner_name items
       /\ map p_periodicity rows = map imp_periodicity items
       /\ map p_deadline_time rows = map imp_deadline_time items
       /\ (forall r q, In r rows -> In q (processes (store w)) ->
                       p_id q < p_id r)
       /\ (NoDup (map p_id (processes (store w))) ->
           NoDup (map p_id (processes (store w1)))).
Proof.
  intros Ef w1. unfold w1, upsert_processes, bind.
  rewrite (store_call_ok w Ef).
  cbn [get_store put_store fst snd store users processes reminder_logs].
  split; [reflexivity|]. split; [reflexivity|]. split; [reflexivity|].
  destruct (insert_rows_spec import_row (fun _ _ => eq_refl)
                             (processes (store w)) items)
    as [rows [E [Hl [Hmap [Habove Hnodup]]]]].
  exists rows. rewrite E.
  repeat apply conj; try assumption; try reflexivity;
    try (apply Hmap; intros; reflexivity).
Qed.

Lemma import_appends_rows_witness :
  exists rows,
    processes (store (snd (upsert_processes
                             [{| imp_name := py "Отчёт";
                                 imp_owner_name := py "Иван";
                                 imp_periodicity := py "еженедельно";
                                 imp_deadline_time := py "18:00";
                                 imp_reminders := None |}]
                             registered_world)))
    = processes (store registered_world) ++ rows
    /\ List.length rows = 1%nat.
Proof.
  destruct (import_appends_rows
              [{| imp_name := py "Отчёт"; imp_owner_name := py "Иван";
                  imp_periodicity := py "еженедельно";
                  imp_deadline_time := py "18:00";
                  imp_reminders := None |}]
              registered_world eq_refl)
    as [_ [_ [_ [rows [E [L _]]]]]].
  exists rows. split; assumption.
Defined.

End SeedExtras.
Export SeedExtras.

(* ================================================================== *)
(** ** One turn of the polling loop *)

Module PollingExtras.

Lemma offset_after_last (offset : option Z) (before : list Update)
      (u : Update) :
  offset_after offset (before ++ [u]) = Some (update_id u + 1).
Proof.
  revert offset. induction before as [|x before IH]; intros offset.
  - reflexivity.
  - cbn [app offset_after]. apply IH.
Qed.

(** X15: in a turn of the polling loop, the updates are looked at in order,
    all of them or those up to the first whose handler raises; the offset
    asked next is the id of the last update looked at plus one, so an update
    whose handler raised is not handled again and those after it are asked
    again.  The processes and the log of reminders are left as they are.
    A reply that is not ok, and a request that raised, leave the offset and
    the world as they are. *)
Theorem offset_follows_the_updates
        (offset : option Z) (updates : list Update) (w : World) :
  let seen := looked_at updates w in
  let out := handle_updates offset updates w in
  fst (fst out) = offset_after offset seen
  /\ (exists rest, updates = seen ++ rest)
  /\ (snd (fst out) = Ok tt -> seen = updates)
  /\ (forall e, snd (fst out) = Raise e ->
        exists before u, seen = before ++ [u]
                         /\ fst (fst out) = Some (update_id u + 1))
  /\ processes (store (snd out)) = processes (store w)
  /\ reminder_logs (store (snd out)) = reminder_logs (store w)
  /\ poll_once offset (PollReplied false updates) w
     = ((offset, GetUpdatesError), w)
  /\ forall e, poll_once offset (PollRaised e) w
               = ((offset, PollingError e), w).
Proof.
  cbv zeta.
  assert (Main :
    fst (fst (handle_updates offset updates w))
    = offset_after offset (looked_at updates w)
    /\ (exists rest, updates = looked_at updates w ++ rest)
    /\ (snd (fst (handle_updates offset updates w)) = Ok tt ->
        looked_at updates w = updates)
    /\ (forall e, snd (fst (handle_updates offset updates w)) = Raise e ->
          exists before u,
            looked_at updates w = before ++ [u]
            /\ fst (fst (handle_updates offset updates w))
               = Some (update_id u + 1))
    /\ processes (store (snd (handle_updates offset updates w)))
       = processes (store w)
    /\ reminder_logs (store (snd (handle_updates offset updates w)))
       = reminder_logs (store w)).
  { revert offset w. induction updates as [|u updates IH]; intros offset w.
    - cbn. repeat apply conj; try reflexivity.
      + exists []. reflexivity.
      + intros e H. discriminate.
    - cbn [handle_updates looked_at].
      assert (Step : forall w1 : World,
                 processes (store w1) = processes (store w) ->
                 reminder_logs (store w1) = reminder_logs (store w) ->
                 fst (fst (handle_updates (Some (update_id u + 1)) updates w1))
                 = offset_after offset (u :: looked_at updates w1)
                 /\ (exists rest,
                        u :: updates = (u :: looked_at updates w1) ++ rest)
                 /\ (snd (fst (handle_updates (Some (update_id u + 1))
                                              updates w1)) = Ok tt ->
                     u :: looked_at updates w1 = u :: updates)
                 /\ (forall e,
                        snd (fst (handle_updates (Some (update_id u + 1))
                                                 updates w1)) = Raise e ->
                        exists before u0,
                          u :: looked_at updates w1 = before ++ [u0]
                          /\ fst (fst (handle_updates
                                         (Some (update_id u + 1)) updates w1))
                             = Some (update_id u0 + 1))
                 /\ processes
                      (store (snd (handle_updates (Some (update_id u + 1))
                                                  updates w1)))
                    = processes (store w)
                 /\ reminder_logs
                      (store (snd (handle_updates (Some (update_id u + 1))
                                                  updates w1)))
                    = reminder_logs (store w)).
      { intros w1 Hp Hl.
        destruct (IH (Some (update_id u + 1)) w1)
          as [Ho [[rest Er] [Hok [Hraise [Hp1 Hl1]]]]].
        repeat apply conj.
        - exact Ho.
        - exists rest. cbn [app]. rewrite <- Er. reflexivity.
        - intros H. rewrite (Hok H). reflexivity.
        - intros e H. destruct (Hraise e H) as [before [u0 [Eb Eo]]].
          exists (u :: before), u0. rewrite Eb. split; [reflexivity | exact Eo].
        - congruence.
        - congruence. }
      destruct (message_of u) as [message|]; [|apply Step; reflexivity].
      pose proof (handler_touches_only_the_sender message w)
        as [Hp [Hl _]].
      destruct (handle_message message w) as [[[]|e] w1] eqn:Eh;
        cbn [snd] in Hp, Hl.
      + apply Step; assumption.
      + cbn [fst snd offset_after]. repeat apply conj; try assumption.
        * reflexivity.
        * exists updates. reflexivity.
        * discriminate.
        * intros e' _. exists [], u. split; reflexivity. }
  destruct Main as [H1 [H2 [H3 [H4 [H5 H6]]]]].
  repeat apply conj; try assumption; reflexivity.
Qed.

Lemma offset_follows_the_updates_witness :
  fst (fst (handle_updates
              None
              [{| update_id := 7; upd_message := None;
                  upd_edited_message := None |};
               {| update_id := 8;
                  upd_message := Some (text_from 1001 "/my");
                  upd_edited_message := None |}]
              registered_world))
  = Some 9.
Proof.
  destruct (offset_follows_the_updates
              None
              [{| update_id := 7; upd_message := None;
                  upd_edited_message := None |};
               {| update_id := 8;
                  upd_message := Some (text_from 1001 "/my");
                  upd_edited_message := None |}]
              registered_world) as [H [_ [Hall _]]].
  rewrite H, Hall; [reflexivity|]. vm_compute. reflexivity.
Defined.

End PollingExtras.
Export PollingExtras.

(* ================================================================== *)
(** ** The engine records what is due, and writes to the right chat *)

Module EngineExtras.

Section Completes.

Variable us : list User.
Variable ps : list Process.
Variable now : datetime.

Hypothesis well_formed :
  forall p, In p ps ->
    exists d, _deadline_datetime (combine (date_of now) 0)
                                 (p_deadline_time p) = Ok d.

(** The store answers every call, and holds the tables [us] and [ps]. *)
Definition answering (w : World) : Prop :=
  store_faults w = [] /\ users (store w) = us /\ processes (store w) = ps.

(** [m] returns, the log only grows, and the rows asked for by [Req] are in
    the log afterwards. *)
Definition achieves (Req : LogRow -> Prop) (m : M unit) : Prop :=
  forall w, answering w ->
    fst (m w) = Ok tt
    /\ answering (snd (m w))
    /\ incl (logs w) (logs (snd (m w)))
    /\ forall row, Req row -> In row (logs (snd (m w))).

Lemma achieves_nothing : achieves (fun _ => False) (ret tt).
Proof.
  intros w Hw. repeat apply conj; try assumption; try apply Hw.
  - reflexivity.
  - apply incl_refl.
  - intros row [].
Qed.

Lemma achieves_weaken (Req Req' : LogRow -> Prop) (m : M unit) :
  (forall row, Req' row -> Req row) -> achieves Req m -> achieves Req' m.
Proof.
  intros H Hm w Hw. destruct (Hm w Hw) as [E [A [I R]]].
  repeat apply conj; try assumption; try apply A. auto.
Qed.

Lemma achieves_for_each {A} (Req : A -> LogRow -> Prop) (xs : list A)
      (body : A -> M unit) :
  (forall x, In x xs -> achieves (Req x) (body x)) ->
  achieves (fun row => exists x, In x xs /\ Req x row) (for_each xs body).
Proof.
  induction xs as [|x xs IH]; intros H.
  - eapply achieves_weaken; [|apply achieves_nothing].
    intros row [x [[] _]].
  - intros w Hw. cbn [for_each]. unfold bind.
    destruct (H x (or_introl eq_refl) w Hw) as [E [A1 [I1 R1]]].
    destruct (body x w) as [r w1]. cbn [fst snd] in E, A1, I1, R1. subst r.
    destruct (IH (fun y Hy => H y (or_intror Hy)) w1 A1) as [E2 [A2 [I2 R2]]].
    split; [assumption|]. split; [assumption|]. split.
    + intros row Hrow. apply I2, I1. assumption.
    + intros row [y [[<- | Hy] Hreq]].
      * apply I2. apply R1. assumption.
      * apply R2. exists y. split; assumption.
Qed.

Lemma achieves_remind_slot user p deadline_dt idx minutes_before :
  achieves (fun row =>
              deadline_dt - timedelta_minutes minutes_before <= now
              /\ row = slot_row user p (date_of now) idx)
           (remind_slot now user p (date_of now) deadline_dt
                        (idx, minutes_before)).
Proof.
  intros w Hw. unfold remind_slot.
  destruct (Z.leb_spec (deadline_dt - timedelta_minutes minutes_before) now)
    as [Hdue | Hnot].
  2: { destruct (achieves_nothing w Hw) as [E [A [I _]]].
       repeat apply conj; try assumption; try apply A.
       intros row [H _]. lia. }
  destruct Hw as [Ef [Eu Ep]]. unfold bind.
  pose proof (record_reminder_sent_run (u_id user) (p_id p)
                (isoformat (date_of now)) idx w) as Out.
  fold (slot_row user p (date_of now) idx) in Out.
  assert (Hnf : next_store_fault w = false)
    by (unfold next_store_fault; rewrite Ef; reflexivity).
  destruct (record_reminder_sent (u_id user) (p_id p)
              (isoformat (date_of now)) idx w) as [r w1].
  cbn [fst snd] in Out.
  destruct Out as [w1 Hf _ _ _ _ | w1 _ Hin Es Et _ Esf
                   | w1 _ Hnew Es Et _ Esf]; [congruence| |].
  - unfold ret. cbn [fst snd]. unfold answering, logs. rewrite Es, Esf, Ef.
    repeat apply conj; try assumption; try reflexivity.
    + apply incl_refl.
    + intros row [_ ->]. exact Hin.
  - match goal with
    | |- context [send_message ?c ?txt w1] =>
      destruct (send_message_run c txt w1) as [w2 [E2 [Es2 [Esf2 _]]]];
      rewrite E2
    end.
    cbn [fst snd]. unfold answering, logs. rewrite Es2, Esf2, Es, Esf, Ef.
    cbn [users processes reminder_logs].
    repeat apply conj; try assumption; try reflexivity.
    + apply incl_appl, incl_refl.
    + intros row [_ ->]. apply in_or_app. right. left. reflexivity.
Qed.

Lemma achieves_remind_process user p deadline_dt :
  _deadline_datetime (combine (date_of now) 0) (p_deadline_time p)
  = Ok deadline_dt ->
  achieves (fun row =>
              exists idx minutes_before,
                In (idx, minutes_before) (enumerate REMINDER_MINUTES 1)
                /\ now < deadline_dt
                /\ deadline_dt - timedelta_minutes minutes_before <= now
                /\ row = slot_row user p (date_of now) idx)
           (remind_process now user p).
Proof.
  intros Hd. unfold remind_process, bind, lift. rewrite Hd.
  destruct (Z.leb_spec deadline_dt now) as [Hpassed | Hahead].
  - eapply achieves_weaken; [|apply achieves_nothing].
    intros row [idx [m [_ [H _]]]]. lia.
  - eapply achieves_weaken;
      [|apply (achieves_for_each
                 (fun slot row =>
                    deadline_dt - timedelta_minutes (snd slot) <= now
                    /\ row = slot_row user p (date_of now) (fst slot)))].
    + intros row [idx [m [Hin [_ [Hdue ->]]]]].
      exists (idx, m). repeat apply conj; auto.
    + intros [idx m] _. apply achieves_remind_slot.
Qed.

Lemma achieves_remind_user user :
  achieves (fun row =>
              exists p deadline_dt idx minutes_before,
                In p ps /\ p_owner_name p = u_name user
                /\ _deadline_datetime (combine (date_of now) 0)
                                      (p_deadline_time p) = Ok deadline_dt
                /\ In (idx, minutes_before) (enumerate REMINDER_MINUTES 1)
                /\ now < deadline_dt
                /\ deadline_dt - timedelta_minutes minutes_before <= now
                /\ row = slot_row user p (date_of now) idx)
           (remind_user now user).
Proof.
  intros w Hw. pose proof Hw as [Ef [Eu Ep]].
  unfold remind_user, get_processes_for_owner, bind.
  rewrite (store_call_ok w Ef). cbn [get_store ret]. rewrite Ep.
  set (mine := order_by p_id
                 (filter (fun p => str_eqb (p_owner_name p) (u_name user))
                         ps)).
  assert (Hmine : forall p, In p mine <->
                            In p ps /\ p_owner_name p = u_name user).
  { intros p. unfold mine.
    rewrite In_order_by, filter_In, str_eqb_eq. reflexivity. }
  assert (Loop : achieves
                   (fun row => exists p, In p mine /\
                      exists d idx m,
                        _deadline_datetime (combine (date_of now) 0)
                                           (p_deadline_time p) = Ok d
                        /\ In (idx, m) (enumerate REMINDER_MINUTES 1)
                        /\ now < d /\ d - timedelta_minutes m <= now
                        /\ row = slot_row user p (date_of now) idx)
                   (for_each mine (remind_process now user))).
  { apply (achieves_for_each
             (fun p row => exists d idx m,
                  _deadline_datetime (combine (date_of now) 0)
                                     (p_deadline_time p) = Ok d
                  /\ In (idx, m) (enumerate REMINDER_MINUTES 1)
                  /\ now < d /\ d - timedelta_minutes m <= now
                  /\ row = slot_row user p (date_of now) idx)).
    intros p Hp. destruct (well_formed p (proj1 (proj1 (Hmine p) Hp)))
      as [d Hd].
    eapply achieves_weaken; [|apply (achieves_remind_process user p d Hd)].
    intros row [d' [idx [m [Hd' [Hin [Hlt [Hdue ->]]]]]]].
    rewrite Hd in Hd'. inversion Hd'; subst d'.
    exists idx, m. repeat apply conj; auto. }
  assert (Goal : achieves
                   (fun row =>
                      exists p deadline_dt idx minutes_before,
                        In p ps /\ p_owner_name p = u_name user
                        /\ _deadline_datetime (combine (date_of now) 0)
                             (p_deadline_time p) = Ok deadline_dt
                        /\ In (idx, minutes_before)
                              (enumerate REMINDER_MINUTES 1)
                        /\ now < deadline_dt
                        /\ deadline_dt - timedelta_minutes minutes_before
                           <= now
                        /\ row = slot_row user p (date_of now) idx)
                   (for_each mine (remind_process now user))).
  { eapply achieves_weaken; [|exact Loop].
    intros row [p [d [idx [m [Hp [Ho [Hd [Hin [Hlt [Hdue ->]]]]]]]]]].
    exists p. split; [apply Hmine; auto|].
    exists d, idx, m. repeat apply conj; auto. }
  destruct mine as [|p0 rest] eqn:Em.
  - exact (Goal w Hw).
  - exact (Goal w Hw).
Qed.

Lemma achieves_tick :
  achieves (fun row =>
              exists user p deadline_dt idx minutes_before,
                In user us /\ In p ps /\ p_owner_name p = u_name user
                /\ _deadline_datetime (combine (date_of now) 0)
                                      (p_deadline_time p) = Ok deadline_dt
                /\ In (idx, minutes_before) (enumerate REMINDER_MINUTES 1)
                /\ now < deadline_dt
                /\ deadline_dt - timedelta_minutes minutes_before <= now
                /\ row = slot_row user p (date_of now) idx)
           (tick now).
Proof.
  intros w Hw. pose proof Hw as [Ef [Eu Ep]].
  unfold tick, try_catch, get_all_users, bind.
  rewrite (store_call_ok w Ef). cbn [get_store ret]. rewrite Eu.
  assert (Loop : achieves
                   (fun row => exists user, In user (order_by u_id us) /\
                      exists p deadline_dt idx minutes_before,
                        In p ps /\ p_owner_name p = u_name user
                        /\ _deadline_datetime (combine (date_of now) 0)
                             (p_deadline_time p) = Ok deadline_dt
                        /\ In (idx, minutes_before)
                              (enumerate REMINDER_MINUTES 1)
                        /\ now < deadline_dt
                        /\ deadline_dt - timedelta_minutes minutes_before
                           <= now
                        /\ row = slot_row user p (date_of now) idx)
                   (for_each (order_by u_id us) (remind_user now))).
  { apply (achieves_for_each
             (fun user row =>
                exists p deadline_dt idx minutes_before,
                  In p ps /\ p_owner_name p = u_name user
                  /\ _deadline_datetime (combine (date_of now) 0)
                       (p_deadline_time p) = Ok deadline_dt
                  /\ In (idx, minutes_before) (enumerate REMINDER_MINUTES 1)
                  /\ now < deadline_dt
                  /\ deadline_dt - timedelta_minutes minutes_before <= now
                  /\ row = slot_row user p (date_of now) idx)).
    intros user _. apply achieves_remind_user. }
  destruct (Loop w Hw) as [E [A [I R]]].
  destruct (for_each (order_by u_id us) (remind_user now) w) as [r w1].
  cbn [fst snd] in E, A, I, R. subst r. cbn [fst snd].
  repeat apply conj; try assumption; try apply A; try reflexivity.
  intros row [user [p [d [idx [m [Hu Rest]]]]]].
  apply R. exists user. split; [apply In_order_by; assumption|].
  exists p, d, idx, m. exact Rest.
Qed.

End Completes.

Lemma engine_run_dispatches_all us ps clock l t l' :
  engine_run us ps clock l t l' -> dispatched t = new_records t.
Proof.
  intros R. pose proof (engine_run_facts us ps clock l t l' R) as F0.
  induction R as [l | l row Hin J | l row c txt Hnew J
                  | l row c txt e Hnew J | l e
                  | l0 t1 l1 t2 l2 R1 IH1 R2 IH2]; try reflexivity.
  pose proof (engine_run_facts _ _ _ _ _ _ R1) as F1.
  pose proof (engine_run_facts _ _ _ _ _ _ R2) as F2.
  unfold dispatched.
  rewrite (dispatched_from_app None t1 t2 (rf_guarded _ _ _ _ _ _ F2)).
  rewrite new_records_app.
  fold (dispatched t1). rewrite (IH1 F1), (IH2 F2). reflexivity.
Qed.

(** X16: in a turn where the store answers every call and every process
    has a well-formed deadline, the engine records every slot that is due:
    for each user, each process of that
    user and each offset of REMINDER_MINUTES, if the deadline of the day is
    ahead and the reading has reached the deadline less the offset, the row
    of that slot is in the log after the turn; and if it was not there
    before, its reminder was handed to the transport in this turn. *)
Theorem due_reminders_are_recorded (now : datetime) (w : World) :
  store_faults w = [] ->
  (forall p, In p (processes (store w)) ->
     exists d, _deadline_datetime (combine (date_of now) 0)
                                  (p_deadline_time p) = Ok d) ->
  let w' := snd (tick now w) in
  forall user p deadline_dt idx minutes_before,
    In user (users (store w)) -> In p (processes (store w)) ->
    p_owner_name p = u_name user ->
    _deadline_datetime (combine (date_of now) 0) (p_deadline_time p)
    = Ok deadline_dt ->
    In (idx, minutes_before) (enumerate REMINDER_MINUTES 1) ->
    now < deadline_dt ->
    deadline_dt - timedelta_minutes minutes_before <= now ->
    In (slot_row user p (date_of now) idx) (logs w')
    /\ (~ In (slot_row user p (date_of now) idx) (logs w) ->
        In (slot_row user p (date_of now) idx)
           (dispatched (new_events w w'))).
Proof.
  intros Ef Hwf w' user p d idx m Hu Hp Ho Hd Hslot Hahead Hdue.
  destruct (achieves_tick (users (store w)) (processes (store w)) now Hwf w)
    as [_ [_ [_ R]]]; [repeat apply conj; auto|].
  fold w' in R.
  assert (Hin : In (slot_row user p (date_of now) idx) (logs w')).
  { apply R. exists user, p, d, idx, m. repeat apply conj; auto. }
  split; [exact Hin|]. intros Hnew.
  destruct (preserves_tick (users (store w)) (processes (store w))
              [now] now (or_introl eq_refl) w (conj eq_refl eq_refl))
    as [_ [t [Et Run]]].
  fold w' in Et, Run.
  rewrite (new_events_app _ _ _ Et).
  rewrite (engine_run_dispatches_all _ _ _ _ _ _ Run).
  destruct (engine_run_facts _ _ _ _ _ _ Run) as [L _ _ _ _ _ _ _].
  rewrite L in Hin. apply in_app_or in Hin. tauto.
Qed.

Lemma due_reminders_are_recorded_witness :
  In (slot_row ivan fill_kops (date_of (mk_datetime 2025 12 15 9 0)) 1)
     (logs (snd (tick (mk_datetime 2025 12 15 9 0) healthy_world))).
Proof.
  refine (proj1 (due_reminders_are_recorded
                   (mk_datetime 2025 12 15 9 0) healthy_world eq_refl _
                   ivan fill_kops (mk_datetime 2025 12 15 10 30) 1 120
                   _ _ _ _ _ _ _)).
  - intros p [<- | [<- | []]]; eexists; vm_compute; reflexivity.
  - right. left. reflexivity.
  - right. left. reflexivity.
  - reflexivity.
  - vm_compute. reflexivity.
  - left. reflexivity.
  - vm_compute. reflexivity.
  - vm_compute. discriminate.
Defined.

Section Posts.

Variable us : list User.
Variable ps : list Process.
Variable clock : list datetime.

(** A POST of the engine is the reminder of a process of a registered user,
    sent to the chat of that user while the deadline is ahead. *)
Definition reminder_post (e : Event) : Prop :=
  match e with
  | EvPost c text _ =>
    exists now user p deadline_dt,
      In now clock /\ In user us /\ In p ps
      /\ p_owner_name p = u_name user
      /\ _deadline_datetime (combine (date_of now) 0) (p_deadline_time p)
         = Ok deadline_dt
      /\ now < deadline_dt
      /\ c = u_telegram_id user
      /\ text = reminder_text p (deadline_dt - now)
  | _ => True
  end.

Definition posts_reminders (w w' : World) : Prop :=
  exists t, trace w' = trace w ++ t /\ Forall reminder_post t.

Lemma posts_reminders_refl (w : World) : posts_reminders w w.
Proof. exists []. rewrite app_nil_r. split; [reflexivity | constructor]. Qed.

Lemma posts_reminders_trans (w1 w2 w3 : World) :
  posts_reminders w1 w2 -> posts_reminders w2 w3 -> posts_reminders w1 w3.
Proof.
  intros [t1 [E1 F1]] [t2 [E2 F2]]. exists (t1 ++ t2).
  rewrite E2, E1, app_assoc. split; [reflexivity|].
  apply Forall_app. split; assumption.
Qed.

Lemma posts_silent {A} (m : M A) :
  (forall w, store (snd (m w)) = store w /\ trace (snd (m w)) = trace w) ->
  keeps (inv us ps) posts_reminders m.
Proof.
  intros H w Hw. destruct (H w) as [Es Et]. unfold inv. rewrite Es.
  split; [exact Hw|]. exists []. rewrite Et, app_nil_r.
  split; [reflexivity | constructor].
Qed.

Lemma posts_read {A} (f : Store -> A) :
  keeps (inv us ps) posts_reminders
        (store_call ;;; s <- get_store ;; ret (f s)).
Proof.
  apply posts_silent. intros w. unfold bind.
  destruct (store_call_run w) as [_ [Es [Et _]]].
  destruct (store_call w) as [[[]|e] w1]; cbn [fst snd] in *;
    split; assumption.
Qed.

Lemma posts_remind_slot now user p deadline_dt slot :
  In now clock -> In user us -> In p ps ->
  p_owner_name p = u_name user ->
  _deadline_datetime (combine (date_of now) 0) (p_deadline_time p)
  = Ok deadline_dt ->
  now < deadline_dt ->
  keeps (inv us ps) posts_reminders
        (remind_slot now user p (date_of now) deadline_dt slot).
Proof.
  intros Hnow Hu Hp Ho Hd Hahead w Hw. destruct slot as [idx m].
  unfold remind_slot.
  destruct (deadline_dt - timedelta_minutes m <=? now);
    [|split; [exact Hw | apply posts_reminders_refl]].
  unfold bind.
  pose proof (record_reminder_sent_run (u_id user) (p_id p)
                (isoformat (date_of now)) idx w) as Out.
  destruct (record_reminder_sent (u_id user) (p_id p)
              (isoformat (date_of now)) idx w) as [r w1].
  cbn [fst snd] in Out. unfold inv in *.
  destruct Out as [w1 _ Es Et _ _ | w1 _ _ Es Et _ _ | w1 _ _ Es Et _ _].
  - cbn [snd]. rewrite Es. split; [exact Hw|].
    exists []. rewrite Et, app_nil_r. split; [reflexivity | constructor].
  - unfold ret. cbn [snd]. rewrite Es. split; [exact Hw|].
    exists [EvRecord {| user_id := u_id user; process_id := p_id p;
                        deadline_date := isoformat (date_of now);
                        reminder_idx := idx |} false].
    split; [exact Et | repeat constructor].
  - match goal with
    | |- context [send_message ?c ?txt w1] =>
      destruct (send_message_run c txt w1) as [w2 [E2 [Es2 [_ [_ Et2]]]]];
      rewrite E2;
      assert (Post : forall delivered,
                 reminder_post (EvPost c txt delivered))
    end.
    { intros delivered. exists now, user, p, deadline_dt.
      split; [exact Hnow|]. split; [exact Hu|]. split; [exact Hp|].
      split; [exact Ho|]. split; [exact Hd|]. split; [exact Hahead|].
      split; [reflexivity|]. unfold reminder_text. reflexivity. }
    cbn [snd]. rewrite Es2, Es. cbn [users processes].
    split; [exact Hw|]. eexists. split.
    + rewrite Et2, Et, <- app_assoc. reflexivity.
    + constructor; [exact I|]. unfold send_events.
      destruct (next_transport_fault w1); repeat constructor; apply Post.
Qed.

Lemma posts_tick now :
  In now clock -> keeps (inv us ps) posts_reminders (tick now).
Proof.
  intros Hnow.
  pose proof (fun A B => @keeps_seq (inv us ps) posts_reminders
                                    posts_reminders_trans A B) as Seq.
  pose proof (fun A B => @keeps_bind (inv us ps) posts_reminders
                                     posts_reminders_trans A B) as Bind.
  unfold tick. apply keeps_try_catch; [apply posts_reminders_trans| |].
  - apply (Bind _ _ (fun l => forall u, In u l -> In u us)).
    + apply posts_read.
    + intros w l Hw E. eapply get_all_users_value; eassumption.
    + intros l Hl. apply keeps_for_each;
        [apply posts_reminders_refl | apply posts_reminders_trans |].
      intros user Hu0. specialize (Hl user Hu0). unfold remind_user.
      apply (Bind _ _ (fun l => forall p, In p l ->
                          In p ps /\ p_owner_name p = u_name user)).
      * apply posts_read.
      * intros w l0 Hw E. eapply get_processes_for_owner_value; eassumption.
      * intros mine Hmine.
        assert (Each : keeps (inv us ps) posts_reminders
                             (for_each mine (remind_process now user))).
        { apply keeps_for_each;
            [apply posts_reminders_refl | apply posts_reminders_trans |].
          intros p Hp0. destruct (Hmine p Hp0) as [Hp Ho].
          unfold remind_process.
          apply (Bind _ _ (fun d =>
                   _deadline_datetime (combine (date_of now) 0)
                                      (p_deadline_time p) = Ok d)).
          - apply keeps_lift. apply posts_reminders_refl.
          - intros w d _ E. exact E.
          - intros d Hd. destruct (Z.leb_spec d now).
            + apply keeps_ret. apply posts_reminders_refl.
            + apply keeps_for_each;
                [apply posts_reminders_refl | apply posts_reminders_trans |].
              intros slot _. apply posts_remind_slot; assumption. }
        destruct mine; [apply keeps_ret; apply posts_reminders_refl|].
        exact Each.
  - intros e w Hw. split; [exact Hw|].
    exists [EvLog ReminderLoopError e]. split; [reflexivity|].
    repeat constructor.
Qed.

Lemma posts_loop (nows : list datetime) :
  incl nows clock ->
  keeps (inv us ps) posts_reminders (reminders_loop nows).
Proof.
  induction nows as [|now later IH]; intros Hincl; cbn [reminders_loop].
  - apply keeps_ret. apply posts_reminders_refl.
  - apply keeps_seq; [apply posts_reminders_trans | |].
    + apply posts_tick. apply Hincl. left. reflexivity.
    + intros _. apply IH. intros x Hx. apply Hincl. right. exact Hx.
Qed.

End Posts.

Lemma humanize_delta_ahead (delta : timedelta) :
  0 < delta ->
  startswith (humanize_delta delta) (py "через ") = true
  /\ startswith (humanize_delta delta) (py "просрочено") = false.
Proof.
  intros H. unfold humanize_delta.
  assert (Hm : 0 <= floor_minutes (total_seconds delta))
    by (apply HumanizeFacts.floor_minutes_nonneg; lia).
  assert (P1 : forall r, startswith (py "через " ++ r) (py "через ") = true).
  { intros r.
    change (py "через ") with ([1095; 1077; 1088; 1077; 1079; 32]%N).
    cbn [app startswith]. rewrite !N.eqb_refl. destruct r; reflexivity. }
  assert (P2 : forall r, startswith (py "через " ++ r) (py "просрочено")
                         = false)
    by (intros r; vm_compute; reflexivity).
  destruct (Z.ltb_spec (floor_minutes (total_seconds delta)) 0); [lia|].
  destruct (floor_minutes (total_seconds delta) <? 60);
    [|destruct (Z.div_eucl (floor_minutes (total_seconds delta)) 60)];
    rewrite P1, P2; split; reflexivity.
Qed.

(** X17: in any run of the reminder loop, every POST is the reminder of a
    process of a registered user whose name is the owner of the process: it
    goes to the telegram id of that user, is issued at a reading before the
    deadline of the day, and its text is the reminder text of the process
    with the time left, which starts with "через" and never says
    "просрочено". *)
Theorem reminders_go_to_the_owner
        (clock : list datetime) (w : World)
        (chat_id : Z) (text : pystr) (delivered : bool) :
  In (EvPost chat_id text delivered)
     (new_events w (snd (reminders_loop clock w))) ->
  exists now user p deadline_dt,
    In now clock /\ In user (users (store w))
    /\ In p (processes (store w))
    /\ p_owner_name p = u_name user
    /\ _deadline_datetime (combine (date_of now) 0) (p_deadline_time p)
       = Ok deadline_dt
    /\ now < deadline_dt
    /\ chat_id = u_telegram_id user
    /\ text = reminder_text p (deadline_dt - now)
    /\ startswith (humanize_delta (deadline_dt - now)) (py "через ") = true
    /\ startswith (humanize_delta (deadline_dt - now)) (py "просрочено")
       = false.
Proof.
  intros Hin.
  destruct (posts_loop (users (store w)) (processes (store w)) clock clock
                       (incl_refl _) w (conj eq_refl eq_refl))
    as [_ [t [Et Hall]]].
  rewrite (new_events_app _ _ _ Et) in Hin.
  rewrite Forall_forall in Hall. specialize (Hall _ Hin).
  destruct Hall as [now [user [p [d [H1 [H2 [H3 [H4 [H5 [H6 [H7 H8]]]]]]]]]]].
  destruct (humanize_delta_ahead (d - now)) as [Ha Hb]; [lia|].
  exists now, user, p, d. repeat apply conj; assumption.
Qed.

Lemma reminders_go_to_the_owner_witness :
  exists now user p deadline_dt,
    In now scenario_A_clock /\ In user [kirill] /\ In p [fill_table]
    /\ p_owner_name p = u_name user
    /\ _deadline_datetime (combine (date_of now) 0) (p_deadline_time p)
       = Ok deadline_dt
    /\ now < deadline_dt
    /\ 1001 = u_telegram_id user.
Proof.
  destruct (reminders_go_to_the_owner
              scenario_A_clock scenario_A_world 1001
              (reminder_text fill_table
                 (mk_datetime 2025 12 15 23 59 - mk_datetime 2025 12 15 21 59))
              true)
    as [now [user [p [d [H1 [H2 [H3 [H4 [H5 [H6 [H7 _]]]]]]]]]]].
  - vm_compute. right. left. reflexivity.
  - exists now, user, p, d. repeat apply conj; assumption.
Defined.

End EngineExtras.
Export EngineExtras.

(* ================================================================== *)
(** ** The chat handler does not read the stored lead times either *)

Module HandlerLeadTimes.

Lemma lead_get_user tg :
  related same_but_lead_times eq (get_user tg) (get_user tg).
Proof.
  unfold get_user.
  apply (read_related same_but_lead_times eq
           (fun s => find (fun u => u_telegram_id u =? tg) (users s))).
  intros w1 w2 HR. pose proof HR as [Eu [Ep [El [Et [Ef Etf]]]]].
  split; [apply next_store_fault_same; assumption|]. split.
  - rewrite Eu. reflexivity.
  - apply lead_store_call. assumption.
Qed.

Lemma lead_register tg name username :
  related same_but_lead_times eq (register_user tg name username)
          (register_user tg name username).
Proof.
  intros w1 w2 HR. pose proof HR as [Eu [Ep [El [Et [Ef Etf]]]]].
  pose proof (lead_store_call w1 w2 HR) as HR1.
  pose proof (next_store_fault_same _ _ Ef) as Hf.
  unfold register_user, bind.
  destruct (store_call_run w1) as [E1 _].
  destruct (store_call_run w2) as [E2 _].
  destruct (store_call w1) as [r1 w1'], (store_call w2) as [r2 w2'].
  cbn [fst snd] in E1, E2, HR1. subst r1 r2. rewrite <- Hf.
  destruct (next_store_fault w1).
  - split; [reflexivity | assumption].
  - cbn [get_store put_store]. split; [reflexivity|].
    destruct HR1 as [Eu1 [Ep1 [El1 [Et1 [Ef1 Etf1]]]]].
    unfold same_but_lead_times, logs in *.
    cbn [store users processes reminder_logs trace store_faults
         transport_faults].
    rewrite Eu1. repeat apply conj; try assumption; reflexivity.
Qed.

Lemma same_process_lines {B} (line : Process -> B) (l1 l2 : list Process) :
  (forall p q, same_process p q -> line p = line q) ->
  Forall2 same_process l1 l2 -> map line l1 = map line l2.
Proof.
  intros H. induction 1 as [|p q l1 l2 Hpq _ IH]; [reflexivity|].
  cbn [map]. rewrite (H p q Hpq), IH. reflexivity.
Qed.

Lemma check_lines_same (now : datetime) (l1 l2 : list Process) :
  Forall2 same_process l1 l2 -> check_lines now l1 = check_lines now l2.
Proof.
  induction 1 as [|p q l1 l2 Hpq _ IH]; [reflexivity|].
  cbn [check_lines]. rewrite IH.
  destruct Hpq as [_ [En [_ [_ Ed]]]].
  unfold check_line. rewrite En, Ed. reflexivity.
Qed.

Lemma lead_format_process_list owner_name :
  related same_but_lead_times eq (format_process_list owner_name)
          (format_process_list owner_name).
Proof.
  unfold format_process_list.
  eapply related_bind; [apply lead_processes|].
  intros l1 l2 HF.
  assert (Lines :
    map (fun p => py "• " ++ p_name p ++ py " — " ++ p_periodicity p
                  ++ py ", дедлайн " ++ p_deadline_time p ++ py ".") l1
    = map (fun p => py "• " ++ p_name p ++ py " — " ++ p_periodicity p
                    ++ py ", дедлайн " ++ p_deadline_time p ++ py ".") l2).
  { apply same_process_lines; [|assumption].
    intros p q [_ [En [_ [Ep Ed]]]]. rewrite En, Ep, Ed. reflexivity. }
  destruct HF as [|p q l1 l2 Hpq HF].
  - apply related_ret. reflexivity.
  - apply related_ret. rewrite Lines. reflexivity.
Qed.

Lemma lead_build_check_response now owner_name :
  related same_but_lead_times eq (build_check_response now owner_name)
          (build_check_response now owner_name).
Proof.
  unfold build_check_response.
  eapply related_bind; [apply lead_processes|].
  intros l1 l2 HF. pose proof (check_lines_same now l1 l2 HF) as Same.
  destruct HF as [|p q l1 l2 Hpq HF].
  - apply related_ret. reflexivity.
  - rewrite Same. eapply related_bind; [apply related_lift|].
    intros lines _ <-. apply related_ret. reflexivity.
Qed.

(** X18: the chat handler does not read the lead times stored with the
    processes: on two stores that differ in them only, it ends the same way
    for every message, sends the same texts and stores the same rows. *)
Theorem handler_ignores_lead_times
        (message : Message) (w1 w2 : World) :
  same_but_lead_times w1 w2 ->
  fst (handle_message message w1) = fst (handle_message message w2)
  /\ same_but_lead_times (snd (handle_message message w1))
                         (snd (handle_message message w2)).
Proof.
  intros HR.
  apply (related_run same_but_lead_times (handle_message message));
    [|assumption].
  unfold handle_message.
  eapply related_bind; [apply lead_get_user|]. intros registered _ <-.
  destruct (startswith _ (py "/start")); [apply lead_send|].
  destruct registered as [user|].
  - destruct (startswith _ (py "/my")).
    + eapply related_bind; [apply lead_format_process_list|].
      intros reply _ <-. apply lead_send.
    + destruct (startswith _ (py "/check")); [|apply lead_send].
      destruct (parse_check_datetime _); [|apply lead_send].
      eapply related_bind; [apply lead_build_check_response|].
      intros reply _ <-. apply lead_send.
  - destruct (negb _ && negb _); [|apply lead_send].
    eapply related_bind; [apply lead_register|].
    intros _ _ _. apply lead_send.
Qed.

Lemma handler_ignores_lead_times_witness :
  trace (snd (handle_message (text_from 1002 "/my") (ivan_world fill_kops)))
  = trace (snd (handle_message (text_from 1002 "/my")
                               (ivan_world fill_kops_short_notice))).
Proof.
  destruct (handler_ignores_lead_times
              (text_from 1002 "/my") (ivan_world fill_kops)
              (ivan_world fill_kops_short_notice))
    as [_ [_ [_ [_ [Et _]]]]].
  - vm_compute. repeat apply conj; try reflexivity.
    constructor; [repeat apply conj; reflexivity | constructor].
  - exact Et.
Defined.

End HandlerLeadTimes.
Export HandlerLeadTimes.

(* ================================================================== *)
(** ** The export to the worksheet *)

Module SheetFacts.

Lemma str_ltb_irrefl (a : pystr) : str_ltb a a = false.
Proof.
  induction a as [|x a IH]; [reflexivity|].
  cbn [str_ltb]. rewrite N.ltb_irrefl, N.eqb_refl, IH. reflexivity.
Qed.

Lemma str_ltb_trans (a b c : pystr) :
  str_ltb a b = true -> str_ltb b c = true -> str_ltb a c = true.
Proof.
  revert b c. induction a as [|x a IH]; intros [|y b] [|z c];
    cbn [str_ltb]; try discriminate; try reflexivity.
  rewrite !orb_true_iff, !andb_true_iff, !N.ltb_lt, !N.eqb_eq.
  intros [Hxy | [Exy Hab]] [Hyz | [Eyz Hbc]].
  - left. lia.
  - left. lia.
  - left. lia.
  - right. split; [lia|]. apply (IH b c); assumption.
Qed.

Lemma str_ltb_total (a b : pystr) :
  str_ltb a b = false -> str_ltb b a = false -> a = b.
Proof.
  revert b. induction a as [|x a IH]; intros [|y b]; cbn [str_ltb];
    try discriminate; [reflexivity|].
  rewrite !orb_false_iff, !andb_false_iff, !N.ltb_ge, !N.eqb_neq.
  intros [Hxy Hab] [Hyx Hba].
  assert (x = y) by lia. subst y.
  destruct Hab as [Hab | Hab]; [congruence|].
  destruct Hba as [Hba | Hba]; [congruence|].
  rewrite (IH b Hab Hba). reflexivity.
Qed.

Lemma str_ltb_asym (a b : pystr) :
  str_ltb a b = true -> str_ltb b a = false.
Proof.
  intros H. destruct (str_ltb b a) eqn:E; [|reflexivity].
  pose proof (str_ltb_trans a b a H E) as C.
  rewrite str_ltb_irrefl in C. discriminate.
Qed.

(** What [process_ltb] decides. *)
Lemma process_ltb_spec (p q : Process) :
  process_ltb q p = false <-> owner_then_id p q.
Proof.
  unfold process_ltb, owner_then_id.
  rewrite orb_false_iff, andb_false_iff, Z.ltb_ge. split.
  - intros [Hlt [Hne | Hge]].
    + destruct (str_ltb (p_owner_name p) (p_owner_name q)) eqn:E;
        [left; reflexivity|].
      exfalso. apply (str_ltb_total _ _ E) in Hlt.
      rewrite Hlt in Hne. unfold str_eqb in Hne.
      destruct (list_eq_dec N.eq_dec (p_owner_name q) (p_owner_name q));
        [discriminate | congruence].
    + destruct (str_ltb (p_owner_name p) (p_owner_name q)) eqn:E;
        [left; reflexivity|].
      right. split; [|assumption].
      apply str_ltb_total; assumption.
  - intros [Hlt | [Eo Hid]].
    + split; [apply str_ltb_asym; assumption|].
      left. unfold str_eqb.
      destruct (list_eq_dec N.eq_dec (p_owner_name q) (p_owner_name p))
        as [E|]; [|reflexivity].
      rewrite E, str_ltb_irrefl in Hlt. discriminate.
    + split; [rewrite Eo; apply str_ltb_irrefl|]. right. assumption.
Qed.

Lemma owner_then_id_trans (p q r : Process) :
  owner_then_id p q -> owner_then_id q r -> owner_then_id p r.
Proof.
  unfold owner_then_id.
  intros [Hpq | [Epq Ipq]] [Hqr | [Eqr Iqr]].
  - left. eapply str_ltb_trans; eassumption.
  - left. rewrite <- Eqr. assumption.
  - left. rewrite Epq. assumption.
  - right. split; [congruence | lia].
Qed.

Lemma owner_then_id_total (p q : Process) :
  process_ltb p q = true -> owner_then_id p q.
Proof.
  unfold process_ltb, owner_then_id.
  rewrite orb_true_iff, andb_true_iff, Z.ltb_lt.
  intros [H | [E L]]; [left; assumption|].
  right. apply str_eqb_eq in E. split; [assumption | lia].
Qed.

Lemma insert_process_perm (p : Process) (l : list Process) :
  Permutation (insert_process p l) (p :: l).
Proof.
  induction l as [|q l IH]; cbn [insert_process]; [reflexivity|].
  destruct (process_ltb p q); [reflexivity|].
  rewrite IH. apply perm_swap.
Qed.

Lemma order_by_owner_id_perm (l : list Process) :
  Permutation (order_by_owner_id l) l.
Proof.
  induction l as [|p l IH]; cbn [order_by_owner_id]; [reflexivity|].
  rewrite insert_process_perm, IH. reflexivity.
Qed.

Lemma insert_process_sorted (p : Process) (l : list Process) :
  StronglySorted owner_then_id l ->
  StronglySorted owner_then_id (insert_process p l).
Proof.
  induction 1 as [|q l Hs IH Hq]; cbn [insert_process].
  - constructor; constructor.
  - destruct (process_ltb p q) eqn:E.
    + apply owner_then_id_total in E.
      constructor; [constructor; assumption|].
      constructor; [assumption|].
      apply Forall_forall. intros z Hz.
      rewrite Forall_forall in Hq.
      apply (owner_then_id_trans p q z); [assumption | apply Hq; assumption].
    + apply process_ltb_spec in E.
      constructor; [assumption|].
      apply Forall_forall. intros z Hz.
      apply (Permutation_in _ (insert_process_perm p l)) in Hz.
      destruct Hz as [<- | Hz]; [assumption|].
      rewrite Forall_forall in Hq. apply Hq. assumption.
Qed.

Lemma order_by_owner_id_sorted (l : list Process) :
  StronglySorted owner_then_id (order_by_owner_id l).
Proof.
  induction l as [|p l IH]; cbn [order_by_owner_id]; [constructor|].
  apply insert_process_sorted. assumption.
Qed.

(** X19: when the store answers, the rows of the export are the header and
    then one row for each row of [processes], each process once, by owner
    name and, under one owner, by ascending id; the export leaves the world
    as it is.  When the store fails the export raises its error and there
    are no rows. *)
Theorem export_lists_every_process (w : World) :
  (store_faults w = [] ->
   exists ps,
     export_rows w = (Ok (HEADER :: map sheet_row ps), w)
     /\ Permutation ps (processes (store w))
     /\ StronglySorted owner_then_id ps)
  /\ (next_store_fault w = true ->
      fst (export_rows w) = Raise StoreError).
Proof.
  split.
  - intros Ef. exists (order_by_owner_id (processes (store w))).
    split; [|split].
    + unfold export_rows, get_all_processes, bind, store_call.
      rewrite Ef. reflexivity.
    + apply order_by_owner_id_perm.
    + apply order_by_owner_id_sorted.
  - intros Hf. destruct (store_call_run w) as [E _]. rewrite Hf in E.
    unfold export_rows, get_all_processes, bind.
    destruct (store_call w) as [r w']. cbn [fst] in E. subst r.
    reflexivity.
Qed.

Lemma export_lists_every_process_witness :
  (exists ps,
      export_rows healthy_world = (Ok (HEADER :: map sheet_row ps),
                                   healthy_world)
      /\ Permutation ps (processes (store healthy_world))
      /\ StronglySorted owner_then_id ps)
  /\ fst (export_rows {| store := store healthy_world; trace := [];
                         store_faults := [true]; transport_faults := [] |})
     = Raise StoreError.
Proof.
  split.
  - apply (export_lists_every_process healthy_world). reflexivity.
  - apply (export_lists_every_process
             {| store := store healthy_world; trace := [];
                store_faults := [true]; transport_faults := [] |}).
    reflexivity.
Defined.

Lemma Z_of_str_of_Z (n : Z) : Z_of_str (str_of_Z n) = Some n.
Proof.
  unfold Z_of_str, str_of_Z, bytes_of. rewrite map_map.
  rewrite (map_ext _ (fun a => a) ascii_N_embedding), map_id.
  rewrite string_of_list_ascii_of_string.
  rewrite NilZero.isi.
  - cbn [option_map]. rewrite DecimalZ.of_to. reflexivity.
  - destruct n as [|p|p]; cbn [Z.to_int]; try discriminate.
    intros E. injection E. apply DecimalPos.Unsigned.to_uint_nonnil.
  - destruct n as [|p|p]; cbn [Z.to_int]; try discriminate.
    intros E. injection E. apply DecimalPos.Unsigned.to_uint_nonnil.
Qed.

Lemma str_of_Z_nonempty (n : Z) : str_of_Z n <> [].
Proof.
  intros E. pose proof (Z_of_str_of_Z n) as H. rewrite E in H.
  vm_compute in H. discriminate.
Qed.

Lemma cell_shown (x : option Z) : cell (shown x) = cell x.
Proof. destruct x as [[| |]|]; reflexivity. Qed.

Lemma cell_of_shown (x : option Z) :
  option_map str_of_Z (shown x)
  = match cell x with [] => None | s => Some s end.
Proof.
  destruct x as [n|]; [|reflexivity].
  destruct n as [|p|p]; [reflexivity| |]; cbn [shown cell Z.eqb option_map].
  - pose proof (str_of_Z_nonempty (Z.pos p)) as H.
    destruct (str_of_Z (Z.pos p)); [congruence | reflexivity].
  - pose proof (str_of_Z_nonempty (Z.neg p)) as H.
    destruct (str_of_Z (Z.neg p)); [congruence | reflexivity].
Qed.

(** X20: a lead-time cell of the export is empty exactly when the stored
    lead time is NULL or 0, so a lead time of 0 is exported as no lead time;
    apart from that the cell tells the lead time: two stored values give the
    same cell exactly when they are equal once 0 is read as NULL. *)
Theorem export_cell_drops_zero (x y : option Z) :
  (cell x = [] <-> x = None \/ x = Some 0)
  /\ (cell x = cell y <-> shown x = shown y).
Proof.
  split.
  - split.
    + destruct x as [n|]; [|left; reflexivity].
      cbn [cell]. destruct (Z.eqb_spec n 0) as [-> | Hn].
      * right. reflexivity.
      * intros E. exfalso. exact (str_of_Z_nonempty n E).
    + intros [-> | ->]; reflexivity.
  - split.
    + intros E.
      pose proof (cell_of_shown x) as Hx. pose proof (cell_of_shown y) as Hy.
      rewrite E in Hx. rewrite <- Hy in Hx.
      destruct (shown x) as [a|], (shown y) as [b|];
        cbn [option_map] in Hx; try discriminate; [|reflexivity].
      injection Hx as Hs.
      pose proof (Z_of_str_of_Z a) as Ha. rewrite Hs, Z_of_str_of_Z in Ha.
      congruence.
    + intros E. rewrite <- (cell_shown x), <- (cell_shown y), E.
      reflexivity.
Qed.

End SheetFacts.

